(** * The Coffee Corner: form validation, quotes and notifications

    A shallow embedding of [js/script.js]: the two submit handlers
    (contact form and catering enquiry form), the regular expressions and
    parsing they rely on, and the notification widget with its timers. *)

From Stdlib Require Import String Ascii ZArith NArith List Bool Lia.
Import ListNotations.


(** ** JavaScript strings

    A JavaScript string is a sequence of UTF-16 code units; [length],
    [trim], [charAt] and the regular expressions of the script (which carry
    no [u] flag) all work on code units. *)

Module Js.

Definition str := list N.

(** A literal whose characters are all ASCII. *)
Definition lit (s : string) : str := map N_of_ascii (list_ascii_of_string s).

Definition str_eqb (a b : str) : bool :=
  if list_eq_dec N.eq_dec a b then true else false.

(** Truthiness of a string: only the empty string is falsy. *)
Definition truthy (s : str) : bool :=
  match s with [] => false | _ :: _ => true end.

(** ECMAScript WhiteSpace and LineTerminator code units: what [trim] strips,
    what [\s] matches and what [parseInt] skips. *)
Definition is_space (c : N) : bool :=
  existsb (N.eqb c)
    [9; 10; 11; 12; 13; 32; 160; 5760; 8232; 8233; 8239; 8287; 12288; 65279]%N
  || ((8192 <=? c) && (c <=? 8202))%N.

(** [\d] without the [u] flag: the ten ASCII digits. *)
Definition is_digit (c : N) : bool := ((48 <=? c) && (c <=? 57))%N.

Fixpoint trimStart (s : str) : str :=
  match s with
  | c :: s' => if is_space c then trimStart s' else s
  | [] => []
  end.

Definition trimEnd (s : str) : str := rev (trimStart (rev s)).

(** [String.prototype.trim]. *)
Definition trim (s : str) : str := trimEnd (trimStart s).

End Js.


(** ** Regular expressions

    The patterns of the script use character classes, concatenation, [+]
    and a bounded repetition [{m,n}], anchored at both ends. [test] is a
    derivative matcher; [Matches] is the language of an expression. *)

Module Re.

Inductive re : Type :=
| Nul : re
| Eps : re
| Cls : (N -> bool) -> re
| Cat : re -> re -> re
| Alt : re -> re -> re
| Star : re -> re.

Definition Chr (c : N) : re := Cls (N.eqb c).
Definition Plus (r : re) : re := Cat r (Star r).

Fixpoint Rep (n : nat) (r : re) : re :=
  match n with O => Eps | S n' => Cat r (Rep n' r) end.

Fixpoint UpTo (n : nat) (r : re) : re :=
  match n with O => Eps | S n' => Alt Eps (Cat r (UpTo n' r)) end.

(** [r{m,n}] *)
Definition Range (m n : nat) (r : re) : re := Cat (Rep m r) (UpTo (n - m) r).

Fixpoint nullable (r : re) : bool :=
  match r with
  | Nul => false
  | Eps => true
  | Cls _ => false
  | Cat r1 r2 => nullable r1 && nullable r2
  | Alt r1 r2 => nullable r1 || nullable r2
  | Star _ => true
  end.

Fixpoint deriv (c : N) (r : re) : re :=
  match r with
  | Nul => Nul
  | Eps => Nul
  | Cls p => if p c then Eps else Nul
  | Cat r1 r2 =>
      if nullable r1 then Alt (Cat (deriv c r1) r2) (deriv c r2)
      else Cat (deriv c r1) r2
  | Alt r1 r2 => Alt (deriv c r1) (deriv c r2)
  | Star r1 => Cat (deriv c r1) (Star r1)
  end.

(** [/^r$/.test(s)]: the whole of [s] is matched by [r]. *)
Fixpoint test (r : re) (s : Js.str) : bool :=
  match s with
  | [] => nullable r
  | c :: s' => test (deriv c r) s'
  end.

Inductive Matches : re -> Js.str -> Prop :=
| MEps : Matches Eps []
| MCls p c : p c = true -> Matches (Cls p) [c]
| MCat r1 r2 s1 s2 :
    Matches r1 s1 -> Matches r2 s2 -> Matches (Cat r1 r2) (s1 ++ s2)
| MAltL r1 r2 s : Matches r1 s -> Matches (Alt r1 r2) s
| MAltR r1 r2 s : Matches r2 s -> Matches (Alt r1 r2) s
| MStar0 r : Matches (Star r) []
| MStarS r s1 s2 :
    Matches r s1 -> Matches (Star r) s2 -> Matches (Star r) (s1 ++ s2).

End Re.

(** ** Platform functions used by the handlers *)

Module Platform.

Import Js.

Definition ch (a : ascii) : N := N_of_ascii a.

Definition digit_val (c : N) : Z := Z.of_N c - 48.

(** Value of a run of decimal digits, most significant first. *)
Definition digits_val (ds : str) : Z :=
  fold_left (fun acc c => 10 * acc + digit_val c)%Z ds 0%Z.

Fixpoint take_digits (s : str) : str :=
  match s with
  | c :: s' => if is_digit c then c :: take_digits s' else []
  | [] => []
  end.

(** [parseInt(s, 10)]: leading white space is skipped, an optional sign is
    read, then the longest run of decimal digits; without a digit the result
    is NaN, here [None]. The result is the integer the digits denote. The
    platform's result is the double nearest to it, which is that integer
    up to 2^53; beyond, the two differ, and what is said of [parseInt]
    is said for numerals up to 2^53 only. *)
Definition parseInt (s : str) : option Z :=
  let s1 := trimStart s in
  let '(sign, s2) :=
    match s1 with
    | c :: r => if (c =? ch "-")%N then ((-1)%Z, r)
                else if (c =? ch "+")%N then (1%Z, r)
                else (1%Z, s1)
    | [] => (1%Z, s1)
    end in
  match take_digits s2 with
  | [] => None
  | ds => Some (sign * digits_val ds)%Z
  end.

(** [x || 0] on a number: NaN and zero are falsy. *)
Definition num_or_zero (x : option Z) : Z :=
  match x with Some z => z | None => 0%Z end.

Definition msPerDay : Z := 86400000.

(** What the handlers take from their surroundings: the clock, the local
    time zone and the platform's date parser, which yields a time value in
    milliseconds or NaN ([None], an Invalid Date).

    The zone is given the way the platform uses it, in milliseconds east
    of UTC: [offset_at t] is the offset in force at the instant [t], by
    which a time value is turned into local time, and [offset_of_local t]
    the offset the platform takes for the local time [t] when it turns it
    back into a time value. The two differ around a change of the clocks. *)
Record env : Type := {
  now : Z;
  offset_at : Z -> Z;
  offset_of_local : Z -> Z;
  Date_parse : str -> option Z
}.

(** A zone that keeps one offset, given in minutes, all year. *)
Definition fixed_zone (minutes : Z) : Z -> Z := fun _ => (minutes * 60000)%Z.

(** [const today = new Date(); today.setHours(0,0,0,0)]: the local time of
    now, the start of its day, and the time value of that local time. *)
Definition today_midnight (e : env) : Z :=
  let t := (now e + offset_at e (now e))%Z in
  let midnight := ((t / msPerDay) * msPerDay)%Z in
  (midnight - offset_of_local e midnight)%Z.

(** [a < b] on time values, false as soon as one is NaN. *)
Definition date_lt (a : option Z) (b : Z) : bool :=
  match a with Some t => (t <? b)%Z | None => false end.

(** [Math.ceil((a - b) / (1000 * 60 * 60 * 24))], NaN when [a] is. *)
Definition days_between (a : option Z) (b : Z) : option Z :=
  match a with
  | Some t => Some (- ((- (t - b)) / msPerDay))%Z
  | None => None
  end.

(** [x < n] on a number that may be NaN. *)
Definition num_lt (x : option Z) (n : Z) : bool :=
  match x with Some v => (v <? n)%Z | None => false end.

(** *** The date-only form [YYYY-MM-DD]

    The value a date input submits. The platform reads it as midnight UTC
    of that day. [iso_date_parse] covers this form only and answers NaN for
    anything else. *)

Definition days_from_civil (y m d : Z) : Z :=
  let y' := if (m <=? 2)%Z then (y - 1)%Z else y in
  let era := (y' / 400)%Z in
  let yoe := (y' - era * 400)%Z in
  let mp := ((m + 9) mod 12)%Z in
  let doy := ((153 * mp + 2) / 5 + d - 1)%Z in
  let doe := (yoe * 365 + yoe / 4 - yoe / 100 + doy)%Z in
  (era * 146097 + doe - 719468)%Z.

Definition is_leap (y : Z) : bool :=
  ((y mod 4 =? 0) && (negb (y mod 100 =? 0) || (y mod 400 =? 0)))%Z.

Definition days_in_month (y m : Z) : Z :=
  if (m =? 2)%Z then (if is_leap y then 29 else 28)%Z
  else if ((m =? 4) || (m =? 6) || (m =? 9) || (m =? 11))%Z then 30%Z
  else 31%Z.

Definition iso_date_parse (s : str) : option Z :=
  match s with
  | [y1; y2; y3; y4; h1; m1; m2; h2; d1; d2] =>
      if forallb is_digit [y1; y2; y3; y4; m1; m2; d1; d2]
         && (h1 =? ch "-")%N && (h2 =? ch "-")%N
      then
        let y := digits_val [y1; y2; y3; y4] in
        let m := digits_val [m1; m2] in
        let d := digits_val [d1; d2] in
        if ((1 <=? m) && (m <=? 12) && (1 <=? d) && (d <=? days_in_month y m))%Z
        then Some (days_from_civil y m d * msPerDay)%Z
        else None
      else None
  | _ => None
  end.

End Platform.

(** ** Notification widget *)

Module Notifier.

Import Js.

(** The estimate of a catering enquiry. *)
Record quote : Type := { costPerPerson : Z; totalCost : Z }.

(** The values the catering confirmation template is filled with; the
    template text itself and the locale formatting of numbers and dates are
    left to the platform. *)
Record summary : Type := {
  s_name : str;
  s_eventType : str;
  s_guests : Z;
  s_date : option Z;
  s_quote : quote;
  s_email : str;
  s_phone : str;
  s_special : bool
}.

Inductive content : Type :=
| Html (s : str)
| CateringSummary (s : summary).

(** The argument of [showNotification]; an absent property is [None]. *)
Record options : Type := {
  title : str;
  message : content;
  type : option str;
  duration : option Z;
  items : option (list str)       (* the property [list] *)
}.

Definition type_of (o : options) : str :=
  match type o with Some t => t | None => lit "success" end.

Definition duration_of (o : options) : Z :=
  match duration o with Some d => d | None => 5000%Z end.

(** Callbacks handed to [setTimeout]; each closes over the container and
    the notification element of one call of [showNotification]. *)
Inductive callback : Type :=
| AutoDismiss (c n : nat)
| Removal (c n : nat).

Record timer : Type := { due : Z; cb : callback }.

(** The part of the page the widget touches. DOM nodes are numbered in
    order of creation. *)
Record page : Type := {
  clock : Z;                      (* current time, ms *)
  attached : option nat;          (* the .notification-container in the body *)
  children : nat -> list nat;     (* notifications of each container, in order *)
  shown : list nat;               (* notifications carrying the class show *)
  frames : list nat;              (* pending animation-frame callbacks *)
  timers : list timer;            (* pending timeouts, in order of creation *)
  created : list (nat * nat);     (* close buttons: container, notification *)
  rendered : list (nat * options);(* what each notification displays *)
  next_node : nat
}.

Definition empty_page (t : Z) : page :=
  {| clock := t; attached := None; children := fun _ => []; shown := [];
     frames := []; timers := []; created := []; rendered := [];
     next_node := 0 |}.

Definition memb (n : nat) (l : list nat) : bool := existsb (Nat.eqb n) l.

Definition without (n : nat) (l : list nat) : list nat :=
  filter (fun m => negb (Nat.eqb n m)) l.

Definition set_children (c : nat) (l : list nat) (s : page) : page :=
  {| clock := clock s; attached := attached s;
     children := fun c' => if Nat.eqb c' c then l else children s c';
     shown := shown s; frames := frames s; timers := timers s;
     created := created s; rendered := rendered s;
     next_node := next_node s |}.

Definition set_attached (a : option nat) (s : page) : page :=
  {| clock := clock s; attached := a; children := children s;
     shown := shown s; frames := frames s; timers := timers s;
     created := created s; rendered := rendered s;
     next_node := next_node s |}.

Definition set_shown (l : list nat) (s : page) : page :=
  {| clock := clock s; attached := attached s; children := children s;
     shown := l; frames := frames s; timers := timers s;
     created := created s; rendered := rendered s;
     next_node := next_node s |}.

Definition set_timers (l : list timer) (s : page) : page :=
  {| clock := clock s; attached := attached s; children := children s;
     shown := shown s; frames := frames s; timers := l;
     created := created s; rendered := rendered s;
     next_node := next_node s |}.

Definition set_clock (t : Z) (s : page) : page :=
  {| clock := t; attached := attached s; children := children s;
     shown := shown s; frames := frames s; timers := timers s;
     created := created s; rendered := rendered s;
     next_node := next_node s |}.

(** [document.createElement]: a new node without children. *)
Definition createElement (s : page) : nat * page :=
  let n := next_node s in
  (n, {| clock := clock s; attached := attached s;
         children := fun c' => if Nat.eqb c' n then [] else children s c';
         shown := shown s; frames := frames s; timers := timers s;
         created := created s; rendered := rendered s;
         next_node := S n |}).

(** The delay of [setTimeout] is a 32-bit signed integer, and a negative
    one counts as zero. *)
Definition to_int32 (d : Z) : Z := ((d + 2 ^ 31) mod 2 ^ 32 - 2 ^ 31)%Z.

Definition setTimeout (f : callback) (d : Z) (s : page) : page :=
  set_timers
    (timers s ++ [{| due := (clock s + Z.max 0 (to_int32 d))%Z; cb := f |}]) s.

(** The click listener of the close button. *)
Definition close_click (c n : nat) (s : page) : page :=
  setTimeout (Removal c n) 300 (set_shown (without n (shown s)) s).

(** The callback of the close listener, 300 ms later. [removeChild] throws
    when the node is not a child; the callback stops there and the page is
    left as it is. *)
Definition removal (c n : nat) (s : page) : page :=
  if memb n (children s c) then
    let s1 := set_children c (without n (children s c)) s in
    match children s1 c with
    | [] =>
        match attached s1 with
        | Some a => if Nat.eqb a c then set_attached None s1 else s1
        | None => s1
        end
    | _ :: _ => s1
    end
  else s.

(** The auto-dismiss callback: [if (notification.parentNode) closeBtn.click()]. *)
Definition auto_dismiss (c n : nat) (s : page) : page :=
  if memb n (children s c) then close_click c n s else s.

Definition run_callback (f : callback) (s : page) : page :=
  match f with
  | AutoDismiss c n => auto_dismiss c n s
  | Removal c n => removal c n s
  end.

(** [container.appendChild(n)] *)
Definition appendChild (c n : nat) (s : page) : page :=
  set_children c (children s c ++ [n]) s.

(** Class name, inner HTML and close listener of the new notification. *)
Definition render (c n : nat) (o : options) (s : page) : page :=
  {| clock := clock s; attached := attached s; children := children s;
     shown := shown s; frames := frames s; timers := timers s;
     created := created s ++ [(c, n)]; rendered := rendered s ++ [(n, o)];
     next_node := next_node s |}.

(** [requestAnimationFrame(() => n.classList.add('show'))] *)
Definition requestAnimationFrame (n : nat) (s : page) : page :=
  {| clock := clock s; attached := attached s; children := children s;
     shown := shown s; frames := frames s ++ [n]; timers := timers s;
     created := created s; rendered := rendered s;
     next_node := next_node s |}.

Definition showNotification (o : options) (s : page) : nat * page :=
  let '(c, s1) :=
    match attached s with
    | Some c => (c, s)
    | None => let '(c, s') := createElement s in (c, set_attached (Some c) s')
    end in
  let '(n, s2) := createElement s1 in
  let s3 := requestAnimationFrame n (appendChild c n (render c n o s2)) in
  let s4 :=
    if negb (str_eqb (type_of o) (lit "error"))
    then setTimeout (AutoDismiss c n) (duration_of o) s3
    else s3 in
  (n, s4).

(** [n] is displayed: it is a child of the container attached to the body. *)
Definition in_document (n : nat) (s : page) : bool :=
  match attached s with
  | Some c => memb n (children s c)
  | None => false
  end.

(** *** The event loop, in virtual time

    A timer fires when the clock has reached its due time, and the clock
    does not move past a pending timer. *)

Inductive event : Type :=
| Tick (t : Z)                 (* time passes until [t] *)
| Fire (i : nat)               (* the [i]-th pending timer fires *)
| Frame                        (* an animation frame *)
| Show (o : options)           (* some caller shows a notification *)
| Click (c n : nat).           (* the user presses a close button *)

Fixpoint drop_nth {A} (i : nat) (l : list A) : list A :=
  match l, i with
  | [], _ => []
  | _ :: l', O => l'
  | x :: l', S i' => x :: drop_nth i' l'
  end.

Definition pair_eqb (p q : nat * nat) : bool :=
  Nat.eqb (fst p) (fst q) && Nat.eqb (snd p) (snd q).

(** The pending animation-frame callbacks run: each adds the class. *)
Definition run_frames (s : page) : page :=
  {| clock := clock s; attached := attached s; children := children s;
     shown := fold_left (fun l n => if memb n l then l else l ++ [n])
                (frames s) (shown s);
     frames := []; timers := timers s; created := created s;
     rendered := rendered s; next_node := next_node s |}.

Definition do_event (ev : event) (s : page) : option page :=
  match ev with
  | Tick t =>
      if (clock s <=? t)%Z && forallb (fun tm => (t <=? due tm)%Z) (timers s)
      then Some (set_clock t s) else None
  | Fire i =>
      match nth_error (timers s) i with
      | Some tm =>
          if (due tm <=? clock s)%Z
          then Some (run_callback (cb tm) (set_timers (drop_nth i (timers s)) s))
          else None
      | None => None
      end
  | Frame => Some (run_frames s)
  | Show o => Some (snd (showNotification o s))
  | Click c n =>
      if existsb (pair_eqb (c, n)) (created s)
      then Some (close_click c n s) else None
  end.

Fixpoint run (evs : list event) (s : page) : option page :=
  match evs with
  | [] => Some s
  | ev :: evs' =>
      match do_event ev s with
      | Some s' => run evs' s'
      | None => None
      end
  end.

(** No press of the close button of [n] among the events. *)
Definition no_click (n : nat) (evs : list event) : bool :=
  forallb (fun ev => match ev with Click _ m => negb (Nat.eqb m n) | _ => true end) evs.

End Notifier.

(** ** The two submit handlers *)

Module Forms.

Import Js Platform Notifier.

(** *** Reading the fields *)

(** An element of the page, with the [value] the controls of a form have:
    a string, or [None] when the element has no such property. Elements
    whose [value] is a number are the subject of [Untyped]. *)
Record element : Type := { value : option str }.

(** [document.getElementById]: [None] is [null]. *)
Definition document : Type := str -> option element.

(** [(document.getElementById(id) || {}).value] *)
Definition value_of (doc : document) (id : str) : option str :=
  match doc id with
  | Some el => value el
  | None => None
  end.

(** [v?.trim()] *)
Definition opt_trim (v : option str) : option str := option_map trim v.

(** [v || dflt], where [undefined] and the empty string are falsy. *)
Definition or_str (v : option str) (dflt : str) : str :=
  match v with
  | Some s => if truthy s then s else dflt
  | None => dflt
  end.

Definition field_trim (doc : document) (id : string) : str :=
  or_str (opt_trim (value_of doc (lit id))) [].

Definition field (doc : document) (id : string) : str :=
  or_str (value_of doc (lit id)) [].

(** *** Patterns *)

Definition not_space_at (c : N) : bool :=
  negb (is_space c || (c =? ch "@")%N).

(** [/^[^\s@]+@[^\s@]+\.[^\s@]+$/] *)
Definition emailPattern : Re.re :=
  Re.Cat (Re.Plus (Re.Cls not_space_at))
    (Re.Cat (Re.Chr (ch "@"))
       (Re.Cat (Re.Plus (Re.Cls not_space_at))
          (Re.Cat (Re.Chr (ch ".")) (Re.Plus (Re.Cls not_space_at))))).

Definition phone_char (c : N) : bool :=
  is_digit c || is_space c
  || (c =? ch "-")%N || (c =? ch "(")%N || (c =? ch ")")%N || (c =? ch "+")%N.

(** [/^[\d\s\-\(\)\+]{10,15}$/] *)
Definition phonePattern : Re.re := Re.Range 10 15 (Re.Cls phone_char).

(** *** Messages *)

(** A message of the error list: a bullet, then the text. *)
Definition bulleted (s : string) : str := 8226%N :: lit s.

Definition err_name : str :=
  bulleted " Name must be at least 2 characters long".
Definition err_email : str :=
  bulleted " Please enter a valid email address".
Definition err_phone_contact : str :=
  bulleted " Phone number must be 10-15 digits".
Definition err_subject : str :=
  bulleted " Please select a subject for your message".
Definition err_message : str :=
  bulleted " Message must be at least 10 characters long".
Definition err_phone_catering : str :=
  bulleted " Please enter a valid phone number (10-15 digits)".
Definition err_event : str :=
  bulleted " Please select an event type".
Definition err_guests : str :=
  bulleted " Number of guests must be between 10 and 500".
Definition err_date_required : str :=
  bulleted " Please select a preferred date for your event".
Definition err_date_past : str :=
  bulleted " Please select a future date for your event".
Definition advice_week : str :=
  bulleted " We recommend booking at least 7 days in advance".

(** *** Validation state: the variables [isValid] and [errors] *)

Record validation : Type := { isValid : bool; errors : list str }.

Definition start : validation := {| isValid := true; errors := [] |}.

(** [errors.push(m); isValid = false] *)
Definition fail (m : str) (v : validation) : validation :=
  {| isValid := false; errors := errors v ++ [m] |}.

(** [errors.push(m)] alone *)
Definition push (m : str) (v : validation) : validation :=
  {| isValid := isValid v; errors := errors v ++ [m] |}.

(** *** What a handler does to its surroundings *)

Inductive effect : Type :=
| PreventDefault
| Notify (o : options)
| Mailto (recipient subject body : str)
| Reset.

(** A handler runs to its end, or stops at an exception. *)
Inductive outcome : Type :=
| Completed (effs : list effect)
| Threw (effs : list effect).

Definition error_notification (errs : list str) : options :=
  {| title := 10060%N :: lit " Form Validation Error";
     message := Html (lit "Please correct the following errors:");
     type := Some (lit "error");
     items := Some errs;
     duration := Some 0%Z |}.

(** *** Contact form *)

Record contact_fields : Type := {
  c_name : str;
  c_email : str;
  c_phone : str;
  c_location : str;
  c_subject : str;
  c_message : str
}.

Definition read_contact (doc : document) : contact_fields :=
  {| c_name := field_trim doc "contact-name";
     c_email := field_trim doc "contact-email";
     c_phone := field_trim doc "contact-phone";
     c_location := field doc "contact-location";
     c_subject := field doc "contact-subject";
     c_message := field_trim doc "contact-message" |}.

Definition validate_contact (f : contact_fields) : validation :=
  let v := start in
  let v := if (length (c_name f) <? 2)%nat then fail err_name v else v in
  let v := if negb (Re.test emailPattern (c_email f))
           then fail err_email v else v in
  let v := if truthy (c_phone f)
           then if negb (Re.test phonePattern (c_phone f))
                then fail err_phone_contact v else v
           else v in
  let v := if negb (truthy (c_subject f)) then fail err_subject v else v in
  let v := if (length (c_message f) <? 10)%nat
           then fail err_message v else v in
  v.

Definition is_high (c : N) : bool := ((55296 <=? c) && (c <=? 56319))%N.
Definition is_low (c : N) : bool := ((56320 <=? c) && (c <=? 57343))%N.

(** [encodeURIComponent] throws a URIError on a lone surrogate. *)
Fixpoint well_formed (s : str) : bool :=
  match s with
  | [] => true
  | c :: s' =>
      if is_high c then
        match s' with
        | d :: s'' => is_low d && well_formed s''
        | [] => false
        end
      else if is_low c then false
      else well_formed s'
  end.

Definition nl : str := [10%N].

Definition emailBody (f : contact_fields) : str :=
  lit "Name: " ++ c_name f ++ nl
  ++ lit "Email: " ++ c_email f ++ nl
  ++ lit "Phone: " ++ or_str (Some (c_phone f)) (lit "Not provided") ++ nl
  ++ lit "Preferred Location: "
  ++ or_str (Some (c_location f)) (lit "Not specified") ++ nl
  ++ lit "Subject: " ++ c_subject f ++ nl ++ nl
  ++ lit "Message:" ++ nl ++ c_message f.

Definition recipient : str := lit "info@coffeecorner.co.za".

Definition contact_success (f : contact_fields) : options :=
  {| title := 10003%N :: lit " Message Ready to Send";
     message :=
       Html (lit "Thank you for your message, " ++ c_name f
             ++ lit "! Your email client will open to send the message. We will respond within 24 hours.");
     type := Some (lit "success");
     items := None;
     duration := None |}.

(** The submit listener of the contact form. The mailto link is kept as
    its three parts, before percent-encoding. *)
Definition contact_submit (doc : document) : outcome :=
  let f := read_contact doc in
  let v := validate_contact f in
  if negb (isValid v) then
    Completed [PreventDefault; Notify (error_notification (errors v))]
  else
    let subject := lit "Contact Form: " ++ c_subject f in
    let body := emailBody f in
    if well_formed subject && well_formed body then
      Completed [PreventDefault; Mailto recipient subject body;
                 Notify (contact_success f); Reset]
    else Threw [PreventDefault].

(** *** Catering enquiry form *)

Record catering_fields : Type := {
  g_name : str;
  g_email : str;
  g_phone : str;
  g_eventType : str;
  g_guests : Z;
  g_date : str;
  g_specialRequests : str
}.

(** [(document.getElementById('guests') || {}).value || '0'] *)
Definition guests_text (doc : document) : str :=
  or_str (value_of doc (lit "guests")) (lit "0").

(** [guests] is [parseInt(..., 10) || 0]. *)
Definition read_catering (doc : document) : catering_fields :=
  {| g_name := field_trim doc "name";
     g_email := field_trim doc "email";
     g_phone := field_trim doc "phone";
     g_eventType := field doc "event-type";
     g_guests := num_or_zero (parseInt (guests_text doc));
     g_date := field doc "date";
     g_specialRequests := field_trim doc "message" |}.

(** The branch taken when a date was given. *)
Definition check_date (e : env) (date : str) (v : validation) : validation :=
  let selectedDate := Date_parse e date in
  let today := today_midnight e in
  let v := if date_lt selectedDate today then fail err_date_past v else v in
  let daysUntilEvent := days_between selectedDate today in
  if num_lt daysUntilEvent 7 then push advice_week v else v.

Definition validate_catering (e : env) (f : catering_fields) : validation :=
  let v := start in
  let v := if (length (g_name f) <? 2)%nat then fail err_name v else v in
  let v := if negb (Re.test emailPattern (g_email f))
           then fail err_email v else v in
  let v := if negb (Re.test phonePattern (g_phone f))
           then fail err_phone_catering v else v in
  let v := if negb (truthy (g_eventType f)) then fail err_event v else v in
  let v := if (g_guests f =? 0)%Z || (g_guests f <? 10)%Z
              || (500 <? g_guests f)%Z
           then fail err_guests v else v in
  let v := if negb (truthy (g_date f)) then fail err_date_required v
           else check_date e (g_date f) v in
  v.

Definition cateringQuote (eventType : str) (guests : Z) : quote :=
  let costPerPerson :=
    if str_eqb eventType (lit "wedding") then 250%Z
    else if str_eqb eventType (lit "corporate") then 180%Z
    else 150%Z in
  {| costPerPerson := costPerPerson;
     totalCost := (guests * costPerPerson)%Z |}.

Definition catering_success (e : env) (f : catering_fields) : options :=
  {| title := 10003%N :: lit " Catering Enquiry Confirmed";
     message :=
       CateringSummary
         {| s_name := g_name f;
            s_eventType := g_eventType f;
            s_guests := g_guests f;
            s_date := Date_parse e (g_date f);
            s_quote := cateringQuote (g_eventType f) (g_guests f);
            s_email := g_email f;
            s_phone := g_phone f;
            s_special := truthy (g_specialRequests f) |};
     type := Some (lit "success");
     items := None;
     duration := Some 10000%Z |}.

(** The submit listener of the catering form. *)
Definition catering_submit (e : env) (doc : document) : outcome :=
  let f := read_catering doc in
  let v := validate_catering e f in
  if negb (isValid v) then
    Completed [PreventDefault; Notify (error_notification (errors v))]
  else
    Completed [PreventDefault; Notify (catering_success e f); Reset].

(** *** Building pages for examples *)

(** A page whose elements are the listed ones, each with a string value. *)
Fixpoint page_with (l : list (string * string)) : document :=
  match l with
  | [] => fun _ => None
  | (id, v) :: l' =>
      fun i => if str_eqb i (lit id) then Some {| value := Some (lit v) |}
               else page_with l' i
  end.

End Forms.

(** ** Notions the properties are stated with *)

Module Spec.

Import Js Platform Notifier Forms.

(** The two forms of the site. *)
Inductive form : Type := ContactForm | CateringForm.

(** The validation a submission of a form goes through. *)
Definition validate (e : env) (fm : form) (doc : document) : validation :=
  match fm with
  | ContactForm => validate_contact (read_contact doc)
  | CateringForm => validate_catering e (read_catering doc)
  end.

Definition submit (e : env) (fm : form) (doc : document) : outcome :=
  match fm with
  | ContactForm => contact_submit doc
  | CateringForm => catering_submit e doc
  end.

(** The shape local@domain.tld: three non-empty parts, no white space
    anywhere, and one [@] in all. *)
Definition email_shape (s : str) : Prop :=
  exists local domain tld,
    s = local ++ [ch "@"] ++ domain ++ [ch "."] ++ tld /\
    local <> [] /\ domain <> [] /\ tld <> [] /\
    Forall (fun c => is_space c = false) s /\
    count_occ N.eq_dec s (ch "@") = 1%nat.

(** 10 to 15 characters, each a digit, white space, a hyphen, a parenthesis
    or a plus sign. *)
Definition phone_shape (s : str) : Prop :=
  (10 <= length s <= 15)%nat /\
  Forall (fun c => is_digit c = true \/ is_space c = true \/ c = ch "-"
                   \/ c = ch "(" \/ c = ch ")" \/ c = ch "+") s.

(** The messages one rule contributes: [m] when the rule fails. *)
Definition when (failed : bool) (m : str) : list str :=
  if failed then [m] else [].

(** What the date rule adds to the list. *)
Definition date_errors (e : env) (date : str) : list str :=
  if negb (truthy date) then [err_date_required]
  else
    when (date_lt (Date_parse e date) (today_midnight e)) err_date_past
    ++ when (num_lt (days_between (Date_parse e date) (today_midnight e)) 7)
         advice_week.

Definition date_fails (e : env) (date : str) : bool :=
  if negb (truthy date) then true
  else date_lt (Date_parse e date) (today_midnight e).

(** The date rule is passed: neither of its two messages is listed. *)
Definition date_rule_passes (v : validation) : Prop :=
  ~ In err_date_required (errors v) /\ ~ In err_date_past (errors v).

(** Every message of the list is the booking advice. *)
Definition only_advice (l : list str) : bool :=
  forallb (fun m => str_eqb m advice_week) l.

(** The quote a handler outcome carries, when it confirms an enquiry. *)
Definition quote_of (o : outcome) : option quote :=
  match o with
  | Completed [PreventDefault; Notify n; Reset] =>
      match message n with
      | CateringSummary sm => Some (s_quote sm)
      | Html _ => None
      end
  | _ => None
  end.

(** The element [id] is missing from the page, or has no value. *)
Definition no_value (doc : document) (id : str) : Prop :=
  doc id = None \/ exists el, doc id = Some el /\ value el = None.

(** A page on which no element has a value. *)
Definition all_missing (doc : document) : Prop :=
  forall id, no_value doc id.

(** *** Pages of the notification widget *)

Definition node_of (f : callback) : nat :=
  match f with AutoDismiss _ n | Removal _ n => n end.

(** No timer is overdue. *)
Definition timely (s : page) : bool :=
  forallb (fun tm => (clock s <=? due tm)%Z) (timers s).

(** Every callback due by now has run. *)
Definition settled (s : page) : bool :=
  forallb (fun tm => (clock s <? due tm)%Z) (timers s).

(** Nodes are numbered below [next_node], and no timer is overdue. *)
Definition well_formed_page (s : page) : bool :=
  timely s
  && forallb (fun tm => (node_of (cb tm) <? next_node s)%nat) (timers s)
  && forallb (fun c => forallb (fun m => (m <? next_node s)%nat) (children s c))
       (seq 0 (next_node s))
  && match attached s with
     | Some a => (a <? next_node s)%nat
     | None => true
     end.

(** The callbacks a pending timer can still cause to run, itself included:
    an auto-dismiss may schedule a removal. *)
Definition weight (tm : timer) : nat :=
  match cb tm with
  | AutoDismiss _ _ => 2
  | Removal _ _ => 1
  end.

Definition pending_work (s : page) : nat :=
  fold_right (fun tm k => weight tm + k)%nat 0%nat (timers s).

(** The exit of [n] has begun: its removal is scheduled. *)
Definition closing (n : nat) (s : page) : bool :=
  existsb (fun tm => match cb tm with
                     | Removal _ m => Nat.eqb m n
                     | AutoDismiss _ _ => false
                     end) (timers s).

(** What [showNotification] leaves behind. *)
Definition dismiss_timers (o : options) (c n : nat) (t : Z) : list timer :=
  if negb (str_eqb (type_of o) (lit "error"))
  then [{| due := (t + Z.max 0 (to_int32 (duration_of o)))%Z;
           cb := AutoDismiss c n |}]
  else [].

(** The event is about [n]: a press of its close button, or one of its
    timers firing. *)
Definition about (n : nat) (ev : event) (s : page) : bool :=
  match ev with
  | Click _ m => Nat.eqb m n
  | Fire i =>
      match nth_error (timers s) i with
      | Some tm => Nat.eqb (node_of (cb tm)) n
      | None => false
      end
  | _ => false
  end.

(** What holds of a notification [n] of container [c] throughout its life:
    it sits in no other container, and the timers about it are its own. *)
Definition tracked (c n : nat) (own : list timer) (s : page) : Prop :=
  timely s = true /\
  (n < next_node s)%nat /\ (c < next_node s)%nat /\
  (forall c', (c' < next_node s)%nat -> c' <> c -> ~ In n (children s c')) /\
  (forall tm, In tm (timers s) -> node_of (cb tm) = n -> In tm own) /\
  (forall a, attached s = Some a -> (a < next_node s)%nat).

(** What an event that is not about [n] keeps of it: time does not go
    back, [n] stays displayed if it was and stays away if it was removed,
    and its timers are the same. *)
Definition kept (c n : nat) (s s' : page) : Prop :=
  (clock s <= clock s')%Z /\
  (In n (children s c) -> attached s = Some c ->
   In n (children s' c) /\ attached s' = Some c) /\
  (~ In n (children s c) -> ~ In n (children s' c)) /\
  (forall tm, node_of (cb tm) = n ->
              (In tm (timers s') <-> In tm (timers s))).

Definition dismiss_timer (c n : nat) (t : Z) : timer :=
  {| due := t; cb := AutoDismiss c n |}.

Definition removal_timer (c n : nat) (t : Z) : timer :=
  {| due := (t + 300)%Z; cb := Removal c n |}.

(** The three stages of a notification that is dismissed at time [t]. *)
Definition waiting (c n : nat) (t : Z) (s : page) : Prop :=
  In n (children s c) /\ attached s = Some c /\
  In (dismiss_timer c n t) (timers s) /\
  ~ In (removal_timer c n t) (timers s).

Definition leaving (c n : nat) (t : Z) (s : page) : Prop :=
  (t <= clock s)%Z /\ In n (children s c) /\ attached s = Some c /\
  In (removal_timer c n t) (timers s).

Definition gone (c n : nat) (t : Z) (s : page) : Prop :=
  (t + 300 <= clock s)%Z /\ ~ In n (children s c).

Definition lifecycle (c n : nat) (t : Z) (s : page) : Prop :=
  tracked c n [dismiss_timer c n t; removal_timer c n t] s /\
  (waiting c n t s \/ leaving c n t s \/ gone c n t s).

(** A notification nothing will dismiss. *)
Definition persistent (c n : nat) (s : page) : Prop :=
  tracked c n [] s /\ In n (children s c) /\ attached s = Some c.

End Spec.

(** ** The handlers on pages whose elements hold any value

    [Forms] takes the value of an element to be a string or absent, as it
    is for the controls of a form. The [value] of an [li], a [meter] or a
    [progress] element is a number. Here the two handlers are read again,
    line by line, for pages on which an element may hold either; on the
    pages of [Forms] they are the handlers of [Forms]. *)

Module Untyped.

Import Js Platform Notifier.

(** A number, as far as the handlers can tell one from another: whether it
    is truthy (neither zero nor NaN), the string it converts to, and the
    time value of the date made from it (NaN, here [None], out of the
    range of dates). *)
Record number : Type := {
  num_truthy : bool;
  num_text : str;
  num_time : option Z
}.

(** The value of a property: [undefined] or [null], a string, or a
    number. *)
Inductive jsval : Type :=
| Nullish
| Str (s : str)
| Num (x : number).

Record element : Type := { value : jsval }.

(** [document.getElementById]: [None] is [null]. *)
Definition document : Type := str -> option element.

(** [(document.getElementById(id) || {}).value] *)
Definition value_of (doc : document) (id : str) : jsval :=
  match doc id with
  | Some el => value el
  | None => Nullish
  end.

(** An expression yields a value, or stops at a TypeError. *)
Inductive read (A : Type) : Type :=
| Got (a : A)
| TypeError.

Arguments Got {A} a.
Arguments TypeError {A}.

Definition bind {A B : Type} (r : read A) (k : A -> read B) : read B :=
  match r with
  | Got a => k a
  | TypeError => TypeError
  end.

(** [v?.trim() || '']: nothing is asked of [undefined] or [null]; a number
    has no property [trim], and the call of what is not a function
    throws. *)
Definition trimmed (v : jsval) : read str :=
  match v with
  | Nullish => Got []
  | Str s => Got (Forms.or_str (Some (trim s)) [])
  | Num _ => TypeError
  end.

Definition field_trim (doc : document) (id : string) : read str :=
  trimmed (value_of doc (lit id)).

(** What [v || dflt] leaves in a variable: a string, or a number. *)
Inductive given : Type :=
| Text (s : str)
| Number (x : number).

(** [v || dflt], for a string [dflt] *)
Definition or_text (v : jsval) (dflt : str) : given :=
  match v with
  | Nullish => Text dflt
  | Str s => if truthy s then Text s else Text dflt
  | Num x => if num_truthy x then Number x else Text dflt
  end.

Definition field (doc : document) (id : string) : given :=
  or_text (value_of doc (lit id)) [].

Definition truthy_given (g : given) : bool :=
  match g with
  | Text s => truthy s
  | Number x => num_truthy x
  end.

(** Conversion to a string, in a template literal, next to a string under
    [+], and in the argument of [parseInt]. *)
Definition to_text (g : given) : str :=
  match g with
  | Text s => s
  | Number x => num_text x
  end.

(** *** Contact form *)

Record contact_values : Type := {
  v_name : str;
  v_email : str;
  v_phone : str;
  v_location : given;
  v_subject : given;
  v_message : str
}.

(** Lines 119 to 124. *)
Definition read_contact (doc : document) : read contact_values :=
  bind (field_trim doc "contact-name") (fun name =>
  bind (field_trim doc "contact-email") (fun email =>
  bind (field_trim doc "contact-phone") (fun phone =>
  let location := field doc "contact-location" in
  let subject := field doc "contact-subject" in
  bind (field_trim doc "contact-message") (fun message =>
  Got {| v_name := name; v_email := email; v_phone := phone;
         v_location := location; v_subject := subject;
         v_message := message |})))).

Definition validate_contact (f : contact_values) : Forms.validation :=
  let v := Forms.start in
  let v := if (length (v_name f) <? 2)%nat
           then Forms.fail Forms.err_name v else v in
  let v := if negb (Re.test Forms.emailPattern (v_email f))
           then Forms.fail Forms.err_email v else v in
  let v := if truthy (v_phone f)
           then if negb (Re.test Forms.phonePattern (v_phone f))
                then Forms.fail Forms.err_phone_contact v else v
           else v in
  let v := if negb (truthy_given (v_subject f))
           then Forms.fail Forms.err_subject v else v in
  let v := if (length (v_message f) <? 10)%nat
           then Forms.fail Forms.err_message v else v in
  v.

Definition emailBody (f : contact_values) : str :=
  lit "Name: " ++ v_name f ++ Forms.nl
  ++ lit "Email: " ++ v_email f ++ Forms.nl
  ++ lit "Phone: " ++ Forms.or_str (Some (v_phone f)) (lit "Not provided")
  ++ Forms.nl
  ++ lit "Preferred Location: "
  ++ (if truthy_given (v_location f) then to_text (v_location f)
      else lit "Not specified")
  ++ Forms.nl
  ++ lit "Subject: " ++ to_text (v_subject f) ++ Forms.nl ++ Forms.nl
  ++ lit "Message:" ++ Forms.nl ++ v_message f.

Definition contact_success (name : str) : options :=
  {| title := 10003%N :: lit " Message Ready to Send";
     message :=
       Html (lit "Thank you for your message, " ++ name
             ++ lit "! Your email client will open to send the message. We will respond within 24 hours.");
     type := Some (lit "success");
     items := None;
     duration := None |}.

(** The submit listener of the contact form. An exception in a read ends
    the listener where only the browser's submission has been cancelled. *)
Definition contact_submit (doc : document) : Forms.outcome :=
  match read_contact doc with
  | TypeError => Forms.Threw [Forms.PreventDefault]
  | Got f =>
      let v := validate_contact f in
      if negb (Forms.isValid v) then
        Forms.Completed
          [Forms.PreventDefault;
           Forms.Notify (Forms.error_notification (Forms.errors v))]
      else
        let subject := lit "Contact Form: " ++ to_text (v_subject f) in
        let body := emailBody f in
        if Forms.well_formed subject && Forms.well_formed body then
          Forms.Completed
            [Forms.PreventDefault; Forms.Mailto Forms.recipient subject body;
             Forms.Notify (contact_success (v_name f)); Forms.Reset]
        else Forms.Threw [Forms.PreventDefault]
  end.

(** *** Catering enquiry form *)

Record catering_values : Type := {
  w_name : str;
  w_email : str;
  w_phone : str;
  w_eventType : given;
  w_guests : Z;
  w_date : given;
  w_specialRequests : str
}.

(** [parseInt(v || '0', 10) || 0] *)
Definition guests_of (v : jsval) : Z :=
  num_or_zero (parseInt (to_text (or_text v (lit "0")))).

(** Lines 165 to 171. *)
Definition read_catering (doc : document) : read catering_values :=
  bind (field_trim doc "name") (fun name =>
  bind (field_trim doc "email") (fun email =>
  bind (field_trim doc "phone") (fun phone =>
  let eventType := field doc "event-type" in
  let guests := guests_of (value_of doc (lit "guests")) in
  let date := field doc "date" in
  bind (field_trim doc "message") (fun specialRequests =>
  Got {| w_name := name; w_email := email; w_phone := phone;
         w_eventType := eventType; w_guests := guests; w_date := date;
         w_specialRequests := specialRequests |})))).

(** [new Date(date)]: a string is parsed, a number is the time value. *)
Definition date_of (e : env) (date : given) : option Z :=
  match date with
  | Text s => Date_parse e s
  | Number x => num_time x
  end.

(** The branch taken when a date was given. *)
Definition check_date (e : env) (date : given) (v : Forms.validation)
    : Forms.validation :=
  let selectedDate := date_of e date in
  let today := today_midnight e in
  let v := if date_lt selectedDate today
           then Forms.fail Forms.err_date_past v else v in
  let daysUntilEvent := days_between selectedDate today in
  if num_lt daysUntilEvent 7 then Forms.push Forms.advice_week v else v.

Definition validate_catering (e : env) (f : catering_values)
    : Forms.validation :=
  let v := Forms.start in
  let v := if (length (w_name f) <? 2)%nat
           then Forms.fail Forms.err_name v else v in
  let v := if negb (Re.test Forms.emailPattern (w_email f))
           then Forms.fail Forms.err_email v else v in
  let v := if negb (Re.test Forms.phonePattern (w_phone f))
           then Forms.fail Forms.err_phone_catering v else v in
  let v := if negb (truthy_given (w_eventType f))
           then Forms.fail Forms.err_event v else v in
  let v := if (w_guests f =? 0)%Z || (w_guests f <? 10)%Z
              || (500 <? w_guests f)%Z
           then Forms.fail Forms.err_guests v else v in
  let v := if negb (truthy_given (w_date f))
           then Forms.fail Forms.err_date_required v
           else check_date e (w_date f) v in
  v.

(** [eventType === name]: a number is equal to no string. *)
Definition is_type (eventType : given) (name : string) : bool :=
  match eventType with
  | Text s => str_eqb s (lit name)
  | Number _ => false
  end.

Definition cateringQuote (eventType : given) (guests : Z) : quote :=
  let costPerPerson :=
    if is_type eventType "wedding" then 250%Z
    else if is_type eventType "corporate" then 180%Z
    else 150%Z in
  {| costPerPerson := costPerPerson;
     totalCost := (guests * costPerPerson)%Z |}.

Definition catering_success (e : env) (f : catering_values)
    (eventType : str) : options :=
  {| title := 10003%N :: lit " Catering Enquiry Confirmed";
     message :=
       CateringSummary
         {| s_name := w_name f;
            s_eventType := eventType;
            s_guests := w_guests f;
            s_date := date_of e (w_date f);
            s_quote := cateringQuote (w_eventType f) (w_guests f);
            s_email := w_email f;
            s_phone := w_phone f;
            s_special := truthy (w_specialRequests f) |};
     type := Some (lit "success");
     items := None;
     duration := Some 10000%Z |}.

(** The submit listener of the catering form. The confirmation calls
    [eventType.charAt], which a number does not have: the listener then
    stops before anything is shown. *)
Definition catering_submit (e : env) (doc : document) : Forms.outcome :=
  match read_catering doc with
  | TypeError => Forms.Threw [Forms.PreventDefault]
  | Got f =>
      let v := validate_catering e f in
      if negb (Forms.isValid v) then
        Forms.Completed
          [Forms.PreventDefault;
           Forms.Notify (Forms.error_notification (Forms.errors v))]
      else
        match w_eventType f with
        | Text eventType =>
            Forms.Completed
              [Forms.PreventDefault;
               Forms.Notify (catering_success e f eventType); Forms.Reset]
        | Number _ => Forms.Threw [Forms.PreventDefault]
        end
  end.

(** *** What is said of the two handlers *)

Definition submit (e : env) (fm : Spec.form) (doc : document)
    : Forms.outcome :=
  match fm with
  | Spec.ContactForm => contact_submit doc
  | Spec.CateringForm => catering_submit e doc
  end.

(** The result of validation, when the handler gets that far. *)
Definition validated (e : env) (fm : Spec.form) (doc : document)
    : option Forms.validation :=
  match fm with
  | Spec.ContactForm =>
      match read_contact doc with
      | Got f => Some (validate_contact f)
      | TypeError => None
      end
  | Spec.CateringForm =>
      match read_catering doc with
      | Got f => Some (validate_catering e f)
      | TypeError => None
      end
  end.

(** The fields a handler reads with [trim]. *)
Definition trimmed_ids (fm : Spec.form) : list string :=
  match fm with
  | Spec.ContactForm =>
      ["contact-name"; "contact-email"; "contact-phone"; "contact-message"]
  | Spec.CateringForm => ["name"; "email"; "phone"; "message"]
  end%string.

(** The element [id] is there and its value is a number. *)
Definition holds_number (doc : document) (id : string) : Prop :=
  exists x, value_of doc (lit id) = Num x.

(** The element [id] is missing from the page, or has no value. *)
Definition no_value (doc : document) (id : string) : Prop :=
  value_of doc (lit id) = Nullish.

(** A page of [Forms], as a page of this module. *)
Definition lift (doc : Forms.document) : document :=
  fun id =>
    match doc id with
    | Some el =>
        Some {| value := match Forms.value el with
                         | Some s => Str s
                         | None => Nullish
                         end |}
    | None => None
    end.

(** The number 3. *)
Definition three : number :=
  {| num_truthy := true; num_text := lit "3"; num_time := Some 3%Z |}.

(** A page whose element [contact-name] is a list item numbered 3. *)
Definition page_li : document :=
  fun id =>
    if str_eqb id (lit "contact-name") then Some {| value := Num three |}
    else None.

End Untyped.

(** ** Sample surroundings and pages *)

Module Samples.

Import Js Platform Notifier Forms.

(** 3 November 2025, 15:00 in a zone two hours east of UTC. *)
Definition env_nov3 : env :=
  {| now := 1762174800000; offset_at := fixed_zone 120;
     offset_of_local := fixed_zone 120; Date_parse := iso_date_parse |}.

Definition page_jo : document :=
  page_with [("contact-name", "Jo"); ("contact-email", "bad");
             ("contact-subject", ""); ("contact-message", "hi")]%string.

Definition page_j : document :=
  page_with [("contact-name", "J"); ("contact-email", "bad");
             ("contact-subject", ""); ("contact-message", "hi")]%string.

(** An enquiry for a wedding of 100 guests, 30 days ahead. *)
Definition page_anna : document :=
  page_with [("name", "Anna Smith"); ("email", "a@b.com");
             ("phone", "0821234567"); ("event-type", "wedding");
             ("guests", "100"); ("date", "2025-12-03")]%string.

(** The same enquiry, two days ahead. *)
Definition page_soon : document :=
  page_with [("name", "Anna Smith"); ("email", "a@b.com");
             ("phone", "0821234567"); ("event-type", "wedding");
             ("guests", "100"); ("date", "2025-11-05")]%string.

(** The same enquiry for five guests. *)
Definition page_five : document :=
  page_with [("name", "Anna Smith"); ("email", "a@b.com");
             ("phone", "0821234567"); ("event-type", "wedding");
             ("guests", "5"); ("date", "2025-12-03")]%string.

(** A page without any of the fields. *)
Definition page_bare : document := page_with [].

(** 3 November 2025, 12:00 in a zone five hours west of UTC. *)
Definition env_west : env :=
  {| now := 1762189200000; offset_at := fixed_zone (-300);
     offset_of_local := fixed_zone (-300); Date_parse := iso_date_parse |}.

(** An enquiry for the very day, 3 November 2025. *)
Definition page_today : document :=
  page_with [("name", "Anna Smith"); ("email", "a@b.com");
             ("phone", "0821234567"); ("event-type", "wedding");
             ("guests", "100"); ("date", "2025-11-03")]%string.

(** A success notification with the default duration. *)
Definition note_success : options :=
  {| title := lit "Saved"; message := Html (lit "Done");
     type := Some (lit "success"); duration := None; items := None |}.

(** An error notification, as the handlers send it. *)
Definition note_error : options := error_notification [err_name].

(** The page after some events, or the page itself when one of them cannot
    take place. *)
Definition after (evs : list event) (s : page) : page :=
  match run evs s with
  | Some s' => s'
  | None => s
  end.

(** A fresh page on which [note_success] has just been shown. *)
Definition page_success : page :=
  Eval vm_compute in snd (showNotification note_success (empty_page 0)).

(** A fresh page on which [note_error] has just been shown. *)
Definition page_error : page :=
  Eval vm_compute in snd (showNotification note_error (empty_page 0)).

(** A frame, then time passes and each timer fires when it is due. *)
Definition five_seconds : list event :=
  [Frame; Tick 5000; Fire 0; Tick 5300; Fire 0].

(** A frame, then a long wait. *)
Definition one_day : list event := [Frame; Tick 86400000].

Definition success_before : page :=
  Eval vm_compute in after [Frame; Tick 4999] page_success.

Definition success_after : page :=
  Eval vm_compute in after five_seconds page_success.

Definition error_after : page :=
  Eval vm_compute in after one_day page_error.

(** A notification asked to stay for ten seconds. *)
Definition note_ten : options :=
  {| title := lit "Saved"; message := Html (lit "Done");
     type := Some (lit "info"); duration := Some 10000%Z; items := None |}.

Definition page_ten : page :=
  Eval vm_compute in snd (showNotification note_ten (empty_page 0)).

Definition ten_before : page :=
  Eval vm_compute in after [Frame; Tick 9999] page_ten.

Definition ten_after : page :=
  Eval vm_compute in
    after [Frame; Tick 10000; Fire 0; Tick 10300; Fire 0] page_ten.

(** A notification asked to stay for 2^32 + 200 milliseconds, some fifty
    days. *)
Definition note_far : options :=
  {| title := lit "Saved"; message := Html (lit "Done");
     type := Some (lit "success"); duration := Some 4294967496%Z;
     items := None |}.

Definition page_far : page :=
  Eval vm_compute in snd (showNotification note_far (empty_page 0)).

(** Half a second on [page_far], each timer firing when it is due. *)
Definition half_second : list event :=
  [Frame; Tick 200; Fire 0; Tick 500; Fire 0].

Definition far_after : page :=
  Eval vm_compute in after half_second page_far.

End Samples.

(** ** Gallery lightbox *)

Module Gallery.

Import Js.

(** A gallery image: its source, its alternative text, and the text of the
    first paragraph of its parent element, when there is one. *)
Record image : Type := {
  src : str;
  alt : str;
  parent_p : option str
}.

(** The lightbox and the variable [currentImageIndex]. *)
Record lightbox : Type := {
  currentImageIndex : Z;
  display : str;          (* lightbox.style.display *)
  overflow : str;         (* document.body.style.overflow *)
  img_src : str;          (* lightboxImg.src *)
  img_alt : str;          (* lightboxImg.alt *)
  caption : str           (* lightboxCaption.textContent *)
}.

(** The lightbox as it is created: no style set yet, the picture with the
    alternative text of the markup and no source, the caption empty. *)
Definition new_lightbox : lightbox :=
  {| currentImageIndex := 0; display := []; overflow := [];
     img_src := []; img_alt := lit "Gallery image"; caption := [] |}.

(** A listener runs to its end, or stops at an exception; either way it
    leaves a state behind. *)
Inductive result : Type :=
| Done (lb : lightbox)
| Raised (lb : lightbox).

(** [imagesArray[index]]: [undefined] outside the array. *)
Definition image_at (images : list image) (index : Z) : option image :=
  if (index <? 0)%Z then None else nth_error images (Z.to_nat index).

(** [img.alt || (parent has a p ? its text : '')] *)
Definition caption_of (img : image) : str :=
  if truthy (alt img) then alt img
  else match parent_p img with Some t => t | None => [] end.

(** [showLightboxImage(index)]; reading [img.src] of [undefined] throws. *)
Definition showLightboxImage (images : list image) (index : Z)
    (lb : lightbox) : result :=
  match image_at images index with
  | Some img =>
      Done {| currentImageIndex := currentImageIndex lb;
              display := display lb; overflow := overflow lb;
              img_src := src img; img_alt := alt img;
              caption := caption_of img |}
  | None => Raised lb
  end.

Definition set_index (i : Z) (lb : lightbox) : lightbox :=
  {| currentImageIndex := i; display := display lb; overflow := overflow lb;
     img_src := img_src lb; img_alt := img_alt lb; caption := caption lb |}.

Definition set_display (d o : str) (lb : lightbox) : lightbox :=
  {| currentImageIndex := currentImageIndex lb; display := d; overflow := o;
     img_src := img_src lb; img_alt := img_alt lb; caption := caption lb |}.

(** The click listener of the image at position [index]. *)
Definition image_click (images : list image) (index : nat)
    (lb : lightbox) : result :=
  let lb := set_index (Z.of_nat index) lb in
  match showLightboxImage images (currentImageIndex lb) lb with
  | Done lb => Done (set_display (lit "flex") (lit "hidden") lb)
  | Raised lb => Raised lb
  end.

(** Close button, backdrop and Escape all do this. *)
Definition close (lb : lightbox) : lightbox :=
  set_display (lit "none") (lit "auto") lb.

(** [a % b] on integers: the remainder has the sign of [a]. *)
Definition js_rem (a b : Z) : Z := Z.rem a b.

Definition prev_click (images : list image) (lb : lightbox) : result :=
  let n := Z.of_nat (length images) in
  let lb := set_index (js_rem (currentImageIndex lb - 1 + n) n) lb in
  showLightboxImage images (currentImageIndex lb) lb.

Definition next_click (images : list image) (lb : lightbox) : result :=
  let n := Z.of_nat (length images) in
  let lb := set_index (js_rem (currentImageIndex lb + 1) n) lb in
  showLightboxImage images (currentImageIndex lb) lb.

(** The [keydown] listener of the document. *)
Definition keydown (images : list image) (key : str) (lb : lightbox) : result :=
  if str_eqb (display lb) (lit "flex") then
    if str_eqb key (lit "ArrowLeft") then prev_click images lb
    else if str_eqb key (lit "ArrowRight") then next_click images lb
    else if str_eqb key (lit "Escape") then Done (close lb)
    else Done lb
  else Done lb.

Inductive gallery_event : Type :=
| ImageClick (index : nat)
| CloseClick
| LightboxClick (on_backdrop : bool)   (* e.target === lightbox, or not *)
| PrevClick
| NextClick
| KeyDown (key : str).

(** One event on a page with the images [images]. Only the images of the
    gallery have a click listener. *)
Definition gallery_step (images : list image) (ev : gallery_event)
    (lb : lightbox) : result :=
  match ev with
  | ImageClick index =>
      if (index <? length images)%nat then image_click images index lb
      else Done lb
  | CloseClick => Done (close lb)
  | LightboxClick on_backdrop => if on_backdrop then Done (close lb) else Done lb
  | PrevClick => prev_click images lb
  | NextClick => next_click images lb
  | KeyDown key => keydown images key lb
  end.

Definition state_of (r : result) : lightbox :=
  match r with Done lb | Raised lb => lb end.

Definition raised (r : result) : bool :=
  match r with Done _ => false | Raised _ => true end.

(** A sequence of events; an exception ends only the listener it occurs
    in, the page goes on with the state it left. *)
Fixpoint gallery_run (images : list image) (evs : list gallery_event)
    (lb : lightbox) : lightbox :=
  match evs with
  | [] => lb
  | ev :: evs' => gallery_run images evs' (state_of (gallery_step images ev lb))
  end.

(** Some listener of the sequence stops at an exception. *)
Fixpoint gallery_raises (images : list image) (evs : list gallery_event)
    (lb : lightbox) : bool :=
  match evs with
  | [] => false
  | ev :: evs' =>
      raised (gallery_step images ev lb)
      || gallery_raises images evs' (state_of (gallery_step images ev lb))
  end.

End Gallery.

(** ** Text functions of the platform used by the rest of the script *)

Module Text.

Import Js.

Fixpoint starts_with (s t : str) : bool :=
  match t, s with
  | [], _ => true
  | _ :: _, [] => false
  | b :: t', a :: s' => (a =? b)%N && starts_with s' t'
  end.

(** [s.includes(t)]: [t] occurs somewhere in [s]. *)
Fixpoint includes (s t : str) : bool :=
  starts_with s t
  || match s with
     | [] => false
     | _ :: s' => includes s' t
     end.

Fixpoint decimal_aux (fuel : nat) (n : N) (acc : str) : str :=
  match fuel with
  | O => acc
  | S fuel' =>
      let acc' := (48 + n mod 10)%N :: acc in
      if (n / 10 =? 0)%N then acc' else decimal_aux fuel' (n / 10) acc'
  end.

(** The text of a natural number in a template literal: its decimal
    numeral. *)
Definition decimal (n : N) : str := decimal_aux (S (N.size_nat n)) n [].

End Text.

(** ** Menu search *)

Module Menu.

Import Js Text.

(** A menu item: the text of its heading and of its paragraph, [None] for
    an element that is not there. *)
Record item : Type := {
  title : option str;
  description : option str
}.

Definition category : Type := list item.

(** What the listener sets on a category and on its items. *)
Record category_view : Type := {
  category_display : str;
  item_displays : list str
}.

(** The line under the search box. *)
Record count_line : Type := {
  textContent : str;
  color : str
}.

Section Search.

(** [String.prototype.toLowerCase], left to the platform. *)
Variable toLowerCase : str -> str.

Definition lower_text (el : option str) : str :=
  match el with
  | Some t => toLowerCase t
  | None => []
  end.

(** [title.includes(searchTerm) || description.includes(searchTerm)] *)
Definition matches (searchTerm : str) (it : item) : bool :=
  includes (lower_text (title it)) searchTerm
  || includes (lower_text (description it)) searchTerm.

(** The body of [categoryItems.forEach], on the displays set so far and
    the variables [visibleCount] and [categoryHasVisibleItems]. *)
Definition visit_item (searchTerm : str)
    (acc : list str * nat * bool) (it : item) : list str * nat * bool :=
  let '(displays, visibleCount, categoryHasVisibleItems) := acc in
  if matches searchTerm it
  then (displays ++ [lit "flex"], S visibleCount, true)
  else (displays ++ [lit "none"], visibleCount, categoryHasVisibleItems).

(** The body of [menuCategories.forEach]. *)
Definition visit_category (searchTerm : str)
    (acc : list category_view * nat) (cat : category)
    : list category_view * nat :=
  let '(views, visibleCount) := acc in
  let '(displays, visibleCount, categoryHasVisibleItems) :=
    fold_left (visit_item searchTerm) cat ([], visibleCount, false) in
  (views ++ [{| category_display :=
                  if categoryHasVisibleItems || negb (truthy searchTerm)
                  then lit "block" else lit "none";
                item_displays := displays |}],
   visibleCount).

Definition count_message (searchTerm : str) (visibleCount : nat)
    (line : count_line) : count_line :=
  if negb (truthy searchTerm) then
    {| textContent := []; color := color line |}
  else if Nat.eqb visibleCount 0 then
    {| textContent := 10060%N :: lit " No menu items found";
       color := lit "#c0392b" |}
  else
    {| textContent :=
         10003%N :: lit " Found " ++ decimal (N.of_nat visibleCount)
         ++ lit " item" ++ (if negb (Nat.eqb visibleCount 1) then lit "s" else []);
       color := lit "#27ae60" |}.

(** The filtering for a search term. *)
Definition search (menu : list category) (searchTerm : str)
    (line : count_line) : list category_view * nat * count_line :=
  let '(views, visibleCount) :=
    fold_left (visit_category searchTerm) menu ([], 0%nat) in
  (views, visibleCount, count_message searchTerm visibleCount line).

(** The [input] listener of the search box. *)
Definition on_input (menu : list category) (value : str)
    (line : count_line) : list category_view * nat * count_line :=
  search menu (trim (toLowerCase value)) line.

End Search.

End Menu.

(** ** Mobile menu toggle *)

Module Nav.

Import Js.

(** The classes and the label the toggle button works on. *)
Record toggle : Type := {
  nav_mobile_active : bool;   (* nav has the class mobile-active *)
  button_active : bool;       (* the button has the class active *)
  innerHTML : str             (* the label of the button *)
}.

Definition label_menu : str := 9776%N :: lit " Menu".
Definition label_close : str := 10005%N :: lit " Close".

(** The button as it is created, on a page whose [nav] has or has not the
    class already. *)
Definition new_toggle (nav_active : bool) : toggle :=
  {| nav_mobile_active := nav_active; button_active := false;
     innerHTML := label_menu |}.

(** The click listener of the button. *)
Definition toggle_click (t : toggle) : toggle :=
  let nav := negb (nav_mobile_active t) in
  {| nav_mobile_active := nav;
     button_active := negb (button_active t);
     innerHTML := if nav then label_close else label_menu |}.

Fixpoint clicks (k : nat) (t : toggle) : toggle :=
  match k with
  | O => t
  | S k' => clicks k' (toggle_click t)
  end.

End Nav.

(** ** The mailto link *)

Module Uri.

Import Js Platform Forms.

Definition is_alpha (c : N) : bool :=
  ((65 <=? c) && (c <=? 90) || (97 <=? c) && (c <=? 122))%N.

(** The characters [encodeURIComponent] leaves as they are: letters,
    digits and [- _ . ! ~ * ' ( )]. *)
Definition unreserved (c : N) : bool :=
  is_alpha c || is_digit c
  || existsb (N.eqb c)
       [ch "-"; ch "_"; ch "."; ch "!"; ch "~"; ch "*"; 39%N; ch "("; ch ")"].

(** The UTF-8 octets of a code point. *)
Definition utf8 (cp : N) : list N :=
  if (cp <? 128)%N then [cp]
  else if (cp <? 2048)%N then [192 + cp / 64; 128 + cp mod 64]%N
  else if (cp <? 65536)%N then
    [224 + cp / 4096; 128 + (cp / 64) mod 64; 128 + cp mod 64]%N
  else
    [240 + (cp / 262144) mod 8; 128 + (cp / 4096) mod 64;
     128 + (cp / 64) mod 64; 128 + cp mod 64]%N.

Definition hex_digit (d : N) : N :=
  if (d <? 10)%N then (48 + d)%N else (55 + d)%N.

(** [%XX] for one octet. *)
Definition escape (octet : N) : str :=
  [ch "%"; hex_digit ((octet / 16) mod 16); hex_digit (octet mod 16)].

Definition escape_code_point (cp : N) : str := flat_map escape (utf8 cp).

(** The code point of a surrogate pair. *)
Definition pair_code_point (hi lo : N) : N :=
  (65536 + (hi - 55296) * 1024 + (lo - 56320))%N.

(** [encodeURIComponent]; [None] is the URIError for a lone surrogate. *)
Fixpoint encodeURIComponent (s : str) : option str :=
  match s with
  | [] => Some []
  | c :: s' =>
      if unreserved c then option_map (cons c) (encodeURIComponent s')
      else if is_high c then
        match s' with
        | d :: s'' =>
            if is_low d
            then option_map (app (escape_code_point (pair_code_point c d)))
                   (encodeURIComponent s'')
            else None
        | [] => None
        end
      else if is_low c then None
      else option_map (app (escape_code_point c)) (encodeURIComponent s')
  end.

(** The value of [mailtoLink] in the contact listener, when neither
    encoding throws. *)
Definition mailtoLink (f : contact_fields) : option str :=
  match encodeURIComponent (lit "Contact Form: " ++ c_subject f),
        encodeURIComponent (emailBody f) with
  | Some subject, Some body =>
      Some (lit "mailto:" ++ recipient ++ lit "?subject=" ++ subject
            ++ lit "&body=" ++ body)
  | _, _ => None
  end.

(** The address [initializeMap] opens. *)
Definition mapsUrl : option str :=
  option_map
    (app (lit "https://www.google.com/maps/search/?api=1&query="))
    (encodeURIComponent
       (lit "The Coffee Corner, 123 Coffee Street, Gardens, Cape Town")).

End Uri.

(** ** Notions for the rest of the script *)

Module SpecMore.

Import Js Platform Notifier Forms Spec Gallery Text Menu Uri.

(** The caption that goes with an image: its alternative text when it has
    one, else the text of the first paragraph of its parent, else
    nothing. *)
Definition expected_caption (img : image) : str :=
  match alt img with
  | _ :: _ => alt img
  | [] => match parent_p img with Some t => t | None => [] end
  end.

(** The lightbox agrees with its gallery: the index points at an image;
    page scrolling is blocked exactly while the lightbox is displayed; and
    while it is displayed it shows the image the index points at. *)
Definition lightbox_ok (images : list image) (lb : lightbox) : Prop :=
  (0 <= currentImageIndex lb < Z.of_nat (length images))%Z /\
  (display lb = lit "flex" <-> overflow lb = lit "hidden") /\
  (display lb = lit "flex" ->
   exists img,
     image_at images (currentImageIndex lb) = Some img /\
     img_src lb = src img /\ img_alt lb = alt img /\
     caption lb = expected_caption img).

(** [t] occurs in [s]. *)
Definition occurs_in (t s : str) : Prop :=
  exists before after, s = before ++ t ++ after.

(** The display of an item under a search for [term]. *)
Definition shown (lower : str -> str) (term : str) (it : item) : str :=
  if matches lower term it then lit "flex" else lit "none".

(** What a search for [term] should leave of one category: each item
    displayed or hidden according to whether it matches, and the category
    hidden only when the term is not empty and none of its items matches. *)
Definition filtered (lower : str -> str) (term : str) (cat : category)
    : category_view :=
  {| category_display :=
       if existsb (matches lower term) cat || negb (truthy term)
       then lit "block" else lit "none";
     item_displays := map (shown lower term) cat |}.

(** The number of items of the menu that match. *)
Definition match_count (lower : str -> str) (term : str)
    (menu : list category) : nat :=
  length (filter (matches lower term) (concat menu)).

(** A character that has no meaning of its own in a link: one left as it
    is by the encoding, or the percent sign of an escape. *)
Definition uri_safe (c : N) : bool := unreserved c || (c =? ch "%")%N.

(** What a handler did, whether it ran to its end or not. *)
Definition effects_of (o : outcome) : list effect :=
  match o with Completed effs | Threw effs => effs end.

Definition completed (o : outcome) : bool :=
  match o with Completed _ => true | Threw _ => false end.

(** The day number, counted from 1 January 1970, of the local day that
    contains [now]. *)
Definition local_day (e : env) : Z :=
  ((now e + offset_at e (now e)) / msPerDay)%Z.

(** *** More on the pages of the notification widget *)

(** A well-formed page whose close buttons all belong to nodes that
    exist. *)
Definition sound_page (s : page) : bool :=
  well_formed_page s
  && forallb (fun p => (snd p <? next_node s)%nat) (created s).

(** No event of the sequence is about [n]. *)
Fixpoint none_about (n : nat) (evs : list event) (s : page) : bool :=
  match evs with
  | [] => true
  | ev :: evs' =>
      negb (about n ev s)
      && match do_event ev s with
         | Some s' => none_about n evs' s'
         | None => true
         end
  end.

(** The notification [n] belongs to the container [c]: it sits in no other
    one, and its timers and its close button were made for [c]. *)
Definition homed (c n : nat) (s : page) : Prop :=
  tracked c n (timers s) s /\
  (forall tm, In tm (timers s) -> node_of (cb tm) = n ->
              cb tm = AutoDismiss c n \/ cb tm = Removal c n) /\
  (forall c', In (c', n) (created s) -> c' = c).

(** The removal of [n] is scheduled for the time [r], or [n] has been
    removed already. *)
Definition on_its_way_out (c n : nat) (r : Z) (s : page) : Prop :=
  (In n (children s c) /\ attached s = Some c /\
   In {| due := r; cb := Removal c n |} (timers s))
  \/ ~ In n (children s c).

(** The container is in the document exactly while it holds a
    notification, and an element out of the document holds none. *)
Definition container_rule (s : page) : Prop :=
  forall c, children s c <> [] <-> attached s = Some c.

(** How long a success notification of a form stays: the contact listener
    leaves the default, the catering listener asks for ten seconds. *)
Definition stay (fm : form) : Z :=
  match fm with
  | ContactForm => 5000
  | CateringForm => 10000
  end.

End SpecMore.

(** ** More samples *)

Module SamplesMore.

Import Js Platform Notifier Forms Spec Samples Gallery Text Menu Uri.

(** A gallery of three pictures; the second has no alternative text. *)
Definition three_images : list image :=
  [ {| src := lit "images/counter.jpg"; alt := lit "The counter";
       parent_p := Some (lit "Our counter") |};
    {| src := lit "images/latte.jpg"; alt := [];
       parent_p := Some (lit "Latte art") |};
    {| src := lit "images/terrace.jpg"; alt := lit "The terrace";
       parent_p := None |} ].

(** The lightbox of [three_images], open on the last picture. *)
Definition open_on_last : lightbox :=
  Eval vm_compute in
    gallery_run three_images [ImageClick 2] new_lightbox.

(** Lower-casing of the ASCII letters, for the samples. *)
Definition ascii_lower (s : str) : str :=
  map (fun c => if ((65 <=? c) && (c <=? 90))%N then (c + 32)%N else c) s.

Definition item_of (t d : string) : item :=
  {| title := Some (lit t); description := Some (lit d) |}.

(** A menu of two categories. *)
Definition small_menu : list category :=
  [ [item_of "Flat White" "Double shot with steamed milk";
     item_of "Cappuccino" "Espresso with foamed milk"];
    [item_of "Croissant" "Butter pastry"] ].

Definition blank_line : count_line := {| textContent := []; color := [] |}.

(** A contact form filled in properly. *)
Definition page_hello : document :=
  page_with [("contact-name", "Anna Smith"); ("contact-email", "a@b.com");
             ("contact-subject", "general");
             ("contact-message", "Hello, do you cater?")]%string.

(** The link the contact listener opens for [page_hello]. *)
Definition hello_link : str :=
  Eval vm_compute in
    match mailtoLink (read_contact page_hello) with
    | Some l => l
    | None => []
    end.

(** [page_success], with an error notification shown next to the first
    one. *)
Definition two_notes : page :=
  Eval vm_compute in after [Show note_error] page_success.

(** The first notification of [two_notes] is closed by hand after one
    second; its removal and, later, its auto-dismiss callback run. *)
Definition close_first : list event :=
  [Tick 1300; Fire 1; Tick 5000; Fire 0].

Definition first_waiting : page :=
  Eval vm_compute in after [Frame; Tick 1000] two_notes.

Definition first_pressed : page :=
  Eval vm_compute in after [Click 0 1] first_waiting.

Definition first_closed : page :=
  Eval vm_compute in after close_first first_pressed.

(** The page after [page_anna] was submitted on an empty page. *)
Definition page_enquiry : page :=
  Eval vm_compute in
    snd (showNotification (catering_success env_nov3 (read_catering page_anna))
           (empty_page 0)).

Definition ten_seconds : list event :=
  [Frame; Tick 10000; Fire 0; Tick 10300; Fire 0].

Definition enquiry_after : page :=
  Eval vm_compute in after ten_seconds page_enquiry.

End SamplesMore.

(** ** Facts about strings and regular expressions *)

Module ReFacts.

Import Js Re.

Lemma str_eqb_eq a b : str_eqb a b = true <-> a = b.
Proof. unfold str_eqb; destruct (list_eq_dec N.eq_dec a b); split; congruence. Qed.

Create HintDb re.
#[local] Hint Constructors Matches : re.

Lemma cat_inv r1 r2 s :
  Matches (Cat r1 r2) s ->
  exists s1 s2, s = s1 ++ s2 /\ Matches r1 s1 /\ Matches r2 s2.
Proof. intro H; inversion H; subst; eauto. Qed.

Lemma alt_inv r1 r2 s : Matches (Alt r1 r2) s -> Matches r1 s \/ Matches r2 s.
Proof. intro H; inversion H; subst; auto. Qed.

Lemma nullable_spec r : nullable r = true <-> Matches r [].
Proof.
  induction r; simpl; split; intro H; try discriminate; auto with re;
    try solve [inversion H].
  - apply andb_true_iff in H as [H1 H2].
    change (@nil N) with (@nil N ++ @nil N). constructor; tauto.
  - apply cat_inv in H as (s1 & s2 & E & A & B). symmetry in E.
    apply app_eq_nil in E as [-> ->]. apply andb_true_iff; tauto.
  - apply orb_true_iff in H as [H|H]; [apply MAltL|apply MAltR]; tauto.
  - apply orb_true_iff. inversion H; subst; tauto.
Qed.

Lemma star_cons_inv r c s :
  Matches (Star r) (c :: s) ->
  exists s1 s2, s = s1 ++ s2 /\ Matches r (c :: s1) /\ Matches (Star r) s2.
Proof.
  intro H. remember (Star r) as q eqn:Eq. remember (c :: s) as w eqn:Ew.
  revert Eq Ew.
  induction H as [| | | | | |r' s1 s2 H1 _ H2 IH2]; intros Eq Ew; try discriminate.
  injection Eq as ->.
  destruct s1 as [|c' s1']; simpl in Ew.
  - apply IH2; auto.
  - injection Ew as -> <-. eauto.
Qed.

Lemma deriv_spec r : forall c s, Matches (deriv c r) s <-> Matches r (c :: s).
Proof.
  induction r as [| |p|r1 IH1 r2 IH2|r1 IH1 r2 IH2|r1 IH1]; intros c s; simpl.
  - split; intro H; inversion H.
  - split; intro H; inversion H.
  - destruct (p c) eqn:Hp; split; intro H; inversion H; subst; auto with re.
    congruence.
  - split.
    + destruct (nullable r1) eqn:Hn; intro H.
      * apply alt_inv in H as [A|A].
        -- apply cat_inv in A as (s1 & s2 & -> & A & B).
           change (c :: s1 ++ s2) with ((c :: s1) ++ s2).
           constructor; [apply IH1|]; assumption.
        -- change (c :: s) with ([] ++ c :: s).
           constructor; [apply nullable_spec|apply IH2]; assumption.
      * apply cat_inv in H as (s1 & s2 & -> & A & B).
        change (c :: s1 ++ s2) with ((c :: s1) ++ s2).
        constructor; [apply IH1|]; assumption.
    + intro H. apply cat_inv in H as (s1 & s2 & E & A & B).
      destruct s1 as [|c' s1']; simpl in E.
      * subst s2. apply nullable_spec in A. rewrite A.
        apply MAltR, IH2; assumption.
      * injection E as <- ->.
        destruct (nullable r1); [apply MAltL|]; constructor; auto;
          apply IH1; assumption.
  - split; intro H; inversion H; subst;
      [apply MAltL, IH1|apply MAltR, IH2|apply MAltL, IH1|apply MAltR, IH2];
      assumption.
  - split; intro H.
    + apply cat_inv in H as (s1 & s2 & -> & A & B).
      change (c :: s1 ++ s2) with ((c :: s1) ++ s2).
      constructor; [apply IH1|]; assumption.
    + apply star_cons_inv in H as (s1 & s2 & -> & A & B).
      constructor; [apply IH1|]; assumption.
Qed.

(** The matcher decides the language. *)
Lemma test_spec s : forall r, test r s = true <-> Matches r s.
Proof.
  induction s as [|c s IH]; intro r; simpl.
  - apply nullable_spec.
  - rewrite IH. apply deriv_spec.
Qed.

(** *** Repetitions of one character class *)

Lemma cls_inv p s : Matches (Cls p) s -> exists c, s = [c] /\ p c = true.
Proof. intro H; inversion H; subst; eauto. Qed.

Lemma star_cls p s : Matches (Star (Cls p)) s <-> forallb p s = true.
Proof.
  induction s as [|c s IH]; simpl.
  - split; auto with re.
  - rewrite andb_true_iff, <- IH. split.
    + intro H. apply star_cons_inv in H as (s1 & s2 & -> & A & B).
      apply cls_inv in A as (c' & E & Hp). injection E as -> ->. auto.
    + intros [Hp H]. change (c :: s) with ([c] ++ s). auto with re.
Qed.

Lemma plus_cls p s :
  Matches (Plus (Cls p)) s <-> s <> [] /\ forallb p s = true.
Proof.
  unfold Plus. split.
  - intro H. apply cat_inv in H as (s1 & s2 & -> & A & B).
    apply cls_inv in A as (c & -> & Hp). apply star_cls in B.
    simpl. rewrite Hp, B. split; [discriminate|reflexivity].
  - intros [Hne H]. destruct s as [|c s]; [congruence|].
    simpl in H. apply andb_true_iff in H as [Hp H].
    change (c :: s) with ([c] ++ s). constructor; [auto with re|].
    apply star_cls; assumption.
Qed.

Lemma rep_cls p n : forall s,
  Matches (Rep n (Cls p)) s <-> length s = n /\ forallb p s = true.
Proof.
  induction n as [|n IH]; intro s; simpl.
  - split.
    + intro H; inversion H; auto.
    + intros [H _]. apply length_zero_iff_nil in H as ->. constructor.
  - split.
    + intro H. apply cat_inv in H as (s1 & s2 & -> & A & B).
      apply cls_inv in A as (c & -> & Hp). apply IH in B as [<- B].
      simpl. rewrite Hp, B. auto.
    + intros [Hl H]. destruct s as [|c s]; [discriminate|].
      simpl in *. apply andb_true_iff in H as [Hp H].
      change (c :: s) with ([c] ++ s). constructor; [auto with re|].
      apply IH. split; [lia|assumption].
Qed.

Lemma upto_cls p n : forall s,
  Matches (UpTo n (Cls p)) s <-> (length s <= n)%nat /\ forallb p s = true.
Proof.
  induction n as [|n IH]; intro s; simpl.
  - split.
    + intro H; inversion H; auto.
    + intros [H _]. destruct s; [constructor|simpl in H; lia].
  - split.
    + intro H. apply alt_inv in H as [H|H].
      * inversion H; simpl; split; [lia|reflexivity].
      * apply cat_inv in H as (s1 & s2 & -> & A & B).
        apply cls_inv in A as (c & -> & Hp). apply IH in B as [Hl B].
        simpl. rewrite Hp, B. split; [lia|reflexivity].
    + intros [Hl H]. destruct s as [|c s]; [auto with re|].
      simpl in *. apply andb_true_iff in H as [Hp H].
      apply MAltR. change (c :: s) with ([c] ++ s).
      constructor; [auto with re|]. apply IH. split; [lia|assumption].
Qed.

Lemma range_cls p m n s :
  (m <= n)%nat ->
  Matches (Range m n (Cls p)) s <->
  (m <= length s <= n)%nat /\ forallb p s = true.
Proof.
  intro Hmn. unfold Range. split.
  - intro H. apply cat_inv in H as (s1 & s2 & -> & A & B).
    apply rep_cls in A as [<- A]. apply upto_cls in B as [Hl B].
    rewrite length_app, forallb_app, A, B. split; [lia|reflexivity].
  - intros [Hl H]. rewrite <- (firstn_skipn m s) in H |- *.
    rewrite forallb_app in H. apply andb_true_iff in H as [H1 H2].
    constructor.
    + apply rep_cls. split; [rewrite length_firstn; lia|assumption].
    + apply upto_cls. split; [rewrite length_skipn; lia|assumption].
Qed.

End ReFacts.

(** ** The two patterns of the script *)

Module PatternFacts.

Import Js Platform Re ReFacts Forms Spec.

Lemma chr_inv c s : Matches (Chr c) s -> s = [c].
Proof.
  intro H. apply cls_inv in H as (c' & -> & E).
  apply N.eqb_eq in E. congruence.
Qed.

Lemma chr_intro c : Matches (Chr c) [c].
Proof. constructor. apply N.eqb_refl. Qed.

Lemma not_space_at_all l :
  forallb not_space_at l = true <->
  Forall (fun c => is_space c = false) l /\
  count_occ N.eq_dec l (ch "@") = 0%nat.
Proof.
  induction l as [|c l IH].
  - simpl. split; auto.
  - cbn [forallb]. rewrite andb_true_iff, IH. unfold not_space_at at 1.
    rewrite negb_true_iff, orb_false_iff, N.eqb_neq, Forall_cons_iff.
    destruct (N.eq_dec c (ch "@")) as [E|E].
    + rewrite count_occ_cons_eq by exact E. split.
      * intros [[_ H] _]. congruence.
      * intros [_ H]. discriminate.
    + rewrite count_occ_cons_neq by exact E. tauto.
Qed.

(** The language of the e-mail pattern, piece by piece. *)
Lemma emailPattern_matches s :
  Matches emailPattern s <->
  exists l d t,
    s = l ++ [ch "@"] ++ d ++ [ch "."] ++ t /\
    (l <> [] /\ forallb not_space_at l = true) /\
    (d <> [] /\ forallb not_space_at d = true) /\
    (t <> [] /\ forallb not_space_at t = true).
Proof.
  unfold emailPattern. split.
  - intro H.
    apply cat_inv in H as (l & r1 & -> & Hl & H).
    apply cat_inv in H as (a & r2 & -> & Ha & H).
    apply cat_inv in H as (d & r3 & -> & Hd & H).
    apply cat_inv in H as (p & t & -> & Hp & Ht).
    apply chr_inv in Ha as ->. apply chr_inv in Hp as ->.
    exists l, d, t. rewrite <- !plus_cls. auto.
  - intros (l & d & t & -> & Hl & Hd & Ht).
    rewrite <- plus_cls in Hl, Hd, Ht.
    repeat (constructor; auto using chr_intro).
Qed.

(** The e-mail pattern accepts exactly the strings of the shape
    local@domain.tld. *)
Lemma emailPattern_shape s :
  test emailPattern s = true <-> email_shape s.
Proof.
  rewrite test_spec, emailPattern_matches. unfold email_shape. split.
  - intros (l & d & t & -> & [Hl Al] & [Hd Ad] & [Ht At]).
    apply not_space_at_all in Al as [Sl Cl], Ad as [Sd Cd], At as [St Ct].
    exists l, d, t. repeat split; auto.
    + repeat (apply Forall_app; split); auto; repeat constructor.
    + rewrite !count_occ_app, Cl, Cd, Ct. reflexivity.
  - intros (l & d & t & -> & Hl & Hd & Ht & Hs & Hc).
    exists l, d, t. split; [reflexivity|].
    rewrite !Forall_app in Hs. destruct Hs as (Sl & _ & Sd & _ & St).
    rewrite !count_occ_app in Hc.
    rewrite (count_occ_cons_eq N.eq_dec [] (eq_refl (ch "@"))) in Hc.
    rewrite !not_space_at_all.
    repeat split; auto; lia.
Qed.

Lemma phone_char_spec c :
  phone_char c = true <->
  (is_digit c = true \/ is_space c = true \/ c = ch "-"
   \/ c = ch "(" \/ c = ch ")" \/ c = ch "+").
Proof.
  unfold phone_char. rewrite !orb_true_iff, !N.eqb_eq. tauto.
Qed.

(** The phone pattern accepts exactly the strings of 10 to 15 characters
    of its class. *)
Lemma phonePattern_shape s :
  test phonePattern s = true <-> phone_shape s.
Proof.
  rewrite test_spec. unfold phonePattern, phone_shape.
  rewrite range_cls by lia. rewrite forallb_forall, Forall_forall.
  split; intros [Hl H]; (split; [exact Hl|]); intros c Hc;
    apply phone_char_spec; auto.
Qed.

Lemma phonePattern_empty : test phonePattern [] = false.
Proof. reflexivity. Qed.

End PatternFacts.

(** ** Parsing integers, and today at midnight *)

Module PlatformFacts.

Import Js Platform.

Lemma digit_not_space c : is_digit c = true -> is_space c = false.
Proof.
  unfold is_digit, is_space. intro H.
  apply andb_true_iff in H as [H1 H2].
  apply N.leb_le in H1, H2.
  apply orb_false_iff. split.
  - cbn [existsb]. repeat (apply orb_false_iff; split);
      try reflexivity; apply N.eqb_neq; lia.
  - apply andb_false_iff. left. apply N.leb_gt. lia.
Qed.

Lemma digit_not_sign c :
  is_digit c = true -> (c =? ch "-")%N = false /\ (c =? ch "+")%N = false.
Proof.
  unfold is_digit. intro H. apply andb_true_iff in H as [H1 H2].
  apply N.leb_le in H1, H2.
  split; apply N.eqb_neq; unfold ch; cbn; lia.
Qed.

Lemma take_digits_all ds : forallb is_digit ds = true -> take_digits ds = ds.
Proof.
  induction ds as [|c ds IH]; cbn; [reflexivity|].
  intro H. apply andb_true_iff in H as [Hc H]. rewrite Hc, IH; auto.
Qed.

(** A decimal numeral is parsed to its value. *)
Lemma parseInt_digits ds :
  ds <> [] -> forallb is_digit ds = true ->
  parseInt ds = Some (1 * digits_val ds)%Z.
Proof.
  intros Hne Hall. destruct ds as [|c ds]; [congruence|].
  pose proof Hall as Hc. cbn [forallb] in Hc.
  apply andb_true_iff in Hc as [Hc _].
  unfold parseInt. cbn [trimStart]. rewrite (digit_not_space c Hc).
  destruct (digit_not_sign c Hc) as [-> ->].
  rewrite (take_digits_all (c :: ds) Hall). reflexivity.
Qed.

(** A text that starts with neither white space, a sign nor a digit is not
    a number. *)
Lemma parseInt_no_digit c s :
  is_space c = false -> is_digit c = false ->
  (c =? ch "-")%N = false -> (c =? ch "+")%N = false ->
  parseInt (c :: s) = None.
Proof.
  intros Hs Hd Hm Hp. unfold parseInt. cbn [trimStart].
  rewrite Hs, Hm, Hp. cbn [take_digits]. rewrite Hd. reflexivity.
Qed.

(** [today_midnight] is the time value of the start of the local day
    that contains [now]. *)
Lemma today_midnight_spec e :
  let t := (now e + offset_at e (now e))%Z in
  let d := (t / msPerDay)%Z in
  (d * msPerDay <= t < (d + 1) * msPerDay)%Z /\
  today_midnight e = (d * msPerDay - offset_of_local e (d * msPerDay))%Z.
Proof.
  cbv zeta. unfold today_midnight, msPerDay. cbv zeta.
  set (t := (now e + offset_at e (now e))%Z).
  pose proof (Z.div_mod t 86400000 ltac:(lia)) as Hdm.
  pose proof (Z.mod_pos_bound t 86400000 ltac:(lia)) as Hb.
  split; [lia|reflexivity].
Qed.

End PlatformFacts.

(** ** What the validators collect *)

Module FormsFacts.

Import Js Platform Re ReFacts Notifier Forms Spec Samples PatternFacts.

Lemma In_when_same b m : In m (when b m) <-> b = true.
Proof.
  destruct b; simpl; split; auto; try contradiction; discriminate.
Qed.

Lemma In_when_other b m m' :
  str_eqb m' m = false -> (In m (when b m') <-> False).
Proof.
  intro E. destruct b; simpl; [|tauto].
  split; [|tauto]. intros [H|[]]. apply str_eqb_eq in H. congruence.
Qed.

(** The contact validator runs its five rules one after the other and
    keeps the message of each rule that fails. *)
Lemma contact_errors f :
  errors (validate_contact f) =
  when (length (c_name f) <? 2)%nat err_name
  ++ when (negb (test emailPattern (c_email f))) err_email
  ++ when (truthy (c_phone f) && negb (test phonePattern (c_phone f)))
       err_phone_contact
  ++ when (negb (truthy (c_subject f))) err_subject
  ++ when (length (c_message f) <? 10)%nat err_message.
Proof.
  unfold validate_contact.
  destruct (length (c_name f) <? 2)%nat,
    (test emailPattern (c_email f)), (truthy (c_phone f)),
    (test phonePattern (c_phone f)), (truthy (c_subject f)),
    (length (c_message f) <? 10)%nat; reflexivity.
Qed.

Lemma contact_isValid f :
  isValid (validate_contact f) =
  negb ((length (c_name f) <? 2)%nat
        || negb (test emailPattern (c_email f))
        || (truthy (c_phone f) && negb (test phonePattern (c_phone f)))
        || negb (truthy (c_subject f))
        || (length (c_message f) <? 10)%nat).
Proof.
  unfold validate_contact.
  destruct (length (c_name f) <? 2)%nat,
    (test emailPattern (c_email f)), (truthy (c_phone f)),
    (test phonePattern (c_phone f)), (truthy (c_subject f)),
    (length (c_message f) <? 10)%nat; reflexivity.
Qed.

Lemma catering_errors e f :
  errors (validate_catering e f) =
  when (length (g_name f) <? 2)%nat err_name
  ++ when (negb (test emailPattern (g_email f))) err_email
  ++ when (negb (test phonePattern (g_phone f))) err_phone_catering
  ++ when (negb (truthy (g_eventType f))) err_event
  ++ when ((g_guests f =? 0)%Z || (g_guests f <? 10)%Z
           || (500 <? g_guests f)%Z) err_guests
  ++ date_errors e (g_date f).
Proof.
  unfold validate_catering, check_date, date_errors.
  destruct (length (g_name f) <? 2)%nat,
    (test emailPattern (g_email f)), (test phonePattern (g_phone f)),
    (truthy (g_eventType f)),
    ((g_guests f =? 0)%Z || (g_guests f <? 10)%Z || (500 <? g_guests f)%Z),
    (truthy (g_date f)),
    (date_lt (Date_parse e (g_date f)) (today_midnight e)),
    (num_lt (days_between (Date_parse e (g_date f)) (today_midnight e)) 7);
    reflexivity.
Qed.

Lemma catering_isValid e f :
  isValid (validate_catering e f) =
  negb ((length (g_name f) <? 2)%nat
        || negb (test emailPattern (g_email f))
        || negb (test phonePattern (g_phone f))
        || negb (truthy (g_eventType f))
        || ((g_guests f =? 0)%Z || (g_guests f <? 10)%Z
            || (500 <? g_guests f)%Z)
        || date_fails e (g_date f)).
Proof.
  unfold validate_catering, check_date, date_fails.
  destruct (length (g_name f) <? 2)%nat,
    (test emailPattern (g_email f)), (test phonePattern (g_phone f)),
    (truthy (g_eventType f)),
    ((g_guests f =? 0)%Z || (g_guests f <? 10)%Z || (500 <? g_guests f)%Z),
    (truthy (g_date f)),
    (date_lt (Date_parse e (g_date f)) (today_midnight e)),
    (num_lt (days_between (Date_parse e (g_date f)) (today_midnight e)) 7);
    reflexivity.
Qed.

Lemma only_advice_Forall l :
  only_advice l = true <-> Forall (fun m => m = advice_week) l.
Proof.
  unfold only_advice. rewrite forallb_forall, Forall_forall.
  split; intros H m Hm; apply str_eqb_eq; auto.
Qed.

Lemma errors_nil_length (l : list str) : l = [] <-> length l = 0%nat.
Proof. split; [intros ->; reflexivity|apply length_zero_iff_nil]. Qed.

Ltac rule_messages :=
  rewrite ?in_app_iff, ?In_when_same;
  repeat (rewrite In_when_other by reflexivity).

Lemma truthy_nil s : truthy s = false <-> s = [].
Proof. destruct s; simpl; split; congruence. Qed.

Lemma date_required_listed e f :
  In err_date_required (errors (validate_catering e f)) <-> g_date f = [].
Proof.
  rewrite catering_errors. rule_messages. unfold date_errors.
  rewrite <- truthy_nil.
  destruct (truthy (g_date f)); cbn [negb].
  - rule_messages. split; [tauto|discriminate].
  - change [err_date_required] with (when true err_date_required).
    rule_messages. tauto.
Qed.

Lemma date_past_listed e f :
  In err_date_past (errors (validate_catering e f)) <->
  g_date f <> [] /\
  date_lt (Date_parse e (g_date f)) (today_midnight e) = true.
Proof.
  rewrite catering_errors. rule_messages. unfold date_errors.
  rewrite <- truthy_nil.
  destruct (truthy (g_date f)); cbn [negb].
  - rule_messages. intuition congruence.
  - change [err_date_required] with (when true err_date_required).
    rule_messages. intuition congruence.
Qed.

Lemma phone_contact_listed f :
  In err_phone_contact (errors (validate_contact f)) <->
  c_phone f <> [] /\ test phonePattern (c_phone f) = false.
Proof.
  rewrite contact_errors. rule_messages.
  rewrite andb_true_iff, negb_true_iff, <- truthy_nil.
  destruct (truthy (c_phone f)); intuition congruence.
Qed.

Lemma phone_catering_listed e f :
  In err_phone_catering (errors (validate_catering e f)) <->
  test phonePattern (g_phone f) = false.
Proof.
  rewrite catering_errors. rule_messages. rewrite negb_true_iff.
  unfold date_errors.
  destruct (negb (truthy (g_date f))); [simpl|rule_messages];
    intuition discriminate.
Qed.

Lemma test_false_iff {r s} {P : Prop} :
  (test r s = true <-> P) -> (test r s = false <-> ~ P).
Proof. destruct (test r s); intuition congruence. Qed.

Lemma email_contact_listed f :
  In err_email (errors (validate_contact f)) <->
  test emailPattern (c_email f) = false.
Proof.
  rewrite contact_errors. rule_messages. rewrite negb_true_iff. tauto.
Qed.

Lemma email_catering_listed e f :
  In err_email (errors (validate_catering e f)) <->
  test emailPattern (g_email f) = false.
Proof.
  rewrite catering_errors. rule_messages. rewrite negb_true_iff.
  unfold date_errors.
  destruct (negb (truthy (g_date f)));
    [change [err_date_required] with (when true err_date_required)|];
    rule_messages; tauto.
Qed.

Lemma anna_email_shape : email_shape (lit "a@b.com").
Proof. apply emailPattern_shape. reflexivity. Qed.

Lemma bad_email_shape : ~ email_shape (lit "bad").
Proof. apply (test_false_iff (emailPattern_shape (lit "bad"))). reflexivity. Qed.

Lemma guests_listed e f :
  In err_guests (errors (validate_catering e f)) <->
  ((g_guests f =? 0)%Z || (g_guests f <? 10)%Z || (500 <? g_guests f)%Z)
  = true.
Proof.
  rewrite catering_errors. rule_messages.
  unfold date_errors.
  destruct (negb (truthy (g_date f)));
    [change [err_date_required] with (when true err_date_required)|];
    rule_messages; tauto.
Qed.

Lemma value_of_missing doc id : no_value doc id -> value_of doc id = None.
Proof.
  unfold value_of. intros [->|(el & -> & H)]; [reflexivity|exact H].
Qed.

Lemma read_contact_missing doc :
  all_missing doc ->
  read_contact doc =
  {| c_name := []; c_email := []; c_phone := []; c_location := [];
     c_subject := []; c_message := [] |}.
Proof.
  intro H. unfold read_contact, field_trim, field.
  rewrite !value_of_missing by apply H. reflexivity.
Qed.

Lemma read_catering_missing doc :
  all_missing doc ->
  read_catering doc =
  {| g_name := []; g_email := []; g_phone := []; g_eventType := [];
     g_guests := 0; g_date := []; g_specialRequests := [] |}.
Proof.
  intro H. unfold read_catering, field_trim, field, guests_text.
  rewrite !value_of_missing by apply H. reflexivity.
Qed.

(** A value the platform cannot read as a date gives an Invalid Date, which
    compares false with everything: no date message is raised for it. *)
Lemma unparsed_date_raises_nothing e f :
  g_date f <> [] -> Date_parse e (g_date f) = None ->
  date_rule_passes (validate_catering e f).
Proof.
  intros Hne Hp. unfold date_rule_passes.
  rewrite date_required_listed, date_past_listed, Hp. cbn [date_lt].
  split; [exact Hne|]. intros [_ H]. discriminate.
Qed.

End FormsFacts.

(** ** The life of a notification *)

Module NotifierFacts.

Import Js ReFacts Notifier Spec.

Lemma memb_In n l : memb n l = true <-> In n l.
Proof.
  unfold memb. rewrite existsb_exists. split.
  - intros (m & Hm & E). apply Nat.eqb_eq in E. congruence.
  - intro H. exists n. split; [exact H|apply Nat.eqb_refl].
Qed.

Lemma In_without m n l : In m (without n l) <-> In m l /\ m <> n.
Proof.
  unfold without. rewrite filter_In, negb_true_iff, Nat.eqb_neq.
  intuition congruence.
Qed.

Lemma In_drop_nth {A} (x : A) l : forall i, In x (drop_nth i l) -> In x l.
Proof.
  induction l as [|y l IH]; intros [|i]; simpl; auto.
  intros [H|H]; eauto.
Qed.

Lemma In_drop_nth_other {A} (x y : A) l :
  forall i, In x l -> nth_error l i = Some y -> x <> y -> In x (drop_nth i l).
Proof.
  induction l as [|z l IH]; intros [|i]; simpl; try contradiction.
  - intros [H|H] E Hne; [congruence|exact H].
  - intros [H|H] E Hne; [left; exact H|right; eauto].
Qed.

Lemma delay_300 : Z.max 0 (to_int32 300) = 300%Z.
Proof. reflexivity. Qed.

Lemma delay_in_range d :
  (0 <= d < 2 ^ 31)%Z -> Z.max 0 (to_int32 d) = d.
Proof.
  intro H. unfold to_int32.
  rewrite Z.mod_small by (change (2 ^ 32)%Z with (2 ^ 31 + 2 ^ 31)%Z; lia).
  lia.
Qed.

Lemma timely_spec s :
  timely s = true <-> forall tm, In tm (timers s) -> (clock s <= due tm)%Z.
Proof.
  unfold timely. rewrite forallb_forall.
  split; intros H tm Hm; apply Z.leb_le; auto.
Qed.

Lemma settled_spec s :
  settled s = true <-> forall tm, In tm (timers s) -> (clock s < due tm)%Z.
Proof.
  unfold settled. rewrite forallb_forall.
  split; intros H tm Hm; apply Z.ltb_lt; auto.
Qed.

Ltac nat_cases :=
  repeat match goal with
         | |- context [Nat.eqb ?a ?b] => destruct (Nat.eqb_spec a b)
         | H : context [Nat.eqb ?a ?b] |- _ => destruct (Nat.eqb_spec a b)
         end.

Section Tracked.

Variables (c n : nat) (own : list timer).

Lemma tracked_tick t s :
  (clock s <=? t)%Z && forallb (fun tm => (t <=? due tm)%Z) (timers s) = true ->
  tracked c n own s -> tracked c n own (set_clock t s).
Proof.
  intros Ht (T1 & T2 & T3 & T4 & T5 & T6).
  apply andb_true_iff in Ht as [_ Ht].
  repeat split; auto.
Qed.

Lemma tracked_drop i s :
  tracked c n own s -> tracked c n own (set_timers (drop_nth i (timers s)) s).
Proof.
  intros (T1 & T2 & T3 & T4 & T5 & T6).
  repeat split; auto.
  - apply timely_spec. intros tm Hm. cbn in Hm |- *.
    apply In_drop_nth in Hm. revert tm Hm. apply timely_spec. exact T1.
  - intros tm Hm. cbn in Hm. apply In_drop_nth in Hm. auto.
Qed.

Lemma tracked_close_click c' n' s :
  (n' = n -> In {| due := (clock s + 300)%Z; cb := Removal c' n' |} own) ->
  tracked c n own s -> tracked c n own (close_click c' n' s).
Proof.
  intros Hown (T1 & T2 & T3 & T4 & T5 & T6).
  unfold close_click, setTimeout. rewrite delay_300.
  repeat split; auto.
  - apply timely_spec. cbn. intros tm Hm.
    apply in_app_iff in Hm as [Hm|[<-|[]]].
    + revert tm Hm. apply timely_spec. exact T1.
    + cbn. lia.
  - cbn. intros tm Hm E. apply in_app_iff in Hm as [Hm|[<-|[]]]; auto.
Qed.

Lemma tracked_removal c' n' s :
  tracked c n own s -> tracked c n own (removal c' n' s).
Proof.
  intros (T1 & T2 & T3 & T4 & T5 & T6). unfold removal.
  destruct (memb n' (children s c')); [|repeat split; auto].
  cbv zeta. set (s1 := set_children c' (without n' (children s c')) s).
  assert (H : tracked c n own s1).
  { repeat split; auto. cbn. intros c'' Hlt Hne Hin.
    nat_cases; [subst c''|]; [apply In_without in Hin as [Hin _]|];
      apply (T4 _ Hlt Hne Hin). }
  destruct (children s1 c'); [|exact H].
  destruct (attached s1) as [a|]; [|exact H].
  destruct (Nat.eqb a c'); [|exact H].
  destruct H as (U1 & U2 & U3 & U4 & U5 & U6). repeat split; auto.
  cbn. discriminate.
Qed.

Lemma tracked_frames s : tracked c n own s -> tracked c n own (run_frames s).
Proof. intros (T1 & T2 & T3 & T4 & T5 & T6). repeat split; auto. Qed.

End Tracked.

Lemma show_spec o s n s' :
  (forall a, attached s = Some a -> (a < next_node s)%nat) ->
  showNotification o s = (n, s') ->
  exists cc,
    attached s' = Some cc /\
    (attached s = Some cc \/ (attached s = None /\ cc = next_node s)) /\
    (next_node s <= n < next_node s')%nat /\
    (cc < next_node s')%nat /\ n <> cc /\
    (next_node s <= next_node s')%nat /\
    clock s' = clock s /\
    In n (children s' cc) /\
    (forall c' m, (c' < next_node s')%nat -> In m (children s' c') ->
                  (m = n /\ c' = cc) \/
                  ((c' < next_node s)%nat /\ In m (children s c'))) /\
    (forall c' m, (c' < next_node s)%nat -> In m (children s c') ->
                  In m (children s' c')) /\
    timers s' = timers s ++ dismiss_timers o cc n (clock s).
Proof.
  intro Hatt. unfold showNotification, dismiss_timers.
  destruct (attached s) as [a|] eqn:Ea;
    [specialize (Hatt a eq_refl)|clear Hatt];
    destruct (negb (str_eqb (type_of o) (lit "error")));
    cbn; intros [= <- <-]; cbn;
    [exists a|exists a|exists (next_node s)|exists (next_node s)].
  all: repeat match goal with |- _ /\ _ => split end.
  all: try (left; reflexivity); try (right; split; reflexivity).
  all: try lia; try reflexivity; try assumption.
  all: try (symmetry; apply app_nil_r).
  all: intros; nat_cases; subst; try lia;
    rewrite ?in_app_iff in *; simpl in *; intuition (try lia).
Qed.

Lemma removal_clock c n s : clock (removal c n s) = clock s.
Proof.
  unfold removal. destruct (memb n (children s c)); [|reflexivity].
  cbv zeta. set (s1 := set_children c (without n (children s c)) s).
  destruct (children s1 c); [|reflexivity].
  destruct (attached s1) as [a|]; [|reflexivity].
  destruct (Nat.eqb a c); reflexivity.
Qed.

Lemma removal_timers c n s : timers (removal c n s) = timers s.
Proof.
  unfold removal. destruct (memb n (children s c)); [|reflexivity].
  cbv zeta. set (s1 := set_children c (without n (children s c)) s).
  destruct (children s1 c); [|reflexivity].
  destruct (attached s1) as [a|]; [|reflexivity].
  destruct (Nat.eqb a c); reflexivity.
Qed.

Lemma removal_children c n s c' :
  children (removal c n s) c' =
  if Nat.eqb c' c then without n (children s c) else children s c'.
Proof.
  unfold removal. destruct (memb n (children s c)) eqn:Em.
  - cbv zeta. set (s1 := set_children c (without n (children s c)) s).
    assert (H : children s1 c' =
                if Nat.eqb c' c then without n (children s c)
                else children s c') by reflexivity.
    destruct (children s1 c); [|exact H].
    destruct (attached s1) as [a|]; [|exact H].
    destruct (Nat.eqb a c); exact H.
  - destruct (Nat.eqb_spec c' c) as [->|]; [|reflexivity].
    unfold without. symmetry. apply forallb_filter_id.
    apply forallb_forall. intros m Hm. apply negb_true_iff, Nat.eqb_neq.
    intros <-. apply memb_In in Hm. congruence.
Qed.

(** A removal about another notification leaves the container of a
    displayed one attached. *)
Lemma removal_attached c n c' n' s :
  In n (children s c) -> attached s = Some c -> n' <> n ->
  attached (removal c' n' s) = Some c.
Proof.
  intros Hin Ha Hne. unfold removal.
  destruct (memb n' (children s c')); [|exact Ha].
  cbv zeta. set (s1 := set_children c' (without n' (children s c')) s).
  assert (H1 : attached s1 = Some c) by exact Ha.
  destruct (children s1 c') as [|x l] eqn:Ek; [|exact H1].
  rewrite H1. destruct (Nat.eqb_spec c c') as [<-|]; [|exact H1].
  exfalso. subst s1. cbn in Ek. rewrite Nat.eqb_refl in Ek.
  assert (Hn : In n (without n' (children s c)))
    by (apply In_without; auto).
  rewrite Ek in Hn. contradiction.
Qed.

Lemma close_click_timers c n s :
  timers (close_click c n s) =
  timers s ++ [{| due := (clock s + 300)%Z; cb := Removal c n |}].
Proof. unfold close_click, setTimeout. rewrite delay_300. reflexivity. Qed.

Lemma drop_other n i tm l :
  nth_error l i = Some tm -> node_of (cb tm) <> n ->
  forall tm0, node_of (cb tm0) = n ->
              (In tm0 (drop_nth i l) <-> In tm0 l).
Proof.
  intros En Hne tm0 E0. split.
  - apply In_drop_nth.
  - intro H. apply (In_drop_nth_other tm0 tm l i H En). congruence.
Qed.

Lemma in_app_other n (l : list timer) tm :
  node_of (cb tm) <> n ->
  forall tm0, node_of (cb tm0) = n -> (In tm0 (l ++ [tm]) <-> In tm0 l).
Proof.
  intros Hne tm0 E0. rewrite in_app_iff. simpl.
  split; [intros [H|[<-|[]]]; [exact H|contradiction]|auto].
Qed.

Ltac kept_parts := unfold kept; split; [|split; [|split]].

Section Others.

Variables (c n : nat) (own : list timer).

Lemma tracked_show o s :
  tracked c n own s -> tracked c n own (snd (showNotification o s)).
Proof.
  intros (T1 & T2 & T3 & T4 & T5 & T6).
  destruct (showNotification o s) as [n' s'] eqn:E.
  apply (show_spec o s n' s' T6) in E
    as (cc & Ha & Hold & Hn' & Hcc & Hne & Hnx & Hck & Hin & Hch & Hkeep & Htm).
  cbn [snd]. repeat split; try lia.
  - apply timely_spec. rewrite Htm, Hck. intros tm Hm.
    apply in_app_iff in Hm as [Hm|Hm].
    + revert tm Hm. apply timely_spec. exact T1.
    + unfold dismiss_timers in Hm.
      destruct (negb _); [|contradiction].
      destruct Hm as [<-|[]]. cbn. lia.
  - intros c' Hlt Hc' Hm. apply (Hch _ _ Hlt) in Hm as [[E _]|[Hlt' Hm]].
    + lia.
    + apply (T4 _ Hlt' Hc' Hm).
  - rewrite Htm. intros tm Hm E. apply in_app_iff in Hm as [Hm|Hm]; auto.
    unfold dismiss_timers in Hm. destruct (negb _); [|contradiction].
    destruct Hm as [<-|[]]. cbn in E. lia.
  - intros a Ha'. rewrite Ha in Ha'. injection Ha' as <-. exact Hcc.
Qed.

Lemma kept_show o s :
  tracked c n own s -> kept c n s (snd (showNotification o s)).
Proof.
  intros (T1 & T2 & T3 & T4 & T5 & T6).
  destruct (showNotification o s) as [n' s'] eqn:E.
  apply (show_spec o s n' s' T6) in E
    as (cc & Ha & Hold & Hn' & Hcc & Hne & Hnx & Hck & Hin & Hch & Hkeep & Htm).
  cbn [snd]. kept_parts.
  - lia.
  - intros Hm Hc. split; [apply Hkeep; assumption|].
    destruct Hold as [Ho|[Ho _]]; congruence.
  - intros Hno Hm. apply Hch in Hm as [[E _]|[_ Hm]]; [lia|auto|lia].
  - intros tm Hn. rewrite Htm, in_app_iff. split; [|auto].
    intros [Hm|Hm]; auto.
    unfold dismiss_timers in Hm. destruct (negb _); [|contradiction].
    destruct Hm as [<-|[]]. cbn in Hn. lia.
Qed.

Lemma kept_close_click c' n' s :
  n' <> n -> kept c n s (close_click c' n' s).
Proof.
  intro Hne. kept_parts; auto.
  - cbn. lia.
  - intros tm Hn. rewrite close_click_timers.
    apply (in_app_other n); [exact Hne|exact Hn].
Qed.

Lemma kept_removal c' n' s :
  n' <> n -> kept c n s (removal c' n' s).
Proof.
  intro Hne. kept_parts.
  - rewrite removal_clock. lia.
  - intros Hm Ha. split; [|apply removal_attached with (n := n); auto].
    rewrite removal_children. destruct (Nat.eqb_spec c c') as [<-|]; auto.
    apply In_without. auto.
  - rewrite removal_children. destruct (Nat.eqb_spec c c') as [<-|]; auto.
    intros Hno Hm. apply In_without in Hm as [Hm _]. auto.
  - intros tm Hn. rewrite removal_timers. tauto.
Qed.

Lemma kept_trans s1 s2 s3 : kept c n s1 s2 -> kept c n s2 s3 -> kept c n s1 s3.
Proof.
  intros (A1 & A2 & A3 & A4) (B1 & B2 & B3 & B4). kept_parts.
  - lia.
  - intros Hm Ha. apply B2; apply A2; assumption.
  - auto.
  - intros tm Hn. rewrite (B4 tm Hn). apply A4. exact Hn.
Qed.

Lemma kept_drop i tm s :
  nth_error (timers s) i = Some tm -> node_of (cb tm) <> n ->
  kept c n s (set_timers (drop_nth i (timers s)) s).
Proof.
  intros En Hne. kept_parts; auto.
  - cbn. lia.
  - intros tm0 Hn. apply (drop_other n i tm (timers s) En Hne tm0 Hn).
Qed.

(** An event that is not about [n] keeps what is known of it. *)
Lemma other_event ev s s' :
  tracked c n own s -> do_event ev s = Some s' -> about n ev s = false ->
  tracked c n own s' /\ kept c n s s'.
Proof.
  intros T Hev Hab. destruct ev as [t|i| |o|c' m]; cbn in Hev, Hab.
  - destruct (_ && _) eqn:Ht; [|discriminate]. injection Hev as <-.
    split; [apply tracked_tick; assumption|].
    apply andb_true_iff in Ht as [Ht _]. apply Z.leb_le in Ht.
    kept_parts; auto. intros; tauto.
  - destruct (nth_error (timers s) i) as [tm|] eqn:En; [|discriminate].
    destruct (due tm <=? clock s)%Z; [|discriminate]. injection Hev as <-.
    apply Nat.eqb_neq in Hab.
    pose proof (tracked_drop c n own i s T) as Tm.
    pose proof (kept_drop i tm s En Hab) as Km.
    destruct (cb tm) as [c' n'|c' n']; cbn in Hab; cbn [run_callback].
    + unfold auto_dismiss. destruct (memb n' _); [|auto].
      split.
      * apply tracked_close_click; [intro; contradiction|exact Tm].
      * eapply kept_trans; [exact Km|]. apply kept_close_click. exact Hab.
    + split.
      * apply tracked_removal. exact Tm.
      * eapply kept_trans; [exact Km|]. apply kept_removal. exact Hab.
  - injection Hev as <-. split; [apply tracked_frames; assumption|].
    kept_parts; auto; [cbn; lia|intros; tauto].
  - injection Hev as <-. split; [apply tracked_show|apply kept_show]; assumption.
  - destruct (existsb _ _); [|discriminate]. injection Hev as <-.
    apply Nat.eqb_neq in Hab. split.
    + apply tracked_close_click; [intro; contradiction|assumption].
    + apply kept_close_click. exact Hab.
Qed.

End Others.

Lemma well_formed_page_spec s :
  well_formed_page s = true ->
  timely s = true /\
  (forall tm, In tm (timers s) -> (node_of (cb tm) < next_node s)%nat) /\
  (forall c' m, (c' < next_node s)%nat -> In m (children s c') ->
                (m < next_node s)%nat) /\
  (forall a, attached s = Some a -> (a < next_node s)%nat).
Proof.
  unfold well_formed_page. rewrite !andb_true_iff.
  intros [[[H1 H2] H3] H4]. split; [exact H1|]. split; [|split].
  - intros tm Hm. rewrite forallb_forall in H2. apply Nat.ltb_lt. auto.
  - intros c' m Hlt Hm. rewrite forallb_forall in H3.
    specialize (H3 c'). rewrite in_seq in H3.
    assert (Hc : (0 <= c' < 0 + next_node s)%nat) by lia.
    apply H3 in Hc. rewrite forallb_forall in Hc. apply Nat.ltb_lt. auto.
  - intros a Ha. rewrite Ha in H4. apply Nat.ltb_lt. exact H4.
Qed.

Lemma closing_spec n s :
  closing n s = true <->
  exists c t, In {| due := t; cb := Removal c n |} (timers s).
Proof.
  unfold closing. rewrite existsb_exists. split.
  - intros ([t [c' m|c' m]] & Hm & E); cbn in E; [discriminate|].
    apply Nat.eqb_eq in E. subst m. eauto.
  - intros (c' & t & Hm). eexists. split; [exact Hm|]. cbn.
    apply Nat.eqb_refl.
Qed.

Section Lifecycle.

Variables (c n : nat) (t : Z).

Let own := [dismiss_timer c n t; removal_timer c n t].

Lemma stages_kept s s' :
  kept c n s s' ->
  waiting c n t s \/ leaving c n t s \/ gone c n t s ->
  waiting c n t s' \/ leaving c n t s' \/ gone c n t s'.
Proof.
  intros (K1 & K2 & K3 & K4) [(W1 & W2 & W3 & W4)|[(L1 & L2 & L3 & L4)|(G1 & G2)]].
  - left. destruct (K2 W1 W2) as [A B]. repeat split; auto.
    + apply K4; [reflexivity|exact W3].
    + intro H. apply W4. apply K4 in H; [exact H|reflexivity].
  - right; left. destruct (K2 L2 L3) as [A B]. repeat split; auto.
    + lia.
    + apply K4; [reflexivity|exact L4].
  - right; right. split; [lia|auto].
Qed.

(** One of the two timers of [n] fires. *)
Lemma own_fire i s s' :
  lifecycle c n t s -> do_event (Fire i) s = Some s' ->
  about n (Fire i) s = true -> lifecycle c n t s'.
Proof.
  intros [T St] Hev Hab. cbn in Hev, Hab.
  destruct (nth_error (timers s) i) as [tm|] eqn:En; [|discriminate].
  destruct (due tm <=? clock s)%Z eqn:Hd; [|discriminate].
  injection Hev as <-. apply Nat.eqb_eq in Hab. apply Z.leb_le in Hd.
  pose proof (nth_error_In _ _ En) as Htm.
  pose proof (tracked_drop c n own i s T) as Tm.
  destruct T as (T1 & T2 & T3 & T4 & T5 & T6).
  assert (Hck : clock s = due tm).
  { apply Z.le_antisymm; [|exact Hd].
    apply (proj1 (timely_spec s) T1 tm Htm). }
  destruct (T5 tm Htm Hab) as [<-|[<-|[]]]; cbn in Hck; cbn [cb dismiss_timer
    removal_timer run_callback].
  - (* the auto-dismiss timer *)
    unfold auto_dismiss.
    destruct (memb n (children _ c)) eqn:Em.
    + split.
      * apply tracked_close_click; [|exact Tm].
        intros _. right; left. unfold removal_timer. cbn. rewrite Hck.
        reflexivity.
      * right; left. apply memb_In in Em. cbn in Em.
        assert (Ha : attached s = Some c).
        { destruct St as [W|[L|[_ G]]]; [apply W|apply L|contradiction]. }
        split; [|split; [|split]].
        -- change (t <= clock s)%Z. lia.
        -- exact Em.
        -- exact Ha.
        -- rewrite close_click_timers. apply in_app_iff. right. left.
           unfold removal_timer. cbn. rewrite Hck. reflexivity.
    + split; [exact Tm|]. right; right.
      assert (Hno : ~ In n (children s c)).
      { intro H. apply memb_In in H.
        change (memb n (children s c) = false) in Em. congruence. }
      destruct St as [W|[L|G]]; [destruct Hno; apply W|destruct Hno; apply L|].
      exact G.
  - (* the removal timer *)
    split; [apply tracked_removal; exact Tm|]. right; right.
    destruct St as [W|St]; [destruct W as (_ & _ & _ & W); contradiction|].
    split.
    + rewrite removal_clock. change (t + 300 <= clock s)%Z. lia.
    + rewrite removal_children, Nat.eqb_refl. intro H.
      apply In_without in H as [_ H]. congruence.
Qed.

Lemma about_fire ev s :
  about n ev s = true -> no_click n [ev] = true -> exists i, ev = Fire i.
Proof.
  destruct ev as [t'|i| |o|c' m]; cbn; try discriminate; eauto.
  intros ->. discriminate.
Qed.

Lemma lifecycle_run evs :
  forall s s',
    run evs s = Some s' -> no_click n evs = true ->
    lifecycle c n t s -> lifecycle c n t s'.
Proof.
  induction evs as [|ev evs IH]; intros s s' Hrun Hnc L.
  - injection Hrun as <-. exact L.
  - cbn in Hrun. destruct (do_event ev s) as [s1|] eqn:Hev; [|discriminate].
    cbn in Hnc. apply andb_true_iff in Hnc as [Hev_nc Hnc].
    apply (IH s1 s' Hrun Hnc).
    destruct (about n ev s) eqn:Hab.
    + destruct (about_fire ev s Hab) as [i ->].
      { cbn. rewrite Hev_nc. reflexivity. }
      exact (own_fire i s s1 L Hev Hab).
    + destruct L as [T St].
      destruct (other_event c n own ev s s1 T Hev Hab) as [T1 K].
      split; [exact T1|exact (stages_kept s s1 K St)].
Qed.

Lemma persistent_run evs :
  forall s s',
    run evs s = Some s' -> no_click n evs = true ->
    persistent c n s -> persistent c n s'.
Proof.
  induction evs as [|ev evs IH]; intros s s' Hrun Hnc P.
  - injection Hrun as <-. exact P.
  - cbn in Hrun. destruct (do_event ev s) as [s1|] eqn:Hev; [|discriminate].
    cbn in Hnc. apply andb_true_iff in Hnc as [Hev_nc Hnc].
    apply (IH s1 s' Hrun Hnc).
    destruct P as (T & Hin & Ha).
    assert (Hab : about n ev s = false).
    { destruct (about n ev s) eqn:Hab; [|reflexivity].
      destruct (about_fire ev s Hab) as [i ->].
      { cbn. rewrite Hev_nc. reflexivity. }
      cbn in Hab. destruct (nth_error (timers s) i) as [tm|] eqn:En;
        [|discriminate].
      apply Nat.eqb_eq in Hab. destruct T as (_ & _ & _ & _ & T5 & _).
      destruct (T5 tm (nth_error_In _ _ En) Hab). }
    destruct (other_event c n [] ev s s1 T Hev Hab) as [T1 (_ & K2 & _)].
    destruct (K2 Hin Ha) as [A B]. exact (conj T1 (conj A B)).
Qed.

End Lifecycle.

(** The page right after [showNotification]. *)
Lemma show_new o s0 n s1 :
  well_formed_page s0 = true -> showNotification o s0 = (n, s1) ->
  exists c,
    tracked c n (dismiss_timers o c n (clock s0)) s1 /\
    In n (children s1 c) /\ attached s1 = Some c /\
    (forall tm, In tm (dismiss_timers o c n (clock s0)) -> In tm (timers s1)) /\
    clock s1 = clock s0.
Proof.
  intros Hwf E.
  apply well_formed_page_spec in Hwf as (W1 & W2 & W3 & W4).
  apply (show_spec o s0 n s1 W4) in E
    as (cc & Ha & Hold & Hn' & Hcc & Hne & Hnx & Hck & Hin & Hch & Hkeep & Htm).
  exists cc. split; [|split; [exact Hin|split; [exact Ha|split; [|exact Hck]]]].
  - unfold tracked. split; [|split; [|split; [|split; [|split]]]]; try lia.
    + apply timely_spec. rewrite Htm, Hck. intros tm Hm.
      apply in_app_iff in Hm as [Hm|Hm].
      * apply (proj1 (timely_spec s0) W1 tm Hm).
      * unfold dismiss_timers in Hm. destruct (negb _); [|contradiction].
        destruct Hm as [<-|[]]. cbn. lia.
    + intros c' Hlt Hc' Hm. apply (Hch _ _ Hlt) in Hm as [[_ E]|[Hlt' Hm]].
      * contradiction.
      * apply (W3 _ _ Hlt') in Hm. lia.
    + rewrite Htm. intros tm Hm E. apply in_app_iff in Hm as [Hm|Hm].
      * apply W2 in Hm. lia.
      * exact Hm.
    + intros a Ha'. rewrite Ha in Ha'. injection Ha' as <-. exact Hcc.
  - intros tm Hm. rewrite Htm. apply in_app_iff. right. exact Hm.
Qed.

Lemma tracked_weaken c n own own' s :
  (forall tm, In tm own -> In tm own') ->
  tracked c n own s -> tracked c n own' s.
Proof.
  intros Hsub (T1 & T2 & T3 & T4 & T5 & T6). repeat split; auto.
Qed.

Lemma present_in_document c n s :
  In n (children s c) -> attached s = Some c -> in_document n s = true.
Proof.
  intros Hin Ha. unfold in_document. rewrite Ha. apply memb_In. exact Hin.
Qed.

Lemma absent_not_in_document c n own s :
  tracked c n own s -> ~ In n (children s c) -> in_document n s = false.
Proof.
  intros (T1 & T2 & T3 & T4 & T5 & T6) Hno. unfold in_document.
  destruct (attached s) as [a|] eqn:Ha; [|reflexivity].
  destruct (memb n (children s a)) eqn:Em; [|reflexivity].
  apply memb_In in Em. exfalso.
  destruct (Nat.eq_dec a c) as [->|Hne]; [auto|].
  apply (T4 a (T6 a eq_refl) Hne Em).
Qed.

Lemma type_error_dec o :
  type_of o <> lit "error" ->
  negb (str_eqb (type_of o) (lit "error")) = true.
Proof.
  intro H. apply negb_true_iff.
  destruct (str_eqb _ _) eqn:E; [|reflexivity].
  apply str_eqb_eq in E. contradiction.
Qed.

(** What a page shows of a notification in each stage. *)
Lemma lifecycle_observed c n t s :
  lifecycle c n t s ->
  ((clock s < t)%Z -> in_document n s = true /\ closing n s = false) /\
  ((t < clock s)%Z \/ ((t <= clock s)%Z /\ settled s = true) ->
   closing n s = true \/ in_document n s = false) /\
  ((t + 300 < clock s)%Z \/ ((t + 300 <= clock s)%Z /\ settled s = true) ->
   in_document n s = false).
Proof.
  intros [T St].
  pose proof (proj1 (timely_spec s) (proj1 T)) as Htl.
  assert (Hst : settled s = true ->
                forall tm, In tm (timers s) -> (clock s < due tm)%Z)
    by apply settled_spec.
  destruct St as [(W1 & W2 & W3 & W4)|[(L1 & L2 & L3 & L4)|(G1 & G2)]].
  - specialize (Htl _ W3). cbn in Htl.
    split; [|split].
    + intros _. split; [exact (present_in_document c n s W1 W2)|].
      destruct (closing n s) eqn:Ec; [|reflexivity].
      apply closing_spec in Ec as (c' & t' & Hm). exfalso.
      destruct T as (_ & _ & _ & _ & T5 & _).
      destruct (T5 _ Hm eq_refl) as [E|[E|[]]]; [discriminate|].
      apply W4. rewrite E. exact Hm.
    + intros [H|[H Hs]]; [lia|]. specialize (Hst Hs _ W3). cbn in Hst. lia.
    + intros [H|[H Hs]]; [lia|]. specialize (Hst Hs _ W3). cbn in Hst. lia.
  - specialize (Htl _ L4). cbn in Htl.
    split; [|split].
    + intro H. lia.
    + intros _. left. apply closing_spec. exists c, (t + 300)%Z. exact L4.
    + intros [H|[H Hs]]; [lia|]. specialize (Hst Hs _ L4). cbn in Hst. lia.
  - pose proof (absent_not_in_document c n _ s T G2) as Hno.
    split; [|split].
    + intro H. lia.
    + intros _. right. exact Hno.
    + intros _. exact Hno.
Qed.

(** *** Time goes on

    From a page without overdue timers the clock can be brought to any
    later time, the timers on the way firing in the order of their due
    times, without any press of a close button. *)

Lemma earliest_timer (l : list timer) :
  l <> [] ->
  exists i tm, nth_error l i = Some tm /\
               forall tm', In tm' l -> (due tm <= due tm')%Z.
Proof.
  induction l as [|x l IH]; [congruence|]. intros _.
  destruct l as [|y l'].
  - exists 0%nat, x. split; [reflexivity|]. intros tm' [<-|[]]. lia.
  - destruct IH as (i & tm & En & Hmin); [discriminate|].
    destruct (Z_le_gt_dec (due x) (due tm)) as [Hle|Hgt].
    + exists 0%nat, x. split; [reflexivity|].
      intros tm' [<-|Hm]; [lia|]. specialize (Hmin tm' Hm). lia.
    + exists (S i), tm. split; [exact En|].
      intros tm' [<-|Hm]; [lia|auto].
Qed.

Lemma work_drop i tm l :
  nth_error l i = Some tm ->
  (fold_right (fun tm k => weight tm + k) 0 (drop_nth i l) + weight tm
   = fold_right (fun tm k => weight tm + k) 0 l)%nat.
Proof.
  revert i. induction l as [|x l IH]; intros [|i] En; try discriminate.
  - injection En as ->. cbn. lia.
  - cbn in En |- *. rewrite <- (IH i En). lia.
Qed.

Lemma work_app l tm :
  (fold_right (fun tm k => weight tm + k) 0 (l ++ [tm])
   = fold_right (fun tm k => weight tm + k) 0 l + weight tm)%nat.
Proof. induction l as [|x l IH]; cbn; [lia|rewrite IH; lia]. Qed.

Lemma fire_step i tm s :
  timely s = true ->
  nth_error (timers s) i = Some tm -> clock s = due tm ->
  exists s',
    do_event (Fire i) s = Some s' /\ clock s' = clock s /\
    timely s' = true /\ (pending_work s' < pending_work s)%nat.
Proof.
  intros Ht En Hck. cbn. rewrite En.
  replace (due tm <=? clock s)%Z with true by (symmetry; apply Z.leb_le; lia).
  eexists. split; [reflexivity|].
  set (s1 := set_timers (drop_nth i (timers s)) s).
  assert (H1 : timely s1 = true).
  { apply timely_spec. intros x Hx. apply In_drop_nth in Hx.
    apply (proj1 (timely_spec s) Ht x Hx). }
  assert (W1 : (pending_work s1 + weight tm = pending_work s)%nat)
    by exact (work_drop i tm (timers s) En).
  unfold weight in W1.
  destruct (cb tm) as [c n|c n]; cbn [run_callback].
  - unfold auto_dismiss. destruct (memb n (children s1 c)).
    + split; [reflexivity|]. split.
      * apply timely_spec. rewrite close_click_timers. intros x Hx.
        apply in_app_iff in Hx as [Hx|[<-|[]]].
        -- apply (proj1 (timely_spec s1) H1 x Hx).
        -- cbn. lia.
      * unfold pending_work at 1. rewrite close_click_timers, work_app.
        change (pending_work s1 + 1 < pending_work s)%nat. lia.
    + split; [reflexivity|]. split; [exact H1|lia].
  - split; [rewrite removal_clock; reflexivity|]. split.
    + apply timely_spec. rewrite removal_clock, removal_timers.
      apply timely_spec. exact H1.
    + unfold pending_work at 1. rewrite removal_timers.
      change (pending_work s1 < pending_work s)%nat. lia.
Qed.

Lemma no_work_no_timer s : pending_work s = 0%nat -> timers s = [].
Proof.
  unfold pending_work. destruct (timers s) as [|x l]; [reflexivity|].
  cbn. unfold weight. destruct (cb x); lia.
Qed.

Lemma tick_settles T s :
  (clock s <= T)%Z ->
  forallb (fun tm => (T <? due tm)%Z) (timers s) = true ->
  run [Tick T] s = Some (set_clock T s) /\ settled (set_clock T s) = true.
Proof.
  intros HT Hall. cbn.
  replace (clock s <=? T)%Z with true by (symmetry; apply Z.leb_le; lia).
  replace (forallb (fun tm => (T <=? due tm)%Z) (timers s)) with true.
  - split; [reflexivity|exact Hall].
  - symmetry. apply forallb_forall. intros x Hx.
    rewrite forallb_forall in Hall. specialize (Hall x Hx).
    apply Z.ltb_lt in Hall. apply Z.leb_le. lia.
Qed.

Lemma time_goes_on fuel :
  forall s T,
    (pending_work s <= fuel)%nat -> timely s = true -> (clock s <= T)%Z ->
    exists evs s',
      run evs s = Some s' /\ clock s' = T /\ settled s' = true /\
      forall n, no_click n evs = true.
Proof.
  induction fuel as [|fuel IH]; intros s T Hw Ht HT.
  - assert (E : timers s = []) by (apply no_work_no_timer; lia).
    destruct (tick_settles T s HT) as [Hr Hs]; [rewrite E; reflexivity|].
    exists [Tick T], (set_clock T s).
    split; [exact Hr|]. split; [reflexivity|]. split; [exact Hs|].
    intro n. reflexivity.
  - destruct (forallb (fun tm => (T <? due tm)%Z) (timers s)) eqn:Hall.
    + destruct (tick_settles T s HT Hall) as [Hr Hs].
      exists [Tick T], (set_clock T s).
      split; [exact Hr|]. split; [reflexivity|]. split; [exact Hs|].
      intro n. reflexivity.
    + assert (Hne : timers s <> []) by (intro E; rewrite E in Hall; discriminate).
      destruct (earliest_timer (timers s) Hne) as (i & tm & En & Hmin).
      assert (Hdue : (due tm <= T)%Z).
      { destruct (Z_le_gt_dec (due tm) T) as [H|H]; [exact H|].
        exfalso. assert (forallb (fun tm => (T <? due tm)%Z) (timers s) = true);
          [|congruence].
        apply forallb_forall. intros x Hx. apply Z.ltb_lt.
        specialize (Hmin x Hx). lia. }
      pose proof (proj1 (timely_spec s) Ht tm (nth_error_In _ _ En)) as Hck.
      set (s1 := set_clock (due tm) s).
      assert (Htick : do_event (Tick (due tm)) s = Some s1).
      { cbn. replace (clock s <=? due tm)%Z with true
          by (symmetry; apply Z.leb_le; lia).
        replace (forallb (fun x => (due tm <=? due x)%Z) (timers s)) with true;
          [reflexivity|].
        symmetry. apply forallb_forall. intros x Hx. apply Z.leb_le. auto. }
      assert (Ht1 : timely s1 = true).
      { apply timely_spec. intros x Hx. cbn. apply Hmin. exact Hx. }
      destruct (fire_step i tm s1 Ht1 En eq_refl) as (s2 & Hfire & Hc2 & Ht2 & Hw2).
      change (pending_work s1) with (pending_work s) in Hw2.
      destruct (IH s2 T) as (evs & s' & Hrun & Hc & Hs & Hnc);
        [lia|exact Ht2|rewrite Hc2; exact Hdue|].
      exists (Tick (due tm) :: Fire i :: evs), s'.
      split; [|split; [exact Hc|split; [exact Hs|]]].
      * cbn [run]. rewrite Htick, Hfire. exact Hrun.
      * intro n. cbn. apply Hnc.
Qed.

End NotifierFacts.

(** ** Properties of the handlers on pages of any value *)

Module UntypedFacts.

Import Js Platform Notifier Forms Spec.

(** *** On the pages of [Forms] the handlers are those of [Forms] *)

Lemma value_of_lift doc id :
  Untyped.value_of (Untyped.lift doc) id =
  match value_of doc id with
  | Some s => Untyped.Str s
  | None => Untyped.Nullish
  end.
Proof.
  unfold Untyped.value_of, Untyped.lift, value_of.
  destruct (doc id) as [el|]; reflexivity.
Qed.

Lemma field_trim_lift doc id :
  Untyped.field_trim (Untyped.lift doc) id = Untyped.Got (field_trim doc id).
Proof.
  unfold Untyped.field_trim, field_trim. rewrite value_of_lift.
  destruct (value_of doc (lit id)); reflexivity.
Qed.

Lemma field_lift doc id :
  Untyped.field (Untyped.lift doc) id = Untyped.Text (field doc id).
Proof.
  unfold Untyped.field, field. rewrite value_of_lift.
  destruct (value_of doc (lit id)) as [s|]; [|reflexivity].
  cbn. destruct (truthy s); reflexivity.
Qed.

Lemma guests_lift doc :
  Untyped.guests_of (Untyped.value_of (Untyped.lift doc) (lit "guests"))
  = g_guests (read_catering doc).
Proof.
  unfold Untyped.guests_of, read_catering, guests_text. cbn [g_guests].
  rewrite value_of_lift.
  destruct (value_of doc (lit "guests")) as [s|]; [|reflexivity].
  cbn. destruct (truthy s); reflexivity.
Qed.

Lemma contact_agree doc :
  Untyped.contact_submit (Untyped.lift doc) = contact_submit doc.
Proof.
  unfold Untyped.contact_submit, Untyped.read_contact.
  rewrite !field_trim_lift, !field_lift. cbn [Untyped.bind].
  reflexivity.
Qed.

Lemma catering_agree e doc :
  Untyped.catering_submit e (Untyped.lift doc) = catering_submit e doc.
Proof.
  unfold Untyped.catering_submit, Untyped.read_catering.
  rewrite !field_trim_lift, !field_lift, guests_lift. cbn [Untyped.bind].
  reflexivity.
Qed.

(** *** When a read throws *)

Lemma trimmed_throws v :
  Untyped.trimmed v = Untyped.TypeError <-> exists x, v = Untyped.Num x.
Proof.
  destruct v as [|s|x]; cbn; split;
    try discriminate; try (intros [y H]; discriminate); eauto.
Qed.

Lemma field_trim_cases doc id :
  (exists s, Untyped.field_trim doc id = Untyped.Got s /\
             ~ Untyped.holds_number doc id) \/
  (Untyped.field_trim doc id = Untyped.TypeError /\
   Untyped.holds_number doc id).
Proof.
  unfold Untyped.field_trim, Untyped.holds_number.
  destruct (Untyped.value_of doc (lit id)) as [|s|x]; cbn.
  - left. eexists. split; [reflexivity|]. intros [y H]. discriminate.
  - left. eexists. split; [reflexivity|]. intros [y H]. discriminate.
  - right. eauto.
Qed.

Ltac read_cases doc id :=
  let s := fresh "s" in
  let E := fresh "E" in
  let H := fresh "H" in
  destruct (field_trim_cases doc id) as [(s & E & H)|[E H]];
  rewrite E; cbn [Untyped.bind].

Lemma read_contact_throws doc :
  Untyped.read_contact doc = Untyped.TypeError <->
  exists id, In id (Untyped.trimmed_ids ContactForm) /\
             Untyped.holds_number doc id.
Proof.
  unfold Untyped.read_contact, Untyped.trimmed_ids.
  read_cases doc "contact-name"%string;
    [|split; [intros _; eexists; split; [|eassumption]; cbn; auto|reflexivity]].
  read_cases doc "contact-email"%string;
    [|split; [intros _; eexists; split; [|eassumption]; cbn; auto|reflexivity]].
  read_cases doc "contact-phone"%string;
    [|split; [intros _; eexists; split; [|eassumption]; cbn; auto|reflexivity]].
  read_cases doc "contact-message"%string;
    [|split; [intros _; eexists; split; [|eassumption]; cbn; auto|reflexivity]].
  split; [discriminate|].
  intros (id & Hin & Hn). exfalso.
  cbn in Hin. destruct Hin as [<-|[<-|[<-|[<-|[]]]]]; auto.
Qed.

Lemma read_catering_throws doc :
  Untyped.read_catering doc = Untyped.TypeError <->
  exists id, In id (Untyped.trimmed_ids CateringForm) /\
             Untyped.holds_number doc id.
Proof.
  unfold Untyped.read_catering, Untyped.trimmed_ids.
  read_cases doc "name"%string;
    [|split; [intros _; eexists; split; [|eassumption]; cbn; auto|reflexivity]].
  read_cases doc "email"%string;
    [|split; [intros _; eexists; split; [|eassumption]; cbn; auto|reflexivity]].
  read_cases doc "phone"%string;
    [|split; [intros _; eexists; split; [|eassumption]; cbn; auto|reflexivity]].
  read_cases doc "message"%string;
    [|split; [intros _; eexists; split; [|eassumption]; cbn; auto|reflexivity]].
  split; [discriminate|].
  intros (id & Hin & Hn). exfalso.
  cbn in Hin. destruct Hin as [<-|[<-|[<-|[<-|[]]]]]; auto.
Qed.

(** A page without any value. *)
Lemma read_contact_bare doc :
  (forall id, Untyped.no_value doc id) ->
  Untyped.read_contact doc =
  Untyped.Got {| Untyped.v_name := []; Untyped.v_email := [];
                 Untyped.v_phone := [];
                 Untyped.v_location := Untyped.Text [];
                 Untyped.v_subject := Untyped.Text [];
                 Untyped.v_message := [] |}.
Proof.
  intro H. unfold Untyped.read_contact, Untyped.field_trim, Untyped.field.
  rewrite !H. reflexivity.
Qed.

Lemma read_catering_bare doc :
  (forall id, Untyped.no_value doc id) ->
  Untyped.read_catering doc =
  Untyped.Got {| Untyped.w_name := []; Untyped.w_email := [];
                 Untyped.w_phone := [];
                 Untyped.w_eventType := Untyped.Text [];
                 Untyped.w_guests := 0;
                 Untyped.w_date := Untyped.Text [];
                 Untyped.w_specialRequests := [] |}.
Proof.
  intro H. unfold Untyped.read_catering, Untyped.field_trim, Untyped.field.
  rewrite !H. reflexivity.
Qed.

End UntypedFacts.

(** ** Properties of the submit handlers *)

Module FormsClaims.

Import Js Platform Re ReFacts Notifier Forms Spec Samples PatternFacts FormsFacts.
Import UntypedFacts.

(** *** Validity and the error list *)

(** C1, as stated, fails on the catering path: an enquiry that is valid but
    less than 7 days ahead leaves the booking advice in the error list. *)
Lemma C1_counterexample :
  ~ (isValid (validate env_nov3 CateringForm page_soon) = true <->
     errors (validate env_nov3 CateringForm page_soon) = []).
Proof.
  intros [H _]. specialize (H eq_refl). vm_compute in H. discriminate.
Qed.

(** C1, amended: a submission is valid if and only if its error list holds
    no message besides the booking advice of the catering form; on the
    contact path, if and only if the list is empty. *)
Theorem C1_valid_iff_no_failure :
  (forall f, let v := validate_contact f in
             isValid v = true <-> errors v = []) /\
  (forall e f, let v := validate_catering e f in
               isValid v = true <->
               Forall (fun m => m = advice_week) (errors v)).
Proof.
  split.
  - intros f v. subst v. rewrite contact_isValid, contact_errors.
    rewrite errors_nil_length.
    destruct (length (c_name f) <? 2)%nat,
      (test emailPattern (c_email f)), (truthy (c_phone f)),
      (test phonePattern (c_phone f)), (truthy (c_subject f)),
      (length (c_message f) <? 10)%nat; simpl; split; congruence.
  - intros e f v. subst v. rewrite <- only_advice_Forall.
    rewrite catering_isValid, catering_errors.
    unfold date_errors, date_fails.
    destruct (length (g_name f) <? 2)%nat,
      (test emailPattern (g_email f)), (test phonePattern (g_phone f)),
      (truthy (g_eventType f)),
      ((g_guests f =? 0)%Z || (g_guests f <? 10)%Z || (500 <? g_guests f)%Z),
      (truthy (g_date f)),
      (date_lt (Date_parse e (g_date f)) (today_midnight e)),
      (num_lt (days_between (Date_parse e (g_date f)) (today_midnight e)) 7);
      vm_compute; split; congruence.
Qed.

(** *** The catering estimate *)

(** C2: a valid catering submission is answered with a quote whose price
    per person is 250 for a wedding, 180 for a corporate event and 150 for
    any other event type, and whose total is the number of guests times
    that price. *)
Theorem C2_quote e doc :
  isValid (validate_catering e (read_catering doc)) = true ->
  exists q,
    quote_of (catering_submit e doc) = Some q /\
    (g_eventType (read_catering doc) = lit "wedding" ->
     costPerPerson q = 250%Z) /\
    (g_eventType (read_catering doc) = lit "corporate" ->
     costPerPerson q = 180%Z) /\
    (g_eventType (read_catering doc) <> lit "wedding" ->
     g_eventType (read_catering doc) <> lit "corporate" ->
     costPerPerson q = 150%Z) /\
    totalCost q = (g_guests (read_catering doc) * costPerPerson q)%Z.
Proof.
  intro Hv. unfold catering_submit. rewrite Hv. cbn [negb quote_of].
  cbn [message catering_success s_quote].
  eexists. split; [reflexivity|]. unfold cateringQuote.
  cbn [costPerPerson totalCost].
  repeat split.
  - intros ->. reflexivity.
  - intros ->. reflexivity.
  - intros Hw Hc.
    destruct (str_eqb _ (lit "wedding")) eqn:E1;
      [apply str_eqb_eq in E1; contradiction|].
    destruct (str_eqb _ (lit "corporate")) eqn:E2;
      [apply str_eqb_eq in E2; contradiction|].
    reflexivity.
Qed.

Lemma C2_quote_witness :
  isValid (validate_catering env_nov3 (read_catering page_anna)) = true /\
  exists q,
    quote_of (catering_submit env_nov3 page_anna) = Some q /\
    (g_eventType (read_catering page_anna) = lit "wedding" ->
     costPerPerson q = 250%Z) /\
    (g_eventType (read_catering page_anna) = lit "corporate" ->
     costPerPerson q = 180%Z) /\
    (g_eventType (read_catering page_anna) <> lit "wedding" ->
     g_eventType (read_catering page_anna) <> lit "corporate" ->
     costPerPerson q = 150%Z) /\
    totalCost q = (g_guests (read_catering page_anna) * costPerPerson q)%Z.
Proof.
  split; [reflexivity|]. apply (C2_quote env_nov3 page_anna). reflexivity.
Defined.

(** The enquiry of the specification's second example: 250 per person and
    25000 in all. *)
Example anna_quote :
  quote_of (catering_submit env_nov3 page_anna)
  = Some {| costPerPerson := 250; totalCost := 25000 |}.
Proof. reflexivity. Qed.

(** *** Every rule is checked *)

(** C3, as stated, fails at its example: the name Jo has two characters
    and passes the name rule, so three messages are collected, not four. *)
Lemma C3_counterexample :
  errors (validate_contact (read_contact page_jo))
  = [err_email; err_subject; err_message] /\
  errors (validate_contact (read_contact page_jo))
  <> [err_name; err_email; err_subject; err_message] /\
  length (errors (validate_contact (read_contact page_jo))) <> 4%nat.
Proof. vm_compute. repeat split; discriminate. Qed.

(** C3, amended: validation checks every rule and collects the message of
    every rule that fails, in the order of the rules; the contact
    submission with name Jo, email bad, no subject and message hi yields
    exactly the three messages for email, subject and message, and is
    invalid. *)
Theorem C3_collects_every_failure :
  (forall f,
     errors (validate_contact f) =
     when (length (c_name f) <? 2)%nat err_name
     ++ when (negb (test emailPattern (c_email f))) err_email
     ++ when (truthy (c_phone f) && negb (test phonePattern (c_phone f)))
          err_phone_contact
     ++ when (negb (truthy (c_subject f))) err_subject
     ++ when (length (c_message f) <? 10)%nat err_message) /\
  (forall e f,
     errors (validate_catering e f) =
     when (length (g_name f) <? 2)%nat err_name
     ++ when (negb (test emailPattern (g_email f))) err_email
     ++ when (negb (test phonePattern (g_phone f))) err_phone_catering
     ++ when (negb (truthy (g_eventType f))) err_event
     ++ when ((g_guests f =? 0)%Z || (g_guests f <? 10)%Z
              || (500 <? g_guests f)%Z) err_guests
     ++ date_errors e (g_date f)) /\
  (errors (validate_contact (read_contact page_jo))
   = [err_email; err_subject; err_message] /\
   isValid (validate_contact (read_contact page_jo)) = false).
Proof.
  split; [exact contact_errors|]. split; [exact catering_errors|].
  vm_compute. split; reflexivity.
Qed.

(** With a one-letter name the same submission fails all four rules. *)
Example one_letter_name :
  errors (validate_contact (read_contact page_j))
  = [err_name; err_email; err_subject; err_message] /\
  isValid (validate_contact (read_contact page_j)) = false.
Proof. vm_compute. split; reflexivity. Qed.

(** *** The failure branch *)

(** C4: when validation fails, on either form, the handler does one thing
    besides cancelling the browser's own submission: it shows one
    notification of type error, with duration 0 and the whole list of
    collected messages. No mail is composed, no success notification is
    shown and the form is not reset. *)
Theorem C4_failure_only_notifies e fm doc :
  isValid (validate e fm doc) = false ->
  exists o,
    submit e fm doc = Completed [PreventDefault; Notify o] /\
    type o = Some (lit "error") /\
    duration o = Some 0%Z /\
    items o = Some (errors (validate e fm doc)).
Proof.
  intro Hv. exists (error_notification (errors (validate e fm doc))).
  split; [|repeat split].
  destruct fm; simpl in Hv |- *.
  - unfold contact_submit. rewrite Hv. reflexivity.
  - unfold catering_submit. rewrite Hv. reflexivity.
Qed.

Lemma C4_failure_only_notifies_witness :
  isValid (validate env_nov3 ContactForm page_jo) = false /\
  exists o,
    submit env_nov3 ContactForm page_jo = Completed [PreventDefault; Notify o] /\
    type o = Some (lit "error") /\
    duration o = Some 0%Z /\
    items o = Some (errors (validate env_nov3 ContactForm page_jo)).
Proof.
  split; [reflexivity|].
  apply (C4_failure_only_notifies env_nov3 ContactForm page_jo). reflexivity.
Defined.

(** *** The date rule *)

(** C6: the date rule at an input where it leaves the claim. In a zone
    five hours west of UTC, on 3 November 2025 at noon, an enquiry that is
    in order and asks for 3 November 2025 is read as the midnight UTC that
    began that day, five hours before the local midnight of today: the
    handler lists the message of a past date and turns the enquiry down,
    although the calendar date is today's. Two hours east of UTC the same
    enquiry, on the same local day, is accepted. *)
Theorem C6_today_turned_down :
  g_date (read_catering page_today) = lit "2025-11-03" /\
  Date_parse env_west (lit "2025-11-03") = Some (20395 * msPerDay)%Z /\
  ((now env_west + offset_at env_west (now env_west)) / msPerDay = 20395)%Z /\
  today_midnight env_west = (20395 * msPerDay + 5 * 3600000)%Z /\
  catering_submit env_west page_today =
  Completed
    [PreventDefault;
     Notify (error_notification [err_date_past; advice_week])] /\
  ((now env_nov3 + offset_at env_nov3 (now env_nov3)) / msPerDay = 20395)%Z /\
  Date_parse env_nov3 (lit "2025-11-03") = Some (20395 * msPerDay)%Z /\
  isValid (validate_catering env_nov3 (read_catering page_today)) = true.
Proof.
  vm_compute. repeat split.
Qed.

(** *** The phone rule *)

(** C7: on the contact form an empty phone raises no error, and one that
    is given is rejected exactly when it is not 10 to 15 characters among
    digits, white space, hyphen, parentheses and plus sign. On the catering
    form the same pattern is tested whatever the value, so that an empty
    phone is rejected. *)
Theorem C7_phone_rule :
  (forall f,
     (c_phone f = [] -> ~ In err_phone_contact (errors (validate_contact f))) /\
     (c_phone f <> [] ->
      (In err_phone_contact (errors (validate_contact f)) <->
       ~ phone_shape (c_phone f)) /\
      (~ phone_shape (c_phone f) -> isValid (validate_contact f) = false))) /\
  (forall e f,
     (In err_phone_catering (errors (validate_catering e f)) <->
      ~ phone_shape (g_phone f)) /\
     (~ phone_shape (g_phone f) -> isValid (validate_catering e f) = false) /\
     (g_phone f = [] ->
      In err_phone_catering (errors (validate_catering e f)) /\
      isValid (validate_catering e f) = false)).
Proof.
  split.
  - intro f. split.
    + intros E H. apply phone_contact_listed in H as [H _]. contradiction.
    + intro Hne. rewrite phone_contact_listed.
      rewrite (test_false_iff (phonePattern_shape (c_phone f))).
      split; [tauto|]. intro Hs.
      apply (test_false_iff (phonePattern_shape (c_phone f))) in Hs.
      rewrite contact_isValid, Hs.
      destruct (truthy (c_phone f)) eqn:Et;
        [|apply truthy_nil in Et; contradiction].
      cbn [negb andb]. rewrite !orb_true_r. reflexivity.
  - intros e f.
    assert (Hf : ~ phone_shape (g_phone f) ->
                 isValid (validate_catering e f) = false).
    { intro Hs.
      apply (test_false_iff (phonePattern_shape (g_phone f))) in Hs.
      rewrite catering_isValid, Hs. cbn [negb].
      rewrite !orb_true_r. reflexivity. }
    rewrite phone_catering_listed.
    rewrite (test_false_iff (phonePattern_shape (g_phone f))).
    split; [tauto|]. split; [exact Hf|].
    intro E.
    assert (Hs : ~ phone_shape (g_phone f)).
    { rewrite E. intros [[Hl _] _]. simpl in Hl. lia. }
    auto.
Qed.

Lemma C7_phone_rule_witness :
  ~ In err_phone_contact (errors (validate_contact (read_contact page_jo))) /\
  In err_phone_catering
    (errors (validate_catering env_nov3 (read_catering page_bare))).
Proof.
  split.
  - apply (proj1 (proj1 C7_phone_rule (read_contact page_jo))). reflexivity.
  - apply (proj2 (proj2 (proj2 C7_phone_rule env_nov3 (read_catering page_bare)))).
    reflexivity.
Defined.

(** *** The e-mail rule *)

(** C8: on both forms the e-mail rule fails for every string that is not
    of the shape local@domain.tld, and passes for every string of that
    shape. *)
Theorem C8_email_rule :
  (forall f,
     (email_shape (c_email f) ->
      ~ In err_email (errors (validate_contact f))) /\
     (~ email_shape (c_email f) ->
      In err_email (errors (validate_contact f)) /\
      isValid (validate_contact f) = false)) /\
  (forall e f,
     (email_shape (g_email f) ->
      ~ In err_email (errors (validate_catering e f))) /\
     (~ email_shape (g_email f) ->
      In err_email (errors (validate_catering e f)) /\
      isValid (validate_catering e f) = false)).
Proof.
  split.
  - intro f. rewrite email_contact_listed. split.
    + intros Hs. apply emailPattern_shape in Hs. congruence.
    + intro Hs. apply (test_false_iff (emailPattern_shape (c_email f))) in Hs.
      split; [exact Hs|]. rewrite contact_isValid, Hs. cbn [negb].
      rewrite !orb_true_r. reflexivity.
  - intros e f. rewrite email_catering_listed. split.
    + intros Hs. apply emailPattern_shape in Hs. congruence.
    + intro Hs. apply (test_false_iff (emailPattern_shape (g_email f))) in Hs.
      split; [exact Hs|]. rewrite catering_isValid, Hs. cbn [negb].
      rewrite !orb_true_r. reflexivity.
Qed.

Lemma C8_email_rule_witness :
  ~ In err_email
      (errors (validate_catering env_nov3 (read_catering page_anna))) /\
  In err_email (errors (validate_contact (read_contact page_jo))).
Proof.
  split.
  - apply (proj1 (proj2 C8_email_rule env_nov3 (read_catering page_anna))).
    exact anna_email_shape.
  - apply (proj2 (proj1 C8_email_rule (read_contact page_jo))).
    exact bad_email_shape.
Defined.

(** *** The guests rule *)

(** C9: the guests field is parsed as an integer, with 0 when the parse
    fails; a count below 10 or above 500 fails validation with the
    guest-count message, and a count from 10 to 500 passes the rule. *)
Theorem C9_guests_rule :
  (forall doc,
     (parseInt (guests_text doc) = None -> g_guests (read_catering doc) = 0%Z) /\
     (forall z, parseInt (guests_text doc) = Some z ->
                g_guests (read_catering doc) = z)) /\
  (forall e f,
     ((g_guests f < 10 \/ 500 < g_guests f)%Z ->
      In err_guests (errors (validate_catering e f)) /\
      isValid (validate_catering e f) = false) /\
     ((10 <= g_guests f <= 500)%Z ->
      ~ In err_guests (errors (validate_catering e f)))).
Proof.
  split.
  - intro doc. unfold read_catering. cbn [g_guests]. split.
    + intros ->. reflexivity.
    + intros z ->. reflexivity.
  - intros e f. rewrite guests_listed. split.
    + intro H.
      assert (Hc : ((g_guests f =? 0)%Z || (g_guests f <? 10)%Z
                    || (500 <? g_guests f)%Z) = true).
      { rewrite !orb_true_iff, Z.eqb_eq, !Z.ltb_lt. lia. }
      split; [exact Hc|]. rewrite catering_isValid, Hc.
      rewrite !orb_true_r. reflexivity.
    + intro H. rewrite !orb_true_iff, Z.eqb_eq, !Z.ltb_lt. lia.
Qed.

Lemma C9_guests_rule_witness :
  g_guests (read_catering page_five) = 5%Z /\
  In err_guests (errors (validate_catering env_nov3 (read_catering page_five))) /\
  ~ In err_guests (errors (validate_catering env_nov3 (read_catering page_anna))).
Proof.
  split; [|split].
  - apply (proj2 (proj1 C9_guests_rule page_five)). reflexivity.
  - apply (proj1 (proj2 C9_guests_rule env_nov3 (read_catering page_five))).
    left. vm_compute. reflexivity.
  - apply (proj2 (proj2 C9_guests_rule env_nov3 (read_catering page_anna))).
    vm_compute. split; discriminate.
Defined.

(** The third example of the specification: five guests, everything else
    in order, and the guest-count message is the only one. *)
Example five_guests :
  errors (validate_catering env_nov3 (read_catering page_five)) = [err_guests] /\
  isValid (validate_catering env_nov3 (read_catering page_five)) = false.
Proof. vm_compute. split; reflexivity. Qed.

(** *** Missing fields *)

(** C10, as stated, fails on a page where an element read with [trim]
    holds a number, as a list item, a meter or a progress bar does: the
    first read of the contact handler throws, and validation is not
    reached. *)
Lemma C10_counterexample :
  Untyped.value_of Untyped.page_li (lit "contact-name")
  = Untyped.Num Untyped.three /\
  Untyped.field_trim Untyped.page_li "contact-name" = Untyped.TypeError /\
  Untyped.validated env_nov3 ContactForm Untyped.page_li = None /\
  Untyped.submit env_nov3 ContactForm Untyped.page_li
  = Threw [PreventDefault].
Proof.
  vm_compute. repeat split.
Qed.

(** C10, amended: a field that is missing or has no value is read as the
    empty string, the guests field as the number 0. A handler stops at
    an exception before validation is over exactly when one of the
    elements it reads with [trim] holds a number, and then it has done no
    more than cancel the submission; otherwise validation runs to its
    end, and when it fails the handler reaches the error branch. On the
    pages whose elements hold strings or nothing that is always so. On a
    page without any field both handlers reach the error branch with the
    messages of the rules an empty form breaks. *)
Theorem C10_missing_fields :
  (forall doc id,
     Untyped.no_value doc id ->
     Untyped.field_trim doc id = Untyped.Got [] /\
     Untyped.field doc id = Untyped.Text []) /\
  (forall doc,
     Untyped.no_value doc "guests" ->
     Untyped.guests_of (Untyped.value_of doc (lit "guests")) = 0%Z) /\
  (forall e fm doc,
     (Untyped.validated e fm doc = None <->
      exists id, In id (Untyped.trimmed_ids fm) /\
                 Untyped.holds_number doc id) /\
     (Untyped.validated e fm doc = None ->
      Untyped.submit e fm doc = Threw [PreventDefault]) /\
     (forall v,
        Untyped.validated e fm doc = Some v -> isValid v = false ->
        Untyped.submit e fm doc =
        Completed [PreventDefault; Notify (error_notification (errors v))])) /\
  (forall e fm doc,
     Untyped.validated e fm (Untyped.lift doc) = Some (validate e fm doc) /\
     Untyped.submit e fm (Untyped.lift doc) = submit e fm doc) /\
  (forall e doc,
     (forall id, Untyped.no_value doc id) ->
     Untyped.submit e ContactForm doc =
     Completed
       [PreventDefault;
        Notify (error_notification
                  [err_name; err_email; err_subject; err_message])] /\
     Untyped.submit e CateringForm doc =
     Completed
       [PreventDefault;
        Notify (error_notification
                  [err_name; err_email; err_phone_catering; err_event;
                   err_guests; err_date_required])]).
Proof.
  split; [|split; [|split; [|split]]].
  - intros doc id H. unfold Untyped.field_trim, Untyped.field.
    rewrite H. split; reflexivity.
  - intros doc H. rewrite H. reflexivity.
  - intros e fm doc. split; [|split].
    + destruct fm; cbn [Untyped.validated].
      * rewrite <- read_contact_throws.
        destruct (Untyped.read_contact doc); split; congruence.
      * rewrite <- read_catering_throws.
        destruct (Untyped.read_catering doc); split; congruence.
    + destruct fm; cbn [Untyped.validated Untyped.submit];
        unfold Untyped.contact_submit, Untyped.catering_submit.
      * destruct (Untyped.read_contact doc); [discriminate|reflexivity].
      * destruct (Untyped.read_catering doc); [discriminate|reflexivity].
    + intros v Hv Hi.
      destruct fm; cbn [Untyped.validated Untyped.submit] in *;
        unfold Untyped.contact_submit, Untyped.catering_submit.
      * destruct (Untyped.read_contact doc) as [f|]; [|discriminate].
        injection Hv as <-. cbv zeta. rewrite Hi. reflexivity.
      * destruct (Untyped.read_catering doc) as [f|]; [|discriminate].
        injection Hv as <-. cbv zeta. rewrite Hi. reflexivity.
  - intros e fm doc. split.
    + destruct fm; cbn [Untyped.validated validate].
      * unfold Untyped.read_contact.
        rewrite !field_trim_lift, !field_lift. reflexivity.
      * unfold Untyped.read_catering.
        rewrite !field_trim_lift, !field_lift, guests_lift. reflexivity.
    + destruct fm; cbn [Untyped.submit submit];
        [apply contact_agree|apply catering_agree].
  - intros e doc H. cbn [Untyped.submit].
    unfold Untyped.contact_submit, Untyped.catering_submit.
    rewrite (read_contact_bare doc H), (read_catering_bare doc H).
    split; reflexivity.
Qed.

Lemma C10_missing_fields_witness :
  (forall id, Untyped.no_value (Untyped.lift page_bare) id) /\
  Untyped.submit env_nov3 ContactForm (Untyped.lift page_bare) =
  Completed
    [PreventDefault;
     Notify (error_notification
               [err_name; err_email; err_subject; err_message])].
Proof.
  assert (H : forall id, Untyped.no_value (Untyped.lift page_bare) id)
    by (intro id; reflexivity).
  split; [exact H|].
  exact (proj1 (proj2 (proj2 (proj2 (proj2 C10_missing_fields)))
                  env_nov3 (Untyped.lift page_bare) H)).
Defined.

End FormsClaims.

(** ** Properties of the notification widget *)

Module NotifierClaims.

Import Js ReFacts Notifier Forms Spec Samples NotifierFacts.

(** C5, as stated, fails for a duration beyond the range of a timer
    delay, which the platform takes as a signed 32-bit number: a success
    notification asked to stay for 2^32 + 200 milliseconds is dismissed
    after 200 and out of the document after 500, with no press of its
    close button. *)
Lemma C5_counterexample :
  type note_far = Some (lit "success") /\
  duration note_far = Some (2 ^ 32 + 200)%Z /\
  showNotification note_far (empty_page 0) = (1%nat, page_far) /\
  run half_second page_far = Some far_after /\
  no_click 1 half_second = true /\
  clock far_after = 500%Z /\
  in_document 1 far_after = false.
Proof.
  vm_compute. repeat split.
Qed.

(** C5, amended: a notification of type error is never dismissed by a
    timer: as long as its close button is not pressed it stays displayed,
    and no removal is scheduled. A notification of any other type, or of
    no stated type, whose duration is [d], the 5000 of the default when
    none is stated, with [d] from 0 to 2^31 - 1, is displayed and
    untouched before [d] milliseconds have passed, is on its way out once
    they have, and is out of the document once [d + 300] milliseconds have
    passed. Time is that of the event loop, in which a timer fires when
    the clock reaches its due time; the clock can be brought to any later
    time without a press of a close button. *)
Theorem C5_auto_dismiss o s0 n s1 :
  well_formed_page s0 = true ->
  showNotification o s0 = (n, s1) ->
  (forall T, (clock s0 <= T)%Z ->
     exists evs s2,
       run evs s1 = Some s2 /\ no_click n evs = true /\
       clock s2 = T /\ settled s2 = true) /\
  (forall evs s2,
     run evs s1 = Some s2 -> no_click n evs = true ->
     (type o = Some (lit "error") ->
      in_document n s2 = true /\ closing n s2 = false) /\
     (forall d,
        type o <> Some (lit "error") ->
        duration o = Some d \/ (duration o = None /\ d = 5000%Z) ->
        (0 <= d < 2 ^ 31)%Z ->
        ((clock s2 < clock s0 + d)%Z ->
         in_document n s2 = true /\ closing n s2 = false) /\
        ((clock s0 + d < clock s2)%Z \/
         ((clock s0 + d <= clock s2)%Z /\ settled s2 = true) ->
         closing n s2 = true \/ in_document n s2 = false) /\
        ((clock s0 + d + 300 < clock s2)%Z \/
         ((clock s0 + d + 300 <= clock s2)%Z /\ settled s2 = true) ->
         in_document n s2 = false))).
Proof.
  intros Hwf Hshow.
  destruct (show_new o s0 n s1 Hwf Hshow) as (c & T & Hin & Ha & Htm & Hck).
  split.
  { intros T' HT.
    destruct (time_goes_on (pending_work s1) s1 T' (le_n _) (proj1 T))
      as (evs & s2 & Hrun & Hc & Hs & Hnc); [lia|].
    exists evs, s2. auto. }
  intros evs s2 Hrun Hnc. split.
  - intro Hty.
    assert (E : dismiss_timers o c n (clock s0) = []).
    { unfold dismiss_timers, type_of. rewrite Hty. reflexivity. }
    rewrite E in T.
    assert (P : persistent c n s1) by exact (conj T (conj Hin Ha)).
    apply (persistent_run c n evs s1 s2 Hrun Hnc) in P
      as (T2 & Hin2 & Ha2).
    split; [exact (present_in_document c n s2 Hin2 Ha2)|].
    destruct (closing n s2) eqn:Ec; [|reflexivity].
    apply closing_spec in Ec as (c' & t' & Hm). exfalso.
    destruct T2 as (_ & _ & _ & _ & T5 & _).
    exact (T5 _ Hm eq_refl).
  - intros d Hty Hdur Hd.
    assert (Hty' : type_of o <> lit "error").
    { unfold type_of. destruct (type o) as [t|]; [congruence|discriminate]. }
    assert (Hdur' : duration_of o = d).
    { unfold duration_of. destruct Hdur as [-> | [-> ->]]; reflexivity. }
    set (t := (clock s0 + d)%Z).
    assert (E : dismiss_timers o c n (clock s0) = [dismiss_timer c n t]).
    { unfold dismiss_timers. rewrite (type_error_dec o Hty'), Hdur'.
      rewrite (delay_in_range d Hd). reflexivity. }
    rewrite E in T, Htm.
    assert (L : lifecycle c n t s1).
    { split.
      - apply (tracked_weaken c n [dismiss_timer c n t]); [|exact T].
        intros tm [<-|[]]. left. reflexivity.
      - left. split; [exact Hin|]. split; [exact Ha|].
        split; [apply Htm; left; reflexivity|].
        intro Hm. destruct T as (_ & _ & _ & _ & T5 & _).
        destruct (T5 _ Hm eq_refl) as [E'|[]]. discriminate. }
    apply (lifecycle_run c n t evs s1 s2 Hrun Hnc) in L.
    exact (lifecycle_observed c n t s2 L).
Qed.

Lemma C5_auto_dismiss_witness :
  run [Frame; Tick 9999] page_ten = Some ten_before /\
  in_document 1 ten_before = true /\
  run [Frame; Tick 10000; Fire 0; Tick 10300; Fire 0] page_ten
  = Some ten_after /\
  in_document 1 ten_after = false /\
  run five_seconds page_success = Some success_after /\
  in_document 1 success_after = false /\
  run one_day page_error = Some error_after /\
  in_document 1 error_after = true.
Proof.
  assert (Hwf : well_formed_page (empty_page 0) = true) by reflexivity.
  assert (Ht : showNotification note_ten (empty_page 0)
               = (1%nat, page_ten)) by (vm_compute; reflexivity).
  assert (Hs : showNotification note_success (empty_page 0)
               = (1%nat, page_success)) by (vm_compute; reflexivity).
  assert (He : showNotification note_error (empty_page 0)
               = (1%nat, page_error)) by (vm_compute; reflexivity).
  assert (Hty : type note_ten <> Some (lit "error"))
    by (vm_compute; discriminate).
  assert (Hty' : type note_success <> Some (lit "error"))
    by (vm_compute; discriminate).
  assert (Hd : (0 <= 10000 < 2 ^ 31)%Z)
    by (vm_compute; split; [discriminate|reflexivity]).
  assert (Hd' : (0 <= 5000 < 2 ^ 31)%Z)
    by (vm_compute; split; [discriminate|reflexivity]).
  pose proof (proj2 (C5_auto_dismiss note_ten (empty_page 0) 1
                       page_ten Hwf Ht)) as Cten.
  pose proof (proj2 (C5_auto_dismiss note_success (empty_page 0) 1
                       page_success Hwf Hs)) as Csuccess.
  pose proof (proj2 (C5_auto_dismiss note_error (empty_page 0) 1
                       page_error Hwf He)) as Cerror.
  assert (H0 : run [Frame; Tick 9999] page_ten = Some ten_before)
    by (vm_compute; reflexivity).
  assert (H1 : run [Frame; Tick 10000; Fire 0; Tick 10300; Fire 0] page_ten
               = Some ten_after) by (vm_compute; reflexivity).
  assert (H2 : run five_seconds page_success = Some success_after)
    by (vm_compute; reflexivity).
  assert (H3 : run one_day page_error = Some error_after)
    by (vm_compute; reflexivity).
  split; [exact H0|]. split; [|split; [exact H1|split; [|split;
    [exact H2|split; [|split; [exact H3|]]]]]].
  - apply (proj1 (proj2 (Cten _ _ H0 eq_refl) 10000%Z Hty
                    (or_introl eq_refl) Hd)).
    vm_compute. reflexivity.
  - apply (proj2 (proj2 (proj2 (Cten _ _ H1 eq_refl) 10000%Z Hty
                           (or_introl eq_refl) Hd))).
    right. split; [vm_compute; discriminate|reflexivity].
  - apply (proj2 (proj2 (proj2 (Csuccess _ _ H2 eq_refl) 5000%Z Hty'
                           (or_intror (conj eq_refl eq_refl)) Hd'))).
    right. split; [vm_compute; discriminate|reflexivity].
  - apply (proj1 (Cerror _ _ H3 eq_refl)). reflexivity.
Defined.

End NotifierClaims.

(** ** Properties of the gallery lightbox *)

Module GalleryFacts.

Import Js Gallery SpecMore.

Lemma image_at_in_range images i :
  (0 <= i < Z.of_nat (length images))%Z ->
  exists img, image_at images i = Some img.
Proof.
  intro H. unfold image_at.
  replace (i <? 0)%Z with false by (symmetry; apply Z.ltb_ge; lia).
  destruct (nth_error images (Z.to_nat i)) as [img|] eqn:E; [eauto|].
  apply nth_error_None in E. lia.
Qed.

Lemma next_index_range n i :
  (0 <= i < n)%Z -> (0 <= js_rem (i + 1) n < n)%Z.
Proof.
  intro H. unfold js_rem. rewrite Z.rem_mod_nonneg by lia.
  apply Z.mod_pos_bound. lia.
Qed.

Lemma prev_index_range n i :
  (0 <= i < n)%Z -> (0 <= js_rem (i - 1 + n) n < n)%Z.
Proof.
  intro H. unfold js_rem. rewrite Z.rem_mod_nonneg by lia.
  apply Z.mod_pos_bound. lia.
Qed.

Lemma caption_of_expected img : caption_of img = expected_caption img.
Proof.
  unfold caption_of, expected_caption. destruct (alt img); reflexivity.
Qed.

(** Showing an image the index points at keeps the lightbox in order. *)
Lemma show_ok images i lb :
  (0 <= i < Z.of_nat (length images))%Z ->
  (display lb = lit "flex" <-> overflow lb = lit "hidden") ->
  exists lb',
    showLightboxImage images i (set_index i lb) = Done lb' /\
    lightbox_ok images lb' /\
    currentImageIndex lb' = i /\
    display lb' = display lb /\ overflow lb' = overflow lb.
Proof.
  intros Hi Hd. unfold showLightboxImage.
  destruct (image_at_in_range images i Hi) as [img E]. rewrite E.
  eexists. split; [reflexivity|]. cbn.
  split; [|auto]. split; [exact Hi|]. split; [exact Hd|].
  intros _. exists img. rewrite caption_of_expected. auto.
Qed.

Lemma close_ok images lb :
  (0 <= currentImageIndex lb < Z.of_nat (length images))%Z ->
  lightbox_ok images (close lb).
Proof.
  intro Hi. split; [exact Hi|]. cbn.
  split; [split; discriminate|discriminate].
Qed.

(** One event keeps the lightbox in order and raises no exception. *)
Lemma step_ok images ev lb :
  lightbox_ok images lb ->
  exists lb', gallery_step images ev lb = Done lb' /\ lightbox_ok images lb'.
Proof.
  intros (Hi & Hd & Hs).
  assert (Hprev : exists lb', prev_click images lb = Done lb' /\
                              lightbox_ok images lb').
  { unfold prev_click. cbv zeta. cbn [currentImageIndex set_index].
    destruct (show_ok images _ lb (prev_index_range _ _ Hi) Hd)
      as (lb' & E & Hok & _). eauto. }
  assert (Hnext : exists lb', next_click images lb = Done lb' /\
                              lightbox_ok images lb').
  { unfold next_click. cbv zeta. cbn [currentImageIndex set_index].
    destruct (show_ok images _ lb (next_index_range _ _ Hi) Hd)
      as (lb' & E & Hok & _). eauto. }
  assert (Hkeep : exists lb', Done lb = Done lb' /\ lightbox_ok images lb')
    by (exists lb; split; [reflexivity|exact (conj Hi (conj Hd Hs))]).
  assert (Hclose : exists lb', Done (close lb) = Done lb' /\
                               lightbox_ok images lb')
    by (eexists; split; [reflexivity|apply close_ok; exact Hi]).
  destruct ev as [index| |[|]| | |key]; cbn [gallery_step]; auto.
  - destruct (index <? length images)%nat eqn:El; [|exact Hkeep].
    apply Nat.ltb_lt in El. unfold image_click. cbv zeta.
    cbn [currentImageIndex set_index].
    assert (Hr : (0 <= Z.of_nat index < Z.of_nat (length images))%Z) by lia.
    destruct (show_ok images _ lb Hr Hd) as (lb' & E & Hok & Hi' & _).
    rewrite E. eexists. split; [reflexivity|].
    destruct Hok as (Hi2 & _ & Hs2).
    split; [exact Hi2|]. cbn. split; [tauto|].
    intros _. destruct (image_at_in_range images _ Hi2) as [img Eimg].
    unfold showLightboxImage in E.
    rewrite Hi' in Eimg. rewrite Eimg in E. injection E as <-.
    exists img. cbn. rewrite <- Hi' at 1. rewrite caption_of_expected. auto.
  - unfold keydown.
    destruct (str_eqb (display lb) (lit "flex")); [|exact Hkeep].
    destruct (str_eqb key (lit "ArrowLeft")); [exact Hprev|].
    destruct (str_eqb key (lit "ArrowRight")); [exact Hnext|].
    destruct (str_eqb key (lit "Escape")); [exact Hclose|exact Hkeep].
Qed.

Lemma new_lightbox_ok images : images <> [] -> lightbox_ok images new_lightbox.
Proof.
  intro Hne. split; [|split].
  - cbn. destruct images; [congruence|]. cbn [length]. lia.
  - cbn. split; discriminate.
  - cbn. discriminate.
Qed.

Lemma run_ok images evs :
  forall lb,
    lightbox_ok images lb ->
    gallery_raises images evs lb = false /\
    lightbox_ok images (gallery_run images evs lb).
Proof.
  induction evs as [|ev evs IH]; intros lb Hok; cbn.
  - auto.
  - destruct (step_ok images ev lb Hok) as (lb' & E & Hok').
    rewrite E. cbn. apply IH. exact Hok'.
Qed.

Lemma next_click_index images lb :
  lightbox_ok images lb ->
  exists lb',
    next_click images lb = Done lb' /\ lightbox_ok images lb' /\
    currentImageIndex lb'
    = ((currentImageIndex lb + 1) mod Z.of_nat (length images))%Z.
Proof.
  intros (Hi & Hd & Hs). unfold next_click. cbv zeta.
  cbn [currentImageIndex set_index].
  destruct (show_ok images _ lb (next_index_range _ _ Hi) Hd)
    as (lb' & E & Hok & Hi' & _).
  exists lb'. split; [exact E|]. split; [exact Hok|].
  rewrite Hi'. unfold js_rem. apply Z.rem_mod_nonneg; lia.
Qed.

Lemma prev_click_index images lb :
  lightbox_ok images lb ->
  exists lb',
    prev_click images lb = Done lb' /\ lightbox_ok images lb' /\
    currentImageIndex lb'
    = ((currentImageIndex lb - 1) mod Z.of_nat (length images))%Z.
Proof.
  intros (Hi & Hd & Hs). unfold prev_click. cbv zeta.
  cbn [currentImageIndex set_index].
  destruct (show_ok images _ lb (prev_index_range _ _ Hi) Hd)
    as (lb' & E & Hok & Hi' & _).
  exists lb'. split; [exact E|]. split; [exact Hok|].
  rewrite Hi'. unfold js_rem. rewrite Z.rem_mod_nonneg by lia.
  replace (currentImageIndex lb - 1 + Z.of_nat (length images))%Z
    with (currentImageIndex lb - 1 + 1 * Z.of_nat (length images))%Z by lia.
  apply Z.mod_add. lia.
Qed.

Lemma next_presses images k :
  forall lb,
    lightbox_ok images lb ->
    lightbox_ok images (gallery_run images (repeat NextClick k) lb) /\
    currentImageIndex (gallery_run images (repeat NextClick k) lb)
    = ((currentImageIndex lb + Z.of_nat k) mod Z.of_nat (length images))%Z.
Proof.
  induction k as [|k IH]; intros lb Hok.
  - cbn. split; [exact Hok|]. rewrite Z.add_0_r.
    symmetry. apply Z.mod_small. apply Hok.
  - cbn [repeat gallery_run gallery_step].
    destruct (next_click_index images lb Hok) as (lb' & E & Hok' & Hi').
    rewrite E. cbn [state_of].
    destruct (IH lb' Hok') as [H1 H2]. split; [exact H1|].
    rewrite H2, Hi'. rewrite Zplus_mod_idemp_l. f_equal. lia.
Qed.

Lemma prev_presses images k :
  forall lb,
    lightbox_ok images lb ->
    lightbox_ok images (gallery_run images (repeat PrevClick k) lb) /\
    currentImageIndex (gallery_run images (repeat PrevClick k) lb)
    = ((currentImageIndex lb - Z.of_nat k) mod Z.of_nat (length images))%Z.
Proof.
  induction k as [|k IH]; intros lb Hok.
  - cbn. split; [exact Hok|]. rewrite Z.sub_0_r.
    symmetry. apply Z.mod_small. apply Hok.
  - cbn [repeat gallery_run gallery_step].
    destruct (prev_click_index images lb Hok) as (lb' & E & Hok' & Hi').
    rewrite E. cbn [state_of].
    destruct (IH lb' Hok') as [H1 H2]. split; [exact H1|].
    rewrite H2, Hi'. rewrite Zminus_mod_idemp_l. f_equal. lia.
Qed.

End GalleryFacts.

(** ** Properties of the text functions and of the menu search *)

Module TextFacts.

Import Js Platform Text SpecMore PlatformFacts.

Lemma starts_with_spec t : forall s,
  starts_with s t = true <-> exists after, s = t ++ after.
Proof.
  induction t as [|b t IH]; intros s.
  - destruct s; cbn; split; eauto.
  - destruct s as [|a s]; cbn.
    + split; [discriminate|intros [x H]; discriminate].
    + rewrite andb_true_iff, N.eqb_eq, IH. split.
      * intros [-> [x ->]]. eauto.
      * intros [x [= -> ->]]. eauto.
Qed.

(** [includes] decides occurrence. *)
Lemma includes_spec t : forall s, includes s t = true <-> occurs_in t s.
Proof.
  unfold occurs_in.
  induction s as [|a s IH]; cbn [includes]; rewrite orb_true_iff, starts_with_spec.
  - split.
    + intros [[x H]|H]; [|discriminate]. exists [], x. exact H.
    + intros (p & q & H). left. destruct p; cbn in H.
      * eauto.
      * discriminate.
  - rewrite IH. split.
    + intros [[x H]|(p & q & H)].
      * exists [], x. exact H.
      * exists (a :: p), q. cbn. congruence.
    + intros ([|a' p] & q & H); cbn in H.
      * left. eauto.
      * injection H as <- ->. right. eauto.
Qed.

Lemma includes_nil s : includes s [] = true.
Proof. apply includes_spec. exists [], s. reflexivity. Qed.

Lemma includes_self s : includes s s = true.
Proof. apply includes_spec. exists [], []. cbn. symmetry. apply app_nil_r. Qed.

Lemma occurs_in_trans t1 t2 s :
  occurs_in t1 t2 -> occurs_in t2 s -> occurs_in t1 s.
Proof.
  intros (p1 & q1 & ->) (p2 & q2 & ->).
  exists (p2 ++ p1), (q1 ++ q2). rewrite <- !app_assoc. reflexivity.
Qed.

Lemma trimStart_suffix s : exists before, s = before ++ trimStart s.
Proof.
  induction s as [|c s [p IH]]; cbn.
  - exists []. reflexivity.
  - destruct (is_space c).
    + exists (c :: p). cbn. congruence.
    + exists []. reflexivity.
Qed.

Lemma trimEnd_prefix s : exists after, s = trimEnd s ++ after.
Proof.
  unfold trimEnd. destruct (trimStart_suffix (rev s)) as [p H].
  exists (rev p). rewrite <- rev_app_distr, <- H. symmetry. apply rev_involutive.
Qed.

(** [trim] keeps a piece of its argument. *)
Lemma trim_occurs s : occurs_in (trim s) s.
Proof.
  unfold trim.
  destruct (trimStart_suffix s) as [p Hp].
  destruct (trimEnd_prefix (trimStart s)) as [q Hq].
  exists p, q. rewrite <- Hq. exact Hp.
Qed.

Lemma trimStart_head s :
  match trimStart s with c :: _ => is_space c = false | [] => True end.
Proof.
  induction s as [|c s IH]; cbn; [exact I|].
  destruct (is_space c) eqn:E; [exact IH|exact E].
Qed.

Lemma trimStart_fixed s :
  match s with c :: _ => is_space c = false | [] => True end ->
  trimStart s = s.
Proof. destruct s as [|c s]; cbn; [reflexivity|intros ->; reflexivity]. Qed.

(** A trimmed text neither starts nor ends with white space. *)
Lemma trim_ends s :
  match trim s with c :: _ => is_space c = false | [] => True end /\
  match rev (trim s) with c :: _ => is_space c = false | [] => True end.
Proof.
  unfold trim, trimEnd. rewrite rev_involutive.
  set (u := trimStart s).
  split; [|apply trimStart_head].
  pose proof (trimStart_head s) as Hu. fold u in Hu.
  destruct (trimStart (rev u)) as [|c r] eqn:E; [exact I|].
  destruct u as [|a u']; [discriminate|].
  (* the first character of [a :: u'] survives the second stripping *)
  destruct (trimStart_suffix (rev (a :: u'))) as [p Hp].
  rewrite E in Hp. apply (f_equal (@rev N)) in Hp.
  rewrite rev_involutive, rev_app_distr in Hp.
  destruct (rev (c :: r)) as [|x l] eqn:Er.
  - apply (f_equal (@rev N)) in Er. rewrite rev_involutive in Er. discriminate.
  - cbn in Hp. injection Hp as -> _. exact Hu.
Qed.

Lemma trimStart_blanks a s :
  forallb is_space a = true -> trimStart (a ++ s) = trimStart s.
Proof.
  induction a as [|c a IH]; [reflexivity|]. cbn.
  intro H. apply andb_true_iff in H as [-> H]. auto.
Qed.

Lemma trimEnd_blanks s b :
  forallb is_space b = true -> trimEnd (s ++ b) = trimEnd s.
Proof.
  intro H. unfold trimEnd. rewrite rev_app_distr, trimStart_blanks;
    [reflexivity|].
  rewrite forallb_forall in *. intros x Hx. apply H, in_rev. exact Hx.
Qed.

(** White space around a text does not change what [trim] leaves of it. *)
Lemma trim_padded a s b :
  forallb is_space a = true -> forallb is_space b = true ->
  trim (a ++ s ++ b) = trim s.
Proof.
  intros Ha Hb. unfold trim. rewrite (trimStart_blanks a _ Ha).
  induction s as [|c s IH]; cbn [app].
  - rewrite <- (app_nil_r b), (trimStart_blanks b [] Hb). reflexivity.
  - cbn [trimStart]. destruct (is_space c); [exact IH|].
    exact (trimEnd_blanks (c :: s) b Hb).
Qed.

Lemma trim_idempotent s : trim (trim s) = trim s.
Proof.
  destruct (trim_ends s) as [H1 H2].
  unfold trim at 1. rewrite (trimStart_fixed _ H1).
  unfold trimEnd. rewrite (trimStart_fixed _ H2). apply rev_involutive.
Qed.

(** *** Decimal numerals *)

Lemma size_nat_bound n : (n < 2 ^ N.of_nat (N.size_nat n))%N.
Proof.
  destruct n as [|p]; [reflexivity|]. cbn [N.size_nat].
  induction p as [p IH|p IH|]; cbn [Pos.size_nat].
  - rewrite Nnat.Nat2N.inj_succ, N.pow_succ_r'.
    assert (E : (N.pos p~1 = 2 * N.pos p + 1)%N) by reflexivity. lia.
  - rewrite Nnat.Nat2N.inj_succ, N.pow_succ_r'.
    assert (E : (N.pos p~0 = 2 * N.pos p)%N) by reflexivity. lia.
  - reflexivity.
Qed.

Lemma digits_fold l : forall x,
  fold_left (fun acc c => 10 * acc + digit_val c)%Z l x
  = (x * 10 ^ Z.of_nat (length l)
     + fold_left (fun acc c => 10 * acc + digit_val c)%Z l 0)%Z.
Proof.
  induction l as [|c l IH]; intro x; cbn [fold_left length].
  - cbn. lia.
  - rewrite (IH (10 * x + digit_val c)%Z), (IH (10 * 0 + digit_val c)%Z).
    rewrite Nat2Z.inj_succ, Z.pow_succ_r by lia. lia.
Qed.

Lemma digits_val_cons c l :
  digits_val (c :: l)
  = (digit_val c * 10 ^ Z.of_nat (length l) + digits_val l)%Z.
Proof.
  unfold digits_val. cbn [fold_left]. rewrite digits_fold. lia.
Qed.

Lemma digit_char d :
  (d < 10)%N ->
  is_digit (48 + d) = true /\ digit_val (48 + d) = Z.of_N d.
Proof.
  intro H. unfold is_digit, digit_val. split.
  - apply andb_true_iff. split; apply N.leb_le; lia.
  - lia.
Qed.

Lemma decimal_aux_spec fuel : forall n acc,
  (n < 2 ^ N.of_nat fuel)%N ->
  forallb is_digit acc = true ->
  digits_val (decimal_aux fuel n acc)
  = (Z.of_N n * 10 ^ Z.of_nat (length acc) + digits_val acc)%Z /\
  forallb is_digit (decimal_aux fuel n acc) = true.
Proof.
  induction fuel as [|fuel IH]; intros n acc Hn Hacc.
  - cbn in Hn. assert (n = 0%N) by lia. subst n. cbn. auto.
  - cbn [decimal_aux]. cbv zeta.
    assert (Hd : (n mod 10 < 10)%N) by (apply N.mod_lt; discriminate).
    destruct (digit_char _ Hd) as [Hc Hv].
    pose proof (N.div_mod n 10 ltac:(discriminate)) as Hdm.
    destruct (N.eqb_spec (n / 10) 0) as [E|E].
    + split; [|cbn [forallb]; rewrite Hc, Hacc; reflexivity].
      rewrite digits_val_cons, Hv. rewrite E in Hdm.
      assert (Hz : (n mod 10 = n)%N) by lia. rewrite Hz. reflexivity.
    + rewrite Nnat.Nat2N.inj_succ, N.pow_succ_r' in Hn.
      assert (Hq : (n / 10 < 2 ^ N.of_nat fuel)%N).
      { apply N.Div0.div_lt_upper_bound. lia. }
      destruct (IH (n / 10)%N ((48 + n mod 10)%N :: acc) Hq) as [H1 H2].
      { cbn [forallb]. rewrite Hc, Hacc. reflexivity. }
      split; [|exact H2].
      rewrite H1, digits_val_cons, Hv. cbn [length].
      rewrite Nat2Z.inj_succ, Z.pow_succ_r by lia.
      assert (Hz : Z.of_N n = (10 * Z.of_N (n / 10) + Z.of_N (n mod 10))%Z)
        by lia.
      rewrite Hz. ring.
Qed.

Lemma decimal_aux_grows fuel : forall n acc,
  acc <> [] -> decimal_aux fuel n acc <> [].
Proof.
  induction fuel as [|fuel IH]; intros n acc Hacc; cbn; [exact Hacc|].
  destruct (n / 10 =? 0)%N; [discriminate|]. apply IH. discriminate.
Qed.

Lemma decimal_nonempty n : decimal n <> [].
Proof.
  unfold decimal. cbn [decimal_aux]. cbv zeta.
  destruct (n / 10 =? 0)%N; [discriminate|].
  apply decimal_aux_grows. discriminate.
Qed.

(** The numeral of [n] is made of digits and has the value [n]. *)
Lemma decimal_spec n :
  forallb is_digit (decimal n) = true /\ digits_val (decimal n) = Z.of_N n.
Proof.
  unfold decimal.
  assert (Hn : (n < 2 ^ N.of_nat (S (N.size_nat n)))%N).
  { pose proof (size_nat_bound n).
    rewrite Nnat.Nat2N.inj_succ, N.pow_succ_r'. lia. }
  destruct (decimal_aux_spec (S (N.size_nat n)) n [] Hn eq_refl) as [H1 H2].
  split; [exact H2|]. rewrite H1. cbn. lia.
Qed.

(** The numeral of a number other than zero does not start with a zero. *)
Lemma decimal_aux_head fuel : forall n acc,
  (n < 2 ^ N.of_nat fuel)%N -> (0 < n)%N ->
  hd 0%N (decimal_aux fuel n acc) <> 48%N.
Proof.
  induction fuel as [|fuel IH]; intros n acc Hn Hpos.
  - cbn in Hn. lia.
  - cbn [decimal_aux]. cbv zeta.
    pose proof (N.div_mod n 10 ltac:(discriminate)) as Hdm.
    destruct (N.eqb_spec (n / 10) 0) as [E|E].
    + cbn [hd]. rewrite E in Hdm. lia.
    + rewrite Nnat.Nat2N.inj_succ, N.pow_succ_r' in Hn.
      apply IH; [|apply N.neq_0_lt_0; exact E].
      apply N.Div0.div_lt_upper_bound. lia.
Qed.

Lemma decimal_head n : (0 < n)%N -> hd 0%N (decimal n) <> 48%N.
Proof.
  intro Hpos. unfold decimal. apply decimal_aux_head; [|exact Hpos].
  pose proof (size_nat_bound n).
  rewrite Nnat.Nat2N.inj_succ, N.pow_succ_r'. lia.
Qed.

(** Reading a numeral back gives the number. *)
Lemma parseInt_decimal n : parseInt (decimal n) = Some (Z.of_N n).
Proof.
  destruct (decimal_spec n) as [Hd Hv].
  rewrite (parseInt_digits (decimal n) (decimal_nonempty n) Hd), Hv.
  f_equal. lia.
Qed.

End TextFacts.

Module MenuFacts.

Import Js Text Menu SpecMore TextFacts.

Lemma nth_error_map_inv {A B} (f : A -> B) l n y :
  nth_error (map f l) n = Some y ->
  exists x, nth_error l n = Some x /\ f x = y.
Proof.
  rewrite nth_error_map. destruct (nth_error l n) as [x|]; cbn; [|discriminate].
  intros [= <-]. eauto.
Qed.

Section Search.

Variable lower : str -> str.

Lemma visit_items term cat : forall displays count has,
  fold_left (visit_item lower term) cat (displays, count, has)
  = (displays ++ map (shown lower term) cat,
     (count + length (filter (matches lower term) cat))%nat,
     has || existsb (matches lower term) cat).
Proof.
  induction cat as [|it cat IH]; intros displays count has; cbn.
  - rewrite app_nil_r, Nat.add_0_r, orb_false_r. reflexivity.
  - unfold shown at 1. destruct (matches lower term it); rewrite IH.
    + rewrite <- app_assoc. cbn. rewrite orb_true_r.
      f_equal. f_equal. lia.
    + rewrite <- app_assoc. reflexivity.
Qed.

Lemma visit_categories term menu : forall views count,
  fold_left (visit_category lower term) menu (views, count)
  = (views ++ map (filtered lower term) menu,
     (count + match_count lower term menu)%nat).
Proof.
  unfold match_count.
  induction menu as [|cat menu IH]; intros views count; cbn.
  - rewrite app_nil_r, Nat.add_0_r. reflexivity.
  - rewrite visit_items, IH. rewrite <- app_assoc. cbn.
    rewrite filter_app, length_app. f_equal. lia.
Qed.

(** The two nested loops compute the filter. *)
Lemma search_spec menu term line :
  search lower menu term line
  = (map (filtered lower term) menu, match_count lower term menu,
     count_message term (match_count lower term menu) line).
Proof.
  unfold search. rewrite visit_categories. reflexivity.
Qed.

Lemma flex_count term cat :
  count_occ (list_eq_dec N.eq_dec) (map (shown lower term) cat) (lit "flex")
  = length (filter (matches lower term) cat).
Proof.
  induction cat as [|it cat IH]; [reflexivity|]. cbn [map filter].
  unfold shown at 1. destruct (matches lower term it).
  - rewrite count_occ_cons_eq by reflexivity. cbn [length]. f_equal. exact IH.
  - rewrite count_occ_cons_neq by discriminate. exact IH.
Qed.

Lemma flex_count_menu term menu :
  count_occ (list_eq_dec N.eq_dec)
    (concat (map item_displays (map (filtered lower term) menu)))
    (lit "flex")
  = match_count lower term menu.
Proof.
  unfold match_count.
  induction menu as [|cat menu IH]; [reflexivity|]. cbn [map concat].
  rewrite count_occ_app, filter_app, length_app.
  f_equal; [apply flex_count|exact IH].
Qed.

Lemma matches_narrow t1 t2 it :
  occurs_in t1 t2 -> matches lower t2 it = true -> matches lower t1 it = true.
Proof.
  unfold matches. intros Ht. rewrite !orb_true_iff, !includes_spec.
  intros [H|H]; [left|right]; exact (occurs_in_trans _ _ _ Ht H).
Qed.

Lemma filter_narrow t1 t2 (l : list item) :
  occurs_in t1 t2 ->
  (length (filter (matches lower t2) l)
   <= length (filter (matches lower t1) l))%nat.
Proof.
  intro Ht. induction l as [|it l IH]; [apply le_n|]. cbn.
  destruct (matches lower t2 it) eqn:E2.
  - rewrite (matches_narrow t1 t2 it Ht E2). cbn. lia.
  - destruct (matches lower t1 it); cbn; lia.
Qed.

End Search.

End MenuFacts.

(** ** Properties of the link encoding *)

Module UriFacts.

Import Js Platform Forms Uri SpecMore.

Lemma unreserved_ascii c : unreserved c = true -> (c < 128)%N.
Proof.
  unfold unreserved, is_alpha, is_digit. cbn [existsb].
  rewrite !orb_true_iff, !andb_true_iff, !N.leb_le, !N.eqb_eq.
  unfold ch. cbn. intuition (try lia; try discriminate).
Qed.

Lemma unreserved_not_surrogate c :
  unreserved c = true -> is_high c = false /\ is_low c = false.
Proof.
  intro H. apply unreserved_ascii in H. unfold is_high, is_low.
  split; apply andb_false_iff; left; apply N.leb_gt; lia.
Qed.

Lemma hex_digit_unreserved d : (d < 16)%N -> unreserved (hex_digit d) = true.
Proof.
  intro H. unfold hex_digit, unreserved, is_alpha, is_digit.
  destruct (N.ltb_spec d 10).
  - replace ((48 <=? 48 + d) && (48 + d <=? 57))%N with true.
    + rewrite orb_true_r. reflexivity.
    + symmetry. apply andb_true_iff. split; apply N.leb_le; lia.
  - replace ((65 <=? 55 + d) && (55 + d <=? 90))%N with true; [reflexivity|].
    symmetry. apply andb_true_iff. split; apply N.leb_le; lia.
Qed.

Lemma escape_safe octet : forallb uri_safe (escape octet) = true.
Proof.
  unfold escape. cbn [forallb]. unfold uri_safe at 1.
  rewrite N.eqb_refl, orb_true_r. unfold uri_safe.
  rewrite !hex_digit_unreserved; [reflexivity| |];
    apply N.mod_lt; discriminate.
Qed.

Lemma escape_code_point_safe cp : forallb uri_safe (escape_code_point cp) = true.
Proof.
  unfold escape_code_point. induction (utf8 cp) as [|b l IH]; [reflexivity|].
  cbn [flat_map]. rewrite forallb_app, escape_safe, IH. reflexivity.
Qed.

(** Induction on the length of a text. *)
Lemma pairs_ind (P : str -> Prop) :
  (forall s, (forall s', (length s' < length s)%nat -> P s') -> P s) ->
  forall s, P s.
Proof.
  intros H s. remember (length s) as n eqn:En. revert s En.
  induction n as [n IH] using lt_wf_ind. intros s ->.
  apply H. intros s' Hlt. exact (IH _ Hlt s' eq_refl).
Qed.

(** The encoding throws exactly on the texts with a lone surrogate. *)
Lemma encode_defined s :
  encodeURIComponent s = None <-> well_formed s = false.
Proof.
  induction s as [s IH] using pairs_ind.
  destruct s as [|c s']; [cbn; split; discriminate|].
  cbn [encodeURIComponent well_formed].
  assert (Hopt : forall (f : str -> str) (o : option str),
             option_map f o = None <-> o = None)
    by (intros f [x|]; cbn; split; congruence).
  destruct (unreserved c) eqn:Eu.
  - destruct (unreserved_not_surrogate c Eu) as [-> ->].
    rewrite Hopt. apply IH. cbn. lia.
  - destruct (is_high c).
    + destruct s' as [|d s'']; [tauto|].
      destruct (is_low d); cbn [andb]; [|tauto].
      rewrite Hopt. apply IH. cbn. lia.
    + destruct (is_low c); [tauto|].
      rewrite Hopt. apply IH. cbn. lia.
Qed.

(** The encoding yields safe characters only. *)
Lemma encode_safe s : forall r,
  encodeURIComponent s = Some r -> forallb uri_safe r = true.
Proof.
  induction s as [s IH] using pairs_ind. intros r.
  destruct s as [|c s']; [intros [= <-]; reflexivity|].
  cbn [encodeURIComponent].
  assert (Hmap : forall (p : str) (o : option str),
             option_map (app p) o = Some r ->
             forallb uri_safe p = true ->
             (forall r', o = Some r' -> forallb uri_safe r' = true) ->
             forallb uri_safe r = true).
  { intros p [x|]; cbn; [|discriminate]. intros [= <-] Hp Hx.
    rewrite forallb_app, Hp, (Hx x eq_refl). reflexivity. }
  destruct (unreserved c) eqn:Eu.
  - intro H. apply (Hmap [c] (encodeURIComponent s') H).
    + cbn. unfold uri_safe. rewrite Eu. reflexivity.
    + apply IH. cbn. lia.
  - destruct (is_high c).
    + destruct s' as [|d s'']; [discriminate|].
      destruct (is_low d); [|discriminate].
      intro H. apply (Hmap _ _ H (escape_code_point_safe _)).
      apply IH. cbn. lia.
    + destruct (is_low c); [discriminate|].
      intro H. apply (Hmap _ _ H (escape_code_point_safe _)).
      apply IH. cbn. lia.
Qed.

(** Text made of unreserved characters is left as it is. *)
Lemma encode_unreserved s :
  forallb unreserved s = true -> encodeURIComponent s = Some s.
Proof.
  induction s as [|c s IH]; [reflexivity|]. cbn.
  intro H. apply andb_true_iff in H as [Hc Hs].
  rewrite Hc, (IH Hs). reflexivity.
Qed.

Lemma safe_count (c : N) r :
  uri_safe c = false -> forallb uri_safe r = true ->
  count_occ N.eq_dec r c = 0%nat.
Proof.
  intros Hc Hr. apply count_occ_not_In. intro Hin.
  rewrite forallb_forall in Hr. specialize (Hr c Hin). congruence.
Qed.

(** A text without surrogates in front of another is encoded piece by
    piece. *)
Lemma encode_app_plain p s :
  forallb (fun c => negb (is_high c) && negb (is_low c)) p = true ->
  exists p',
    encodeURIComponent p = Some p' /\
    encodeURIComponent (p ++ s) = option_map (app p') (encodeURIComponent s).
Proof.
  induction p as [|c p IH]; intro H.
  - exists []. split; [reflexivity|]. cbn [app].
    destruct (encodeURIComponent s); reflexivity.
  - cbn [forallb] in H. apply andb_true_iff in H as [Hc Hp].
    apply andb_true_iff in Hc as [Hh Hl].
    apply negb_true_iff in Hh, Hl.
    destruct (IH Hp) as (p' & E1 & E2).
    cbn [app encodeURIComponent]. rewrite Hh, Hl, E1, E2.
    destruct (unreserved c).
    + exists (c :: p'). split; [reflexivity|].
      destruct (encodeURIComponent s); reflexivity.
    + exists (escape_code_point c ++ p'). split; [reflexivity|].
      destruct (encodeURIComponent s); cbn; [rewrite app_assoc|]; reflexivity.
Qed.

End UriFacts.

(** ** Properties of the mobile menu toggle *)

Module NavFacts.

Import Js Nav.

Lemma clicks_spec k : forall t,
  nav_mobile_active (clicks k t) = xorb (nav_mobile_active t) (Nat.odd k) /\
  button_active (clicks k t) = xorb (button_active t) (Nat.odd k) /\
  ((1 <= k)%nat ->
   innerHTML (clicks k t)
   = if nav_mobile_active (clicks k t) then label_close else label_menu).
Proof.
  induction k as [|k IH]; intro t.
  - cbn. rewrite !xorb_false_r. repeat split. lia.
  - cbn [clicks]. destruct (IH (toggle_click t)) as (H1 & H2 & H3).
    rewrite Nat.odd_succ, <- Nat.negb_odd.
    split; [|split].
    + rewrite H1. cbn. destruct (nav_mobile_active t), (Nat.odd k); reflexivity.
    + rewrite H2. cbn. destruct (button_active t), (Nat.odd k); reflexivity.
    + intros _. destruct k as [|k']; [reflexivity|]. apply H3. lia.
Qed.

End NavFacts.

(** ** More on the submit handlers *)

Module HandlerFacts.

Import Js Platform Re ReFacts Notifier Forms Spec PatternFacts FormsFacts.
Import Text Uri SpecMore TextFacts UriFacts PlatformFacts.

Ltac in_cases H :=
  cbn [In] in H; repeat (destruct H as [H|H]);
  try discriminate H; try contradiction.

Lemma truthy_true s : truthy s = true <-> s <> [].
Proof. destruct s; cbn; split; congruence. Qed.

Lemma uri_safe_not_space c : uri_safe c = true -> is_space c = false.
Proof.
  unfold uri_safe. rewrite orb_true_iff, N.eqb_eq. intro H.
  assert (Hr : (33 <= c < 128)%N).
  { destruct H as [H| ->]; [|unfold ch; cbn; lia].
    pose proof (unreserved_ascii c H) as Hlt. split; [|exact Hlt].
    revert H. unfold unreserved, is_alpha, is_digit. cbn [existsb].
    rewrite !orb_true_iff, !andb_true_iff, !N.leb_le, !N.eqb_eq.
    unfold ch. cbn. intuition (try lia; try discriminate). }
  unfold is_space. apply orb_false_iff. split.
  - cbn [existsb]. repeat (apply orb_false_iff; split);
      try reflexivity; apply N.eqb_neq; lia.
  - apply andb_false_iff. left. apply N.leb_gt. lia.
Qed.

Lemma safe_no_space r :
  forallb uri_safe r = true -> forallb (fun c => negb (is_space c)) r = true.
Proof.
  rewrite !forallb_forall. intros H c Hc.
  rewrite (uri_safe_not_space c (H c Hc)). reflexivity.
Qed.

(** The 7-day advice: [Math.ceil(x / day) < 7] says [x <= 6 days]. *)
Lemma days_between_lt_7 t today :
  num_lt (days_between (Some t) today) 7 = true
  <-> (t <= today + 6 * msPerDay)%Z.
Proof.
  cbn [days_between num_lt]. rewrite Z.ltb_lt. unfold msPerDay.
  pose proof (Z.div_mod (- (t - today)) 86400000 ltac:(lia)) as Hdm.
  pose proof (Z.mod_pos_bound (- (t - today)) 86400000 ltac:(lia)) as Hb.
  lia.
Qed.

Lemma advice_listed e f :
  In advice_week (errors (validate_catering e f)) <->
  g_date f <> [] /\
  exists t, Date_parse e (g_date f) = Some t /\
            (t <= today_midnight e + 6 * msPerDay)%Z.
Proof.
  rewrite catering_errors. rule_messages. unfold date_errors.
  rewrite <- truthy_true.
  destruct (truthy (g_date f)); cbn [negb].
  - rule_messages.
    destruct (Date_parse e (g_date f)) as [t|].
    + rewrite days_between_lt_7. split.
      * intros [[]|[[]|[[]|[[]|[[]|[[]|H]]]]]]. split; [reflexivity|eauto].
      * intros [_ (t' & [= <-] & H)]. tauto.
    + cbn. split; [intuition discriminate|].
      intros [_ (t' & H & _)]. discriminate.
  - change [err_date_required] with (when true err_date_required).
    rule_messages. split; [tauto|]. intros [H _]. congruence.
Qed.

Lemma all_space_trim s : forallb is_space s = true -> trim s = [].
Proof.
  intro H. unfold trim.
  assert (E : trimStart s = []).
  { induction s as [|c s IH]; [reflexivity|]. cbn in H |- *.
    apply andb_true_iff in H as [-> H]. auto. }
  rewrite E. reflexivity.
Qed.

(** The date-only parser answers with midnight UTC of a day. *)
Lemma iso_date_midnight s t :
  iso_date_parse s = Some t -> exists day, t = (day * msPerDay)%Z.
Proof.
  unfold iso_date_parse.
  destruct s as [|y1 [|y2 [|y3 [|y4 [|h1 [|m1 [|m2 [|h2 [|d1 [|d2 [|x s]]]]]]]]]]];
    try discriminate.
  destruct (_ && _); [|discriminate].
  destruct (_ && _); [|discriminate].
  intros [= <-]. eauto.
Qed.

Lemma field_trim_value doc id v :
  value_of doc (lit id) = Some v -> field_trim doc id = trim v.
Proof.
  intro H. unfold field_trim, opt_trim. rewrite H. cbn [option_map or_str].
  destruct (trim v); reflexivity.
Qed.

Lemma field_trim_missing doc id :
  value_of doc (lit id) = None -> field_trim doc id = [].
Proof. intro H. unfold field_trim, opt_trim. rewrite H. reflexivity. Qed.

Lemma date_fails_false e date :
  date_fails e date = false <->
  date <> [] /\
  forall t, Date_parse e date = Some t -> (today_midnight e <= t)%Z.
Proof.
  unfold date_fails. rewrite <- truthy_true.
  destruct (truthy date); cbn [negb].
  - destruct (Date_parse e date) as [t|]; cbn [date_lt].
    + rewrite Z.ltb_ge. split.
      * intro H. split; [reflexivity|]. intros t' [= <-]. exact H.
      * intros [_ H]. apply H. reflexivity.
    + split; [|reflexivity]. intros _. split; [reflexivity|discriminate].
  - split; [discriminate|]. intros [H _]. congruence.
Qed.

End HandlerFacts.

(** ** More on the notification widget *)

Module NotifierMore.

Import Js ReFacts Notifier Spec SpecMore NotifierFacts.

Lemma sound_page_spec s :
  sound_page s = true ->
  well_formed_page s = true /\
  forall c n, In (c, n) (created s) -> (n < next_node s)%nat.
Proof.
  unfold sound_page. rewrite andb_true_iff, forallb_forall.
  intros [H1 H2]. split; [exact H1|]. intros c n Hin.
  apply Nat.ltb_lt. exact (H2 (c, n) Hin).
Qed.

(** The book-keeping of close buttons. *)
Lemma show_created o s n s' :
  showNotification o s = (n, s') ->
  exists c, attached s' = Some c /\ created s' = created s ++ [(c, n)].
Proof.
  unfold showNotification.
  destruct (attached s) as [a|] eqn:Ea;
    destruct (negb (str_eqb (type_of o) (lit "error")));
    cbn; intros [= <- <-]; cbn; eauto.
Qed.

Lemma removal_created c n s : created (removal c n s) = created s.
Proof.
  unfold removal. destruct (memb n (children s c)); [|reflexivity].
  cbv zeta. set (s1 := set_children c (without n (children s c)) s).
  destruct (children s1 c); [|reflexivity].
  destruct (attached s1) as [a|]; [|reflexivity].
  destruct (Nat.eqb a c); reflexivity.
Qed.

Lemma event_created ev s s' :
  do_event ev s = Some s' ->
  created s' = created s \/
  exists o n c, ev = Show o /\ showNotification o s = (n, s') /\
                created s' = created s ++ [(c, n)].
Proof.
  destruct ev as [t|i| |o|c m]; cbn.
  - destruct (_ && _); [|discriminate]. intros [= <-]. left. reflexivity.
  - destruct (nth_error (timers s) i) as [tm|]; [|discriminate].
    destruct (due tm <=? clock s)%Z; [|discriminate]. intros [= <-]. left.
    destruct (cb tm) as [c n|c n]; cbn [run_callback].
    + unfold auto_dismiss. destruct (memb n _); reflexivity.
    + rewrite removal_created. reflexivity.
  - intros [= <-]. left. reflexivity.
  - intros [= <-]. right.
    destruct (showNotification o s) as [n s1] eqn:E. cbn [snd].
    destruct (show_created o s n s1 E) as (c & _ & Hc). eauto 6.
  - destruct (existsb _ _); [|discriminate]. intros [= <-]. left. reflexivity.
Qed.

Lemma in_created c n l :
  existsb (pair_eqb (c, n)) l = true <-> In (c, n) l.
Proof.
  rewrite existsb_exists. unfold pair_eqb. split.
  - intros ([c' n'] & Hin & E). cbn in E.
    apply andb_true_iff in E as [E1 E2].
    apply Nat.eqb_eq in E1, E2. subst. exact Hin.
  - intro Hin. exists (c, n). split; [exact Hin|]. cbn.
    rewrite !Nat.eqb_refl. reflexivity.
Qed.

Lemma tracked_self c n own s :
  tracked c n own s -> tracked c n (timers s) s.
Proof.
  intros (T1 & T2 & T3 & T4 & T5 & T6). repeat split; auto.
Qed.

Section Homed.

Variables (c n : nat).

Lemma homed_drop i s :
  homed c n s -> homed c n (set_timers (drop_nth i (timers s)) s).
Proof.
  intros (T & Hc & Hb). split; [|split].
  - apply (tracked_self c n (timers s)). apply tracked_drop. exact T.
  - intros tm Hm. cbn in Hm. apply In_drop_nth in Hm. auto.
  - exact Hb.
Qed.

Lemma homed_click s : homed c n s -> homed c n (close_click c n s).
Proof.
  intros (T & Hc & Hb). split; [|split].
  - apply (tracked_self c n
             (timers s ++ [{| due := (clock s + 300)%Z; cb := Removal c n |}])).
    apply tracked_close_click.
    + intros _. apply in_app_iff. right. left. reflexivity.
    + apply (tracked_weaken c n (timers s)); [|exact T].
      intros tm Hm. apply in_app_iff. left. exact Hm.
  - rewrite close_click_timers. intros tm Hm E.
    apply in_app_iff in Hm as [Hm|[<-|[]]]; [auto|]. right. reflexivity.
  - exact Hb.
Qed.

Lemma homed_removal s : homed c n s -> homed c n (removal c n s).
Proof.
  intros (T & Hc & Hb). split; [|split].
  - apply (tracked_self c n (timers s)). apply tracked_removal. exact T.
  - rewrite removal_timers. exact Hc.
  - rewrite removal_created. exact Hb.
Qed.

(** An event about another node. *)
Lemma homed_other ev s s' :
  homed c n s -> do_event ev s = Some s' -> about n ev s = false ->
  homed c n s' /\ kept c n s s'.
Proof.
  intros (T & Hc & Hb) Hev Hab.
  destruct (other_event c n (timers s) ev s s' T Hev Hab) as [T' K].
  split; [|exact K]. split; [|split].
  - exact (tracked_self c n _ s' T').
  - intros tm Hm E. apply Hc; [|exact E].
    apply (proj2 (proj2 (proj2 K)) tm E). exact Hm.
  - intros c' Hin.
    destruct (event_created ev s s' Hev) as [E|(o & n' & cc & -> & Hs & E)];
      rewrite E in Hin; [auto|].
    apply in_app_iff in Hin as [Hin|[Hin|[]]]; [auto|].
    injection Hin as -> ->. exfalso.
    destruct T as (_ & T2 & _ & _ & _ & T6).
    apply (show_spec o s n s' T6) in Hs as (x & _ & _ & Hn & _). lia.
Qed.

(** Every event keeps a notification with its container. *)
Lemma homed_step ev s s' :
  homed c n s -> do_event ev s = Some s' -> homed c n s'.
Proof.
  intros H Hev. destruct (about n ev s) eqn:Hab;
    [|exact (proj1 (homed_other ev s s' H Hev Hab))].
  destruct ev as [t|i| |o|c' m]; cbn in Hab, Hev; try discriminate.
  - destruct (nth_error (timers s) i) as [tm|] eqn:En; [|discriminate].
    destruct (due tm <=? clock s)%Z; [|discriminate]. injection Hev as <-.
    apply Nat.eqb_eq in Hab.
    pose proof (homed_drop i s H) as Hm.
    destruct H as (_ & Hc & _).
    destruct (Hc tm (nth_error_In _ _ En) Hab) as [-> | ->];
      cbn [run_callback].
    + unfold auto_dismiss. destruct (memb n _); [|exact Hm].
      apply homed_click. exact Hm.
    + apply homed_removal. exact Hm.
  - destruct (existsb _ _) eqn:Ex; [|discriminate]. injection Hev as <-.
    apply Nat.eqb_eq in Hab. subst m. apply in_created in Ex.
    rewrite (proj2 (proj2 H) c' Ex). apply homed_click. exact H.
Qed.

Lemma homed_run evs : forall s s',
  homed c n s -> run evs s = Some s' -> homed c n s'.
Proof.
  induction evs as [|ev evs IH]; intros s s' H Hrun; cbn in Hrun.
  - injection Hrun as <-. exact H.
  - destruct (do_event ev s) as [s1|] eqn:Hev; [|discriminate].
    exact (IH s1 s' (homed_step ev s s1 H Hev) Hrun).
Qed.

(** Once a removal is scheduled, nothing takes it back. *)
Lemma way_out_step r ev s s' :
  homed c n s -> do_event ev s = Some s' ->
  on_its_way_out c n r s -> on_its_way_out c n r s'.
Proof.
  intros H Hev W. destruct (about n ev s) eqn:Hab.
  - destruct ev as [t|i| |o|c' m]; cbn in Hab, Hev; try discriminate.
    + destruct (nth_error (timers s) i) as [tm|] eqn:En; [|discriminate].
      destruct (due tm <=? clock s)%Z; [|discriminate]. injection Hev as <-.
      apply Nat.eqb_eq in Hab.
      destruct (proj1 (proj2 H) tm (nth_error_In _ _ En) Hab) as [E|E];
        rewrite E; cbn [run_callback].
      * assert (Hkeep : on_its_way_out c n r
                          (set_timers (drop_nth i (timers s)) s)).
        { destruct W as [(W1 & W2 & W3)|W]; [left|right; exact W].
          split; [exact W1|]. split; [exact W2|].
          apply (In_drop_nth_other _ tm (timers s) i W3 En).
          intro Heq. rewrite <- Heq in E. discriminate. }
        unfold auto_dismiss. destruct (memb n _); [|exact Hkeep].
        destruct Hkeep as [(W1 & W2 & W3)|W']; [left|right; exact W'].
        split; [exact W1|]. split; [exact W2|].
        rewrite close_click_timers. apply in_app_iff. left. exact W3.
      * right. rewrite removal_children, Nat.eqb_refl. intro Hin.
        apply In_without in Hin as [_ Hin]. congruence.
    + destruct (existsb _ _); [|discriminate]. injection Hev as <-.
      destruct W as [(W1 & W2 & W3)|W]; [left|right; exact W].
      split; [exact W1|]. split; [exact W2|].
      rewrite close_click_timers. apply in_app_iff. left. exact W3.
  - destruct (homed_other ev s s' H Hev Hab) as [_ (K1 & K2 & K3 & K4)].
    destruct W as [(W1 & W2 & W3)|W]; [left|right; auto].
    destruct (K2 W1 W2) as [A B]. split; [exact A|]. split; [exact B|].
    apply K4; [reflexivity|exact W3].
Qed.

Lemma way_out_run r evs : forall s s',
  homed c n s -> run evs s = Some s' ->
  on_its_way_out c n r s -> on_its_way_out c n r s'.
Proof.
  induction evs as [|ev evs IH]; intros s s' H Hrun W; cbn in Hrun.
  - injection Hrun as <-. exact W.
  - destruct (do_event ev s) as [s1|] eqn:Hev; [|discriminate].
    exact (IH s1 s' (homed_step ev s s1 H Hev) Hrun
             (way_out_step r ev s s1 H Hev W)).
Qed.

(** Events that are not about [n] leave it displayed. *)
Lemma untouched_run evs : forall s s',
  homed c n s -> run evs s = Some s' -> none_about n evs s = true ->
  In n (children s c) -> attached s = Some c ->
  In n (children s' c) /\ attached s' = Some c /\
  forall tm, node_of (cb tm) = n -> (In tm (timers s') <-> In tm (timers s)).
Proof.
  induction evs as [|ev evs IH]; intros s s' H Hrun Hna Hin Ha; cbn in Hrun.
  - injection Hrun as <-. repeat split; auto.
  - cbn in Hna. destruct (do_event ev s) as [s1|] eqn:Hev; [|discriminate].
    apply andb_true_iff in Hna as [Hab Hna]. apply negb_true_iff in Hab.
    destruct (homed_other ev s s1 H Hev Hab) as [H1 (K1 & K2 & K3 & K4)].
    destruct (K2 Hin Ha) as [A B].
    destruct (IH s1 s' H1 Hrun Hna A B) as (R1 & R2 & R3).
    split; [exact R1|]. split; [exact R2|].
    intros tm E. rewrite (R3 tm E). apply K4. exact E.
Qed.

End Homed.

(** The page right after [showNotification], from a sound page. *)
Lemma show_homed o s0 n s1 :
  sound_page s0 = true -> showNotification o s0 = (n, s1) ->
  exists c,
    homed c n s1 /\ In n (children s1 c) /\ attached s1 = Some c /\
    In (c, n) (created s1).
Proof.
  intros Hs E. apply sound_page_spec in Hs as [Hwf Hcr].
  destruct (show_new o s0 n s1 Hwf E) as (c & T & Hin & Ha & Htm & Hck).
  destruct (show_created o s0 n s1 E) as (c' & Ha' & Hc').
  rewrite Ha in Ha'. injection Ha' as <-.
  pose proof (well_formed_page_spec s0 Hwf) as (_ & _ & _ & W4).
  destruct (show_spec o s0 n s1 W4 E) as (x & _ & _ & Hn & _).
  exists c. split; [|split; [exact Hin|split; [exact Ha|]]].
  - split; [exact (tracked_self c n _ s1 T)|]. split.
    + intros tm Hm En. destruct T as (_ & _ & _ & _ & T5 & _).
      specialize (T5 tm Hm En). unfold dismiss_timers in T5.
      destruct (negb _); [|contradiction].
      destruct T5 as [<-|[]]. left. reflexivity.
    + intros c'' Hin'. rewrite Hc' in Hin'.
      apply in_app_iff in Hin' as [Hin'|[Hin'|[]]].
      * apply Hcr in Hin'. lia.
      * congruence.
  - rewrite Hc'. apply in_app_iff. right. left. reflexivity.
Qed.

(** *** Sound pages *)

Lemma sound_page_intro s :
  timely s = true ->
  (forall tm, In tm (timers s) -> (node_of (cb tm) < next_node s)%nat) ->
  (forall c' m, (c' < next_node s)%nat -> In m (children s c') ->
                (m < next_node s)%nat) ->
  (forall a, attached s = Some a -> (a < next_node s)%nat) ->
  (forall c n, In (c, n) (created s) -> (n < next_node s)%nat) ->
  sound_page s = true.
Proof.
  intros H1 H2 H3 H4 H5. unfold sound_page, well_formed_page.
  rewrite !andb_true_iff. repeat split.
  - exact H1.
  - apply forallb_forall. intros tm Hm. apply Nat.ltb_lt. auto.
  - apply forallb_forall. intros c' Hc. apply in_seq in Hc.
    apply forallb_forall. intros m Hm. apply Nat.ltb_lt.
    apply (H3 c'); [lia|exact Hm].
  - destruct (attached s) as [a|]; [|reflexivity]. apply Nat.ltb_lt. auto.
  - apply forallb_forall. intros [c n] Hin. apply Nat.ltb_lt. cbn.
    exact (H5 c n Hin).
Qed.

Lemma sound_page_parts s :
  sound_page s = true ->
  timely s = true /\
  (forall tm, In tm (timers s) -> (node_of (cb tm) < next_node s)%nat) /\
  (forall c' m, (c' < next_node s)%nat -> In m (children s c') ->
                (m < next_node s)%nat) /\
  (forall a, attached s = Some a -> (a < next_node s)%nat) /\
  (forall c n, In (c, n) (created s) -> (n < next_node s)%nat).
Proof.
  intro H. apply sound_page_spec in H as [Hwf H5].
  apply well_formed_page_spec in Hwf as (H1 & H2 & H3 & H4). auto.
Qed.

Lemma removal_next c n s : next_node (removal c n s) = next_node s.
Proof.
  unfold removal. destruct (memb n (children s c)); [|reflexivity].
  cbv zeta. set (s1 := set_children c (without n (children s c)) s).
  destruct (children s1 c); [|reflexivity].
  destruct (attached s1) as [a|]; [|reflexivity].
  destruct (Nat.eqb a c); reflexivity.
Qed.

Lemma removal_attached_cases c n s :
  attached (removal c n s) = attached s \/ attached (removal c n s) = None.
Proof.
  unfold removal. destruct (memb n (children s c)); [|left; reflexivity].
  cbv zeta. set (s1 := set_children c (without n (children s c)) s).
  destruct (children s1 c); [|left; reflexivity].
  destruct (attached s1) as [a|] eqn:E; [|left; reflexivity].
  destruct (Nat.eqb a c); [right; reflexivity|left; reflexivity].
Qed.

Lemma sound_close_click c n s :
  sound_page s = true -> (n < next_node s)%nat ->
  sound_page (close_click c n s) = true.
Proof.
  intros H Hn. apply sound_page_parts in H as (H1 & H2 & H3 & H4 & H5).
  apply sound_page_intro; try assumption.
  - apply timely_spec. rewrite close_click_timers. intros tm Hm.
    apply in_app_iff in Hm as [Hm|[<-|[]]].
    + exact (proj1 (timely_spec s) H1 tm Hm).
    + cbn. lia.
  - rewrite close_click_timers. intros tm Hm.
    apply in_app_iff in Hm as [Hm|[<-|[]]]; [exact (H2 tm Hm)|exact Hn].
Qed.

Lemma sound_removal c n s :
  sound_page s = true -> sound_page (removal c n s) = true.
Proof.
  intros H. apply sound_page_parts in H as (H1 & H2 & H3 & H4 & H5).
  apply sound_page_intro.
  - apply timely_spec. rewrite removal_timers, removal_clock.
    exact (proj1 (timely_spec s) H1).
  - rewrite removal_timers, removal_next. exact H2.
  - rewrite removal_next. intros c' m Hc. rewrite removal_children.
    destruct (Nat.eqb c' c) eqn:E; [|exact (H3 c' m Hc)].
    apply Nat.eqb_eq in E. subst c'. intro Hm.
    apply In_without in Hm as [Hm _]. exact (H3 c m Hc Hm).
  - rewrite removal_next.
    destruct (removal_attached_cases c n s) as [-> | ->];
      [exact H4|discriminate].
  - rewrite removal_created, removal_next. exact H5.
Qed.

Lemma sound_show o s n s' :
  sound_page s = true -> showNotification o s = (n, s') ->
  sound_page s' = true.
Proof.
  intros H E. apply sound_page_parts in H as (H1 & H2 & H3 & H4 & H5).
  destruct (show_created o s n s' E) as (c' & Ha' & Hc').
  destruct (show_spec o s n s' H4 E)
    as (cc & Ha & Hold & Hn & Hcc & Hne & Hnx & Hck & Hin & Hch & Hkeep & Htm).
  assert (Hd : forall tm, In tm (dismiss_timers o cc n (clock s)) ->
                 (clock s <= due tm)%Z /\ node_of (cb tm) = n).
  { unfold dismiss_timers. destruct (negb _); [|intros tm []].
    intros tm [<-|[]]. cbn. split; [lia|reflexivity]. }
  apply sound_page_intro.
  - apply timely_spec. rewrite Htm, Hck. intros tm Hm.
    apply in_app_iff in Hm as [Hm|Hm].
    + exact (proj1 (timely_spec s) H1 tm Hm).
    + exact (proj1 (Hd tm Hm)).
  - rewrite Htm. intros tm Hm. apply in_app_iff in Hm as [Hm|Hm].
    + specialize (H2 tm Hm). lia.
    + rewrite (proj2 (Hd tm Hm)). lia.
  - intros k m Hk Hm. destruct (Hch k m Hk Hm) as [[-> _]|[Hk' Hm']]; [lia|].
    specialize (H3 k m Hk' Hm'). lia.
  - rewrite Ha. intros a [= <-]. exact Hcc.
  - rewrite Hc'. intros k m Hin'.
    apply in_app_iff in Hin' as [Hin'|[[= _ <-]|[]]]; [|lia].
    specialize (H5 k m Hin'). lia.
Qed.

(** Every event leaves a sound page sound. *)
Lemma sound_step ev s s' :
  sound_page s = true -> do_event ev s = Some s' -> sound_page s' = true.
Proof.
  intros H Hev. destruct ev as [t|i| |o|c n]; cbn in Hev.
  - destruct (clock s <=? t)%Z; [|discriminate]. cbn [andb] in Hev.
    destruct (forallb _ _) eqn:Hall; [|discriminate]. injection Hev as <-.
    apply sound_page_parts in H as (H1 & H2 & H3 & H4 & H5).
    apply sound_page_intro; try assumption.
  - destruct (nth_error (timers s) i) as [tm|] eqn:En; [|discriminate].
    destruct (due tm <=? clock s)%Z; [|discriminate]. injection Hev as <-.
    assert (Hm : sound_page (set_timers (drop_nth i (timers s)) s) = true).
    { apply sound_page_parts in H as (H1 & H2 & H3 & H4 & H5).
      apply sound_page_intro; try assumption.
      - apply timely_spec. intros x Hx. cbn in Hx. apply In_drop_nth in Hx.
        exact (proj1 (timely_spec s) H1 x Hx).
      - intros x Hx. cbn in Hx. apply In_drop_nth in Hx. exact (H2 x Hx). }
    assert (Hn : (node_of (cb tm) < next_node s)%nat).
    { apply sound_page_parts in H as (_ & H2 & _).
      exact (H2 tm (nth_error_In _ _ En)). }
    destruct (cb tm) as [c n|c n]; cbn [run_callback]; cbn in Hn.
    + unfold auto_dismiss. destruct (memb n _); [|exact Hm].
      apply sound_close_click; [exact Hm|exact Hn].
    + apply sound_removal. exact Hm.
  - injection Hev as <-.
    apply sound_page_parts in H as (H1 & H2 & H3 & H4 & H5).
    apply sound_page_intro; assumption.
  - injection Hev as <-. destruct (showNotification o s) as [n s1] eqn:E.
    exact (sound_show o s n s1 H E).
  - destruct (existsb _ _) eqn:Ex; [|discriminate]. injection Hev as <-.
    apply in_created in Ex. apply sound_close_click; [exact H|].
    apply sound_page_parts in H as (_ & _ & _ & _ & H5). exact (H5 c n Ex).
Qed.

Lemma sound_run evs : forall s s',
  sound_page s = true -> run evs s = Some s' -> sound_page s' = true.
Proof.
  induction evs as [|ev evs IH]; intros s s' H Hrun; cbn in Hrun.
  - injection Hrun as <-. exact H.
  - destruct (do_event ev s) as [s1|] eqn:Hev; [|discriminate].
    exact (IH s1 s' (sound_step ev s s1 H Hev) Hrun).
Qed.

(** *** The two kinds of notification *)

Lemma shown_error_stays o s0 n s1 evs s2 :
  well_formed_page s0 = true -> showNotification o s0 = (n, s1) ->
  type_of o = lit "error" ->
  run evs s1 = Some s2 -> no_click n evs = true ->
  in_document n s2 = true /\ closing n s2 = false.
Proof.
  intros Hwf Hshow Hty Hrun Hnc.
  destruct (show_new o s0 n s1 Hwf Hshow) as (c & T & Hin & Ha & Htm & Hck).
  assert (E : dismiss_timers o c n (clock s0) = []).
  { unfold dismiss_timers. rewrite Hty. reflexivity. }
  rewrite E in T.
  assert (P : persistent c n s1) by exact (conj T (conj Hin Ha)).
  apply (persistent_run c n evs s1 s2 Hrun Hnc) in P as (T2 & Hin2 & Ha2).
  split; [exact (present_in_document c n s2 Hin2 Ha2)|].
  destruct (closing n s2) eqn:Ec; [|reflexivity].
  apply closing_spec in Ec as (c' & t' & Hm). exfalso.
  destruct T2 as (_ & _ & _ & _ & T5 & _).
  exact (T5 _ Hm eq_refl).
Qed.

Lemma shown_other_leaves o s0 n s1 evs s2 :
  well_formed_page s0 = true -> showNotification o s0 = (n, s1) ->
  type_of o <> lit "error" -> (0 <= duration_of o < 2 ^ 31)%Z ->
  run evs s1 = Some s2 -> no_click n evs = true ->
  exists c, lifecycle c n (clock s0 + duration_of o) s2.
Proof.
  intros Hwf Hshow Hty Hd Hrun Hnc.
  destruct (show_new o s0 n s1 Hwf Hshow) as (c & T & Hin & Ha & Htm & Hck).
  set (t := (clock s0 + duration_of o)%Z).
  assert (E : dismiss_timers o c n (clock s0) = [dismiss_timer c n t]).
  { unfold dismiss_timers. rewrite (type_error_dec o Hty).
    rewrite (delay_in_range (duration_of o) Hd). reflexivity. }
  rewrite E in T, Htm. exists c.
  apply (lifecycle_run c n t evs s1 s2 Hrun Hnc).
  split.
  - apply (tracked_weaken c n [dismiss_timer c n t]); [|exact T].
    intros tm [<-|[]]. left. reflexivity.
  - left. split; [exact Hin|]. split; [exact Ha|].
    split; [apply Htm; left; reflexivity|].
    intro Hm. destruct T as (_ & _ & _ & _ & T5 & _).
    destruct (T5 _ Hm eq_refl) as [E'|[]]. discriminate.
Qed.

(** *** The container *)

Lemma rule_removal c n s :
  container_rule s -> container_rule (removal c n s).
Proof.
  intro R. unfold removal. destruct (memb n (children s c)) eqn:Em; [|exact R].
  apply memb_In in Em.
  assert (Ha : attached s = Some c).
  { apply R. intro E. rewrite E in Em. exact Em. }
  cbv zeta. set (s1 := set_children c (without n (children s c)) s).
  assert (Hk : forall c', children s1 c' =
                 if Nat.eqb c' c then without n (children s c)
                 else children s c') by reflexivity.
  assert (Ha1 : attached s1 = Some c) by exact Ha.
  destruct (children s1 c) as [|x l] eqn:Ek.
  - rewrite Ha1, Nat.eqb_refl. intro c'. cbn [set_attached children attached].
    split; [|discriminate]. intro Hne. exfalso.
    destruct (Nat.eq_dec c' c) as [->|Hd]; [auto|].
    rewrite Hk in Hne. apply Nat.eqb_neq in Hd as Hd'. rewrite Hd' in Hne.
    apply R in Hne. congruence.
  - intro c'. rewrite Ha1. destruct (Nat.eq_dec c' c) as [->|Hd].
    + rewrite Ek. split; [reflexivity|discriminate].
    + rewrite Hk. apply Nat.eqb_neq in Hd as Hd'. rewrite Hd'.
      rewrite (R c'), Ha. reflexivity.
Qed.

Lemma rule_show o s n s' :
  container_rule s -> showNotification o s = (n, s') -> container_rule s'.
Proof.
  intros R E. unfold showNotification in E.
  destruct (attached s) as [a|] eqn:Ea;
    destruct (negb (str_eqb (type_of o) (lit "error")));
    cbn in E; injection E as <- <-; intro c'; cbn.
  1, 2: destruct (Nat.eqb c' a) eqn:E1;
    [apply Nat.eqb_eq in E1; subst c'; split; [intros _; exact Ea|];
     intros _ H; apply app_eq_nil in H as [_ H]; discriminate|];
    apply Nat.eqb_neq in E1;
    destruct (Nat.eqb c' (next_node s));
    [split; [intro H; exfalso; apply H; reflexivity|
             intro H; rewrite Ea in H; congruence]|apply R].
  all: destruct (Nat.eqb c' (next_node s)) eqn:E1;
    [apply Nat.eqb_eq in E1; subst c'; split; [reflexivity|];
     intros _ H; apply app_eq_nil in H as [_ H]; discriminate|];
    apply Nat.eqb_neq in E1;
    (split; [|intros [= H]; congruence]);
    destruct (Nat.eqb c' (S (next_node s)));
    [intro H; exfalso; apply H; reflexivity|];
    intro H; apply R in H; congruence.
Qed.

(** Every event keeps the rule. *)
Lemma rule_step ev s s' :
  container_rule s -> do_event ev s = Some s' -> container_rule s'.
Proof.
  intros R Hev. destruct ev as [t|i| |o|c n]; cbn in Hev.
  - destruct (_ && _); [|discriminate]. injection Hev as <-. exact R.
  - destruct (nth_error (timers s) i) as [tm|]; [|discriminate].
    destruct (due tm <=? clock s)%Z; [|discriminate]. injection Hev as <-.
    destruct (cb tm) as [c n|c n]; cbn [run_callback].
    + unfold auto_dismiss. destruct (memb n _); exact R.
    + apply rule_removal. exact R.
  - injection Hev as <-. exact R.
  - injection Hev as <-. destruct (showNotification o s) as [n s1] eqn:E.
    exact (rule_show o s n s1 R E).
  - destruct (existsb _ _); [|discriminate]. injection Hev as <-. exact R.
Qed.

Lemma rule_run evs : forall s s',
  container_rule s -> run evs s = Some s' -> container_rule s'.
Proof.
  induction evs as [|ev evs IH]; intros s s' R Hrun; cbn in Hrun.
  - injection Hrun as <-. exact R.
  - destruct (do_event ev s) as [s1|] eqn:Hev; [|discriminate].
    exact (IH s1 s' (rule_step ev s s1 R Hev) Hrun).
Qed.

Lemma rule_empty t : container_rule (empty_page t).
Proof.
  intro c. cbn. split; [intro H; exfalso; apply H; reflexivity|discriminate].
Qed.

End NotifierMore.

(** ** Further properties of the script *)

Module Extras.

Import Js Platform Re ReFacts Notifier Forms Spec Samples.
Import PatternFacts FormsFacts PlatformFacts NotifierFacts.
Import Gallery Text Menu Nav Uri SpecMore SamplesMore.
Import GalleryFacts TextFacts MenuFacts UriFacts NavFacts HandlerFacts.
Import NotifierMore.

(** *** Gallery lightbox *)

(** X1: on a page with at least one gallery image, whatever the clicks and
    key presses, no lightbox listener throws, the index stays inside the
    gallery, page scrolling is blocked exactly while the lightbox is
    displayed, and while it is displayed it shows the picture and the
    alternative text of the image the index points at, with the caption
    that goes with it: the alternative text when there is one, else the
    text of the first paragraph of the image's parent, else nothing. *)
Theorem X1_lightbox_in_order images evs :
  images <> [] ->
  gallery_raises images evs new_lightbox = false /\
  lightbox_ok images (gallery_run images evs new_lightbox).
Proof.
  intro Hne. apply run_ok. apply new_lightbox_ok. exact Hne.
Qed.

Lemma X1_lightbox_in_order_witness :
  three_images <> [] /\
  gallery_raises three_images
    [ImageClick 2; NextClick; KeyDown (lit "ArrowLeft"); LightboxClick true]
    new_lightbox = false /\
  lightbox_ok three_images
    (gallery_run three_images
       [ImageClick 2; NextClick; KeyDown (lit "ArrowLeft"); LightboxClick true]
       new_lightbox).
Proof.
  assert (H : three_images <> []) by discriminate.
  split; [exact H|]. apply (X1_lightbox_in_order three_images _ H).
Defined.

(** X2: previous and next move the index by one and wrap around: next on
    the last image gives the first, previous on the first gives the last,
    and each undoes the other. *)
Theorem X2_prev_next_wrap images lb :
  lightbox_ok images lb ->
  let n := Z.of_nat (length images) in
  let i := currentImageIndex lb in
  currentImageIndex (state_of (next_click images lb))
  = (if (i =? n - 1)%Z then 0 else i + 1)%Z /\
  currentImageIndex (state_of (prev_click images lb))
  = (if (i =? 0)%Z then n - 1 else i - 1)%Z /\
  currentImageIndex
    (state_of (prev_click images (state_of (next_click images lb)))) = i /\
  currentImageIndex
    (state_of (next_click images (state_of (prev_click images lb)))) = i.
Proof.
  intros Hok n i.
  pose proof (proj1 Hok) as Hi. fold n i in Hi.
  destruct (next_click_index images lb Hok) as (ln & En & Hokn & Hin).
  destruct (prev_click_index images lb Hok) as (lp & Ep & Hokp & Hip).
  destruct (prev_click_index images ln Hokn) as (lnp & Enp & _ & Hinp).
  destruct (next_click_index images lp Hokp) as (lpn & Epn & _ & Hipn).
  rewrite En, Ep. cbn [state_of]. rewrite Enp, Epn. cbn [state_of].
  fold n i in Hin, Hip, Hinp, Hipn.
  assert (Hn : ((i + 1) mod n = if (i =? n - 1) then 0 else i + 1)%Z).
  { destruct (Z.eqb_spec i (n - 1)) as [->|Hne].
    - replace (n - 1 + 1)%Z with n by lia. apply Z.mod_same. lia.
    - apply Z.mod_small. lia. }
  assert (Hp : ((i - 1) mod n = if (i =? 0) then n - 1 else i - 1)%Z).
  { destruct (Z.eqb_spec i 0) as [->|Hne].
    - replace (0 - 1)%Z with (n - 1 + (-1) * n)%Z by lia.
      rewrite Z.mod_add by lia. apply Z.mod_small. lia.
    - apply Z.mod_small. lia. }
  split; [congruence|]. split; [congruence|]. split.
  - rewrite Hinp, Hin, Zminus_mod_idemp_l.
    replace (i + 1 - 1)%Z with i by lia. apply Z.mod_small. lia.
  - rewrite Hipn, Hip, Zplus_mod_idemp_l.
    replace (i - 1 + 1)%Z with i by lia. apply Z.mod_small. lia.
Qed.

Lemma X2_prev_next_wrap_witness :
  lightbox_ok three_images open_on_last /\
  currentImageIndex (state_of (next_click three_images open_on_last)) = 0%Z.
Proof.
  assert (H : lightbox_ok three_images open_on_last).
  { apply (run_ok three_images [ImageClick 2] new_lightbox).
    apply new_lightbox_ok. discriminate. }
  split; [exact H|].
  exact (proj1 (X2_prev_next_wrap three_images open_on_last H)).
Defined.

(** X3: the gallery is a cycle: [k] presses of next move the index [k]
    images forward modulo the number of images, [k] presses of previous
    move it [k] back, and as many presses as there are images bring the
    lightbox back to the image it started from. *)
Theorem X3_gallery_cycle images k lb :
  lightbox_ok images lb ->
  let n := Z.of_nat (length images) in
  currentImageIndex (gallery_run images (repeat NextClick k) lb)
  = ((currentImageIndex lb + Z.of_nat k) mod n)%Z /\
  currentImageIndex (gallery_run images (repeat PrevClick k) lb)
  = ((currentImageIndex lb - Z.of_nat k) mod n)%Z /\
  currentImageIndex
    (gallery_run images (repeat NextClick (length images)) lb)
  = currentImageIndex lb /\
  currentImageIndex
    (gallery_run images (repeat PrevClick (length images)) lb)
  = currentImageIndex lb.
Proof.
  intros Hok n. pose proof (proj1 Hok) as Hi. fold n in Hi.
  split; [apply next_presses; exact Hok|].
  split; [apply prev_presses; exact Hok|].
  split.
  - rewrite (proj2 (next_presses images (length images) lb Hok)). fold n.
    replace (currentImageIndex lb + n)%Z
      with (currentImageIndex lb + 1 * n)%Z by lia.
    rewrite Z.mod_add by lia. apply Z.mod_small. exact Hi.
  - rewrite (proj2 (prev_presses images (length images) lb Hok)). fold n.
    replace (currentImageIndex lb - n)%Z
      with (currentImageIndex lb + (-1) * n)%Z by lia.
    rewrite Z.mod_add by lia. apply Z.mod_small. exact Hi.
Qed.

Lemma X3_gallery_cycle_witness :
  lightbox_ok three_images open_on_last /\
  currentImageIndex
    (gallery_run three_images (repeat NextClick 3) open_on_last) = 2%Z.
Proof.
  assert (H : lightbox_ok three_images open_on_last).
  { apply (run_ok three_images [ImageClick 2] new_lightbox).
    apply new_lightbox_ok. discriminate. }
  split; [exact H|].
  exact (proj1 (proj2 (proj2 (X3_gallery_cycle three_images 3 open_on_last H)))).
Defined.

(** *** Menu search *)

(** X4: the search listener displays exactly the items whose heading or
    paragraph contains the term, hides a category only when the term is
    not empty and none of its items matches, and the count it keeps is
    the number of items it left displayed. The line under the box is
    emptied, its colour left alone, for the empty term; it reads, in
    #c0392b, that no menu items were found when nothing matches; else it
    reads, in #27ae60, Found, the count, and item, with an s unless the
    count is one; the count is written as its decimal numeral: digits
    only, of that value, without a leading zero. *)
Theorem X4_search_filters lower menu term line :
  fst (fst (search lower menu term line)) = map (filtered lower term) menu /\
  (forall it,
     shown lower term it = lit "flex" <->
     occurs_in term (match title it with Some t => lower t | None => [] end)
     \/ occurs_in term
          (match description it with Some t => lower t | None => [] end)) /\
  snd (fst (search lower menu term line)) = match_count lower term menu /\
  count_occ (list_eq_dec N.eq_dec)
    (concat (map item_displays (fst (fst (search lower menu term line)))))
    (lit "flex")
  = snd (fst (search lower menu term line)) /\
  match term, match_count lower term menu with
  | [], _ =>
      snd (search lower menu term line)
      = {| textContent := []; color := color line |}
  | _ :: _, 0%nat =>
      snd (search lower menu term line)
      = {| textContent := 10060%N :: lit " No menu items found";
           color := lit "#c0392b" |}
  | _ :: _, 1%nat =>
      snd (search lower menu term line)
      = {| textContent := 10003%N :: lit " Found 1 item";
           color := lit "#27ae60" |}
  | _ :: _, n =>
      exists d,
        forallb is_digit d = true /\ digits_val d = Z.of_nat n /\
        hd 0%N d <> ch "0" /\
        snd (search lower menu term line)
        = {| textContent := 10003%N :: lit " Found " ++ d ++ lit " items";
             color := lit "#27ae60" |}
  end.
Proof.
  rewrite search_spec. cbn [fst snd].
  split; [reflexivity|]. split.
  { intro it. unfold shown, matches, lower_text.
    rewrite <- !includes_spec.
    destruct (includes _ term || includes _ term) eqn:E.
    - split; [intros _; apply orb_true_iff; exact E|reflexivity].
    - split; [discriminate|]. rewrite <- orb_true_iff, E. discriminate. }
  split; [reflexivity|].
  split; [apply flex_count_menu|].
  unfold count_message. destruct term as [|c term]; [reflexivity|].
  destruct (match_count lower (c :: term) menu) as [|[|n]];
    [reflexivity|reflexivity|].
  exists (decimal (N.of_nat (S (S n)))).
  destruct (decimal_spec (N.of_nat (S (S n)))) as [H1 H2].
  split; [exact H1|]. split; [rewrite H2; lia|].
  split; [apply decimal_head; lia|reflexivity].
Qed.

Example found_two_items :
  textContent (snd (search ascii_lower small_menu (lit "milk") blank_line))
  = 10003%N :: lit " Found 2 items".
Proof. reflexivity. Qed.

(** X5: an input that is empty once lower-cased and trimmed brings the
    whole menu back: every category and every item is displayed, and the
    count line is blank, its colour left as it was. *)
Theorem X5_empty_search_shows_all lower menu value line :
  trim (lower value) = [] ->
  on_input lower menu value line
  = (map (fun cat => {| category_display := lit "block";
                        item_displays := map (fun _ => lit "flex") cat |})
       menu,
     length (concat menu),
     {| textContent := []; color := color line |}).
Proof.
  intro E. unfold on_input. rewrite E, search_spec.
  assert (Hm : forall it, matches lower [] it = true).
  { intro it. unfold matches. rewrite includes_nil. reflexivity. }
  assert (E1 : map (filtered lower []) menu
               = map (fun cat => {| category_display := lit "block";
                                    item_displays := map (fun _ => lit "flex") cat |})
                   menu).
  { apply map_ext. intro cat. unfold filtered. cbn [truthy negb].
    rewrite orb_true_r. f_equal. apply map_ext. intro it.
    unfold shown. rewrite Hm. reflexivity. }
  assert (E2 : match_count lower [] menu = length (concat menu)).
  { unfold match_count. f_equal.
    apply forallb_filter_id. apply forallb_forall. intros it _. apply Hm. }
  rewrite E1, E2. reflexivity.
Qed.

Lemma X5_empty_search_shows_all_witness :
  trim (ascii_lower (lit "   ")) = [] /\
  snd (fst (on_input ascii_lower small_menu (lit "   ") blank_line)) = 3%nat.
Proof.
  assert (H : trim (ascii_lower (lit "   ")) = []) by reflexivity.
  split; [exact H|].
  rewrite (X5_empty_search_shows_all ascii_lower small_menu (lit "   ")
             blank_line H).
  reflexivity.
Defined.

(** X6: an input whose lower-cased form is the lower-cased heading or
    paragraph of an item, with any white space before and after it, leaves
    that item and its category displayed: so does the item's own text, and
    the same text in another case or with blanks around it whenever the
    platform's lower-casing takes it to the same letters. *)
Theorem X6_own_text_finds_item lower menu i cat j it t value a b line :
  nth_error menu i = Some cat -> nth_error cat j = Some it ->
  title it = Some t \/ description it = Some t ->
  lower value = a ++ lower t ++ b ->
  forallb is_space a = true -> forallb is_space b = true ->
  exists v,
    nth_error (fst (fst (on_input lower menu value line))) i = Some v /\
    category_display v = lit "block" /\
    nth_error (item_displays v) j = Some (lit "flex").
Proof.
  intros Hc Hi Ht Hv Ha Hb. unfold on_input. rewrite search_spec. cbn [fst].
  rewrite Hv, (trim_padded a (lower t) b Ha Hb).
  assert (Hm : matches lower (trim (lower t)) it = true).
  { unfold matches. apply orb_true_iff.
    destruct Ht as [-> | ->]; [left|right]; cbn [lower_text];
      apply includes_spec, trim_occurs. }
  exists (filtered lower (trim (lower t)) cat). split; [|split].
  - apply map_nth_error. exact Hc.
  - unfold filtered. cbn [category_display].
    replace (existsb (matches lower (trim (lower t))) cat) with true;
      [reflexivity|].
    symmetry. apply existsb_exists. exists it.
    split; [exact (nth_error_In _ _ Hi)|exact Hm].
  - unfold filtered. cbn [item_displays].
    rewrite (map_nth_error _ _ _ Hi). unfold shown. rewrite Hm. reflexivity.
Qed.

Lemma X6_own_text_finds_item_witness :
  exists v,
    nth_error
      (fst (fst (on_input ascii_lower small_menu (lit "  CAPPUCCINO ")
                   blank_line))) 0 = Some v /\
    category_display v = lit "block" /\
    nth_error (item_displays v) 1 = Some (lit "flex").
Proof.
  exact (X6_own_text_finds_item ascii_lower small_menu 0 _ 1 _
           (lit "Cappuccino") (lit "  CAPPUCCINO ") (lit "  ") (lit " ")
           blank_line eq_refl eq_refl (or_introl eq_refl) eq_refl eq_refl
           eq_refl).
Defined.

(** X7: a term that occurs in another one finds at least what the other
    finds: every item displayed for the longer term is displayed for the
    shorter one, and the count does not go down. *)
Theorem X7_shorter_term_finds_more lower menu t1 t2 line i j v2 :
  occurs_in t1 t2 ->
  (snd (fst (search lower menu t2 line))
   <= snd (fst (search lower menu t1 line)))%nat /\
  (nth_error (fst (fst (search lower menu t2 line))) i = Some v2 ->
   nth_error (item_displays v2) j = Some (lit "flex") ->
   exists v1,
     nth_error (fst (fst (search lower menu t1 line))) i = Some v1 /\
     nth_error (item_displays v1) j = Some (lit "flex")).
Proof.
  intro Ht. rewrite !search_spec. cbn [fst snd]. split.
  - unfold match_count. apply filter_narrow. exact Ht.
  - intros Hv Hj.
    apply nth_error_map_inv in Hv as (cat & Hc & <-).
    cbn [item_displays filtered] in Hj.
    apply nth_error_map_inv in Hj as (it & Hi & Hs).
    exists (filtered lower t1 cat). split; [apply map_nth_error; exact Hc|].
    cbn [item_displays filtered]. rewrite (map_nth_error _ _ _ Hi).
    unfold shown in Hs |- *.
    destruct (matches lower t2 it) eqn:E2; [|discriminate].
    rewrite (matches_narrow lower t1 t2 it Ht E2). reflexivity.
Qed.

Lemma X7_shorter_term_finds_more_witness :
  occurs_in (lit "cap") (lit "capp") /\
  (snd (fst (search ascii_lower small_menu (lit "capp") blank_line))
   <= snd (fst (search ascii_lower small_menu (lit "cap") blank_line)))%nat.
Proof.
  assert (H : occurs_in (lit "cap") (lit "capp"))
    by (exists [], (lit "p"); reflexivity).
  split; [exact H|].
  exact (proj1 (X7_shorter_term_finds_more ascii_lower small_menu _ _
                  blank_line 0 0
                  {| category_display := []; item_displays := [] |} H)).
Defined.

(** *** Mobile menu toggle *)

(** X8: after [k] clicks on the toggle button the menu is open exactly
    when it was closed and [k] is odd (or open and [k] even), the button
    carries its class exactly when [k] is odd, and from the first click on
    the label reads Close when the menu is open and Menu when it is
    closed; two clicks change nothing of the classes. *)
Theorem X8_toggle_clicks k nav_active :
  nav_mobile_active (clicks k (new_toggle nav_active))
  = xorb nav_active (Nat.odd k) /\
  button_active (clicks k (new_toggle nav_active)) = Nat.odd k /\
  ((1 <= k)%nat ->
   innerHTML (clicks k (new_toggle nav_active))
   = if xorb nav_active (Nat.odd k) then label_close else label_menu) /\
  nav_mobile_active (clicks (2 + k) (new_toggle nav_active))
  = nav_mobile_active (clicks k (new_toggle nav_active)).
Proof.
  destruct (clicks_spec k (new_toggle nav_active)) as (H1 & H2 & H3).
  destruct (clicks_spec (2 + k) (new_toggle nav_active)) as (H4 & _).
  cbn [nav_mobile_active button_active new_toggle] in H1, H2, H4.
  split; [exact H1|]. split; [exact H2|]. split.
  - intro Hk. rewrite (H3 Hk), H1. reflexivity.
  - rewrite H4, H1. reflexivity.
Qed.

Lemma X8_toggle_clicks_witness :
  innerHTML (clicks 3 (new_toggle false)) = label_close.
Proof.
  exact (proj1 (proj2 (proj2 (X8_toggle_clicks 3 false)))
           (le_S _ _ (le_S _ _ (le_n 1)))).
Defined.

(** *** The mailto link of the contact form *)

(** X9: when the link can be built it is the fixed opening
    [mailto:info@coffeecorner.co.za?subject=Contact%20Form%3A%20], the
    encoded subject, [&body=] and the encoded body; it holds one question
    mark, one ampersand and no white space, whatever was typed into the
    form. *)
Theorem X9_mailto_link f l :
  mailtoLink f = Some l ->
  (exists subject body,
     encodeURIComponent (c_subject f) = Some subject /\
     encodeURIComponent (emailBody f) = Some body /\
     l = lit "mailto:info@coffeecorner.co.za?subject=Contact%20Form%3A%20"
         ++ subject ++ lit "&body=" ++ body) /\
  count_occ N.eq_dec l (ch "?") = 1%nat /\
  count_occ N.eq_dec l (ch "&") = 1%nat /\
  forallb (fun c => negb (is_space c)) l = true.
Proof.
  unfold mailtoLink.
  destruct (encode_app_plain (lit "Contact Form: ") (c_subject f) eq_refl)
    as (p' & E1 & E2).
  vm_compute in E1. injection E1 as <-.
  rewrite E2.
  destruct (encodeURIComponent (c_subject f)) as [subject|] eqn:Es;
    [|discriminate].
  cbn [option_map].
  destruct (encodeURIComponent (emailBody f)) as [body|] eqn:Eb;
    [|discriminate].
  intro H.
  apply (f_equal (fun o => match o with Some x => x | None => [] end)) in H.
  cbv beta iota in H. subst l.
  pose proof (encode_safe _ _ Es) as Hs.
  pose proof (encode_safe _ _ Eb) as Hb.
  split; [|split; [|split]].
  - exists subject, body. split; [reflexivity|]. split; [reflexivity|].
    reflexivity.
  - rewrite !count_occ_app.
    rewrite (safe_count (ch "?") subject eq_refl Hs).
    rewrite (safe_count (ch "?") body eq_refl Hb). reflexivity.
  - rewrite !count_occ_app.
    rewrite (safe_count (ch "&") subject eq_refl Hs).
    rewrite (safe_count (ch "&") body eq_refl Hb). reflexivity.
  - rewrite !forallb_app.
    rewrite (safe_no_space subject Hs), (safe_no_space body Hb).
    reflexivity.
Qed.

Lemma X9_mailto_link_witness :
  mailtoLink (read_contact page_hello) = Some hello_link /\
  count_occ N.eq_dec hello_link (ch "&") = 1%nat.
Proof.
  assert (H : mailtoLink (read_contact page_hello) = Some hello_link)
    by (vm_compute; reflexivity).
  split; [exact H|].
  exact (proj1 (proj2 (proj2 (X9_mailto_link _ _ H)))).
Defined.

(** X10: a valid contact submission either gets its link, and then the
    handler hands the mail over, shows the success notification and resets
    the form, or its subject or body holds a lone surrogate, and then the
    handler stops at the exception of the encoding, after it has cancelled
    the submission and before anything else. *)
Theorem X10_contact_dispatch doc :
  isValid (validate_contact (read_contact doc)) = true ->
  ((exists l, mailtoLink (read_contact doc) = Some l) /\
   contact_submit doc =
   Completed [PreventDefault;
              Mailto recipient
                (lit "Contact Form: " ++ c_subject (read_contact doc))
                (emailBody (read_contact doc));
              Notify (contact_success (read_contact doc)); Reset]) \/
  (mailtoLink (read_contact doc) = None /\
   (well_formed (c_subject (read_contact doc)) = false \/
    well_formed (emailBody (read_contact doc)) = false) /\
   contact_submit doc = Threw [PreventDefault]).
Proof.
  intro Hv. unfold contact_submit, mailtoLink. rewrite Hv. cbn [negb].
  set (f := read_contact doc).
  set (S := lit "Contact Form: " ++ c_subject f).
  destruct (encode_app_plain (lit "Contact Form: ") (c_subject f) eq_refl)
    as (p' & _ & E2). fold S in E2.
  pose proof (encode_defined S) as HS.
  pose proof (encode_defined (c_subject f)) as Hs.
  pose proof (encode_defined (emailBody f)) as HB.
  destruct (encodeURIComponent S) as [a|] eqn:Ea.
  - assert (WS : well_formed S = true).
    { destruct (well_formed S); [reflexivity|].
      discriminate (proj2 HS eq_refl). }
    rewrite WS. cbn [andb].
    destruct (encodeURIComponent (emailBody f)) as [b|] eqn:Eb.
    + assert (WB : well_formed (emailBody f) = true).
      { destruct (well_formed (emailBody f)); [reflexivity|].
        discriminate (proj2 HB eq_refl). }
      rewrite WB. left. split; [eauto|reflexivity].
    + rewrite (proj1 HB eq_refl). right.
      split; [reflexivity|]. split; [right; reflexivity|reflexivity].
  - rewrite (proj1 HS eq_refl). cbn [andb]. right.
    split; [reflexivity|]. split; [|reflexivity].
    left. apply Hs.
    destruct (encodeURIComponent (c_subject f)); [discriminate|reflexivity].
Qed.

Lemma X10_contact_dispatch_witness :
  isValid (validate_contact (read_contact page_hello)) = true /\
  exists l, mailtoLink (read_contact page_hello) = Some l.
Proof.
  assert (H : isValid (validate_contact (read_contact page_hello)) = true)
    by reflexivity.
  split; [exact H|].
  destruct (X10_contact_dispatch page_hello H) as [[Hl _]|[Hn _]].
  - exact Hl.
  - vm_compute in Hn. discriminate.
Defined.

(** *** The submit handlers *)


(** X11: a contact submission is valid exactly when the name has at least
    2 characters, the e-mail is of the shape local@domain.tld, the phone is
    empty or of 10 to 15 characters of its class, a subject is chosen and
    the message has at least 10 characters. *)
Theorem X11_contact_valid f :
  isValid (validate_contact f) = true <->
  (2 <= length (c_name f))%nat /\
  email_shape (c_email f) /\
  (c_phone f = [] \/ phone_shape (c_phone f)) /\
  c_subject f <> [] /\
  (10 <= length (c_message f))%nat.
Proof.
  rewrite contact_isValid, negb_true_iff, !orb_false_iff.
  rewrite !Nat.ltb_ge, !negb_false_iff, truthy_true.
  rewrite emailPattern_shape, <- phonePattern_shape.
  rewrite andb_false_iff, negb_false_iff, truthy_nil. tauto.
Qed.

(** X12: a catering submission is valid exactly when the name has at
    least 2 characters, the e-mail is of the shape local@domain.tld, the
    phone is of 10 to 15 characters of its class, an event type is chosen,
    the guests are from 10 to 500, and a date is given that, if the
    platform can parse it, is not before today at midnight. *)
Theorem X12_catering_valid e f :
  isValid (validate_catering e f) = true <->
  (2 <= length (g_name f))%nat /\
  email_shape (g_email f) /\
  phone_shape (g_phone f) /\
  g_eventType f <> [] /\
  (10 <= g_guests f <= 500)%Z /\
  g_date f <> [] /\
  (forall t, Date_parse e (g_date f) = Some t -> (today_midnight e <= t)%Z).
Proof.
  rewrite catering_isValid, negb_true_iff, !orb_false_iff.
  rewrite !Nat.ltb_ge, !negb_false_iff, truthy_true.
  rewrite emailPattern_shape, phonePattern_shape.
  rewrite Z.eqb_neq, !Z.ltb_ge, date_fails_false.
  intuition lia.
Qed.

(** X13: every submit handler first cancels the browser's own submission,
    also when it stops at an exception later. The form is reset exactly
    when validation passed and the handler ran to its end; a mail is
    composed only by a valid contact submission, to the fixed address; and
    the notification shown is of type error exactly when validation
    failed. *)
Theorem X13_effects e fm doc :
  exists rest,
    effects_of (submit e fm doc) = PreventDefault :: rest /\
    (In Reset rest <->
     isValid (validate e fm doc) = true /\ completed (submit e fm doc) = true) /\
    (forall r sbj body,
       In (Mailto r sbj body) rest ->
       fm = ContactForm /\ isValid (validate e fm doc) = true /\ r = recipient) /\
    (forall o,
       In (Notify o) rest ->
       (type o = Some (lit "error") <-> isValid (validate e fm doc) = false)).
Proof.
  destruct fm; cbn [submit validate].
  - unfold contact_submit.
    destruct (isValid (validate_contact (read_contact doc))); cbn [negb];
      [destruct (_ && _)|]; cbn [effects_of completed];
      eexists; (split; [reflexivity|]); (split; [|split]).
    + split; [auto|]. intros _. cbn. auto.
    + intros r sbj body H. in_cases H. injection H as <- _ _. auto.
    + intros o H. in_cases H. injection H as <-. cbn. split; discriminate.
    + split; [intros []|intros [_ H]; discriminate].
    + intros r sbj body [].
    + intros o [].
    + split; [intro H; in_cases H|intros [H _]; discriminate].
    + intros r sbj body H. in_cases H.
    + intros o H. in_cases H. injection H as <-. cbn. tauto.
  - unfold catering_submit.
    destruct (isValid (validate_catering e (read_catering doc))); cbn [negb];
      cbn [effects_of completed];
      eexists; (split; [reflexivity|]); (split; [|split]).
    + split; [auto|]. intros _. cbn. auto.
    + intros r sbj body H. in_cases H.
    + intros o H. in_cases H. injection H as <-. cbn. split; discriminate.
    + split; [intro H; in_cases H|intros [H _]; discriminate].
    + intros r sbj body H. in_cases H.
    + intros o H. in_cases H. injection H as <-. cbn. tauto.
Qed.

(** X14: the booking advice is put on the list exactly when a date is
    given, the platform can parse it, and it lies no later than 6 days
    after today at midnight (a date in the past included). The advice is
    shown to the user only together with a real failure: a submission whose
    notification lists it is not valid. *)
Theorem X14_booking_advice e doc :
  (In advice_week (errors (validate_catering e (read_catering doc))) <->
   g_date (read_catering doc) <> [] /\
   exists t, Date_parse e (g_date (read_catering doc)) = Some t /\
             (t <= today_midnight e + 6 * msPerDay)%Z) /\
  (forall o l,
     In (Notify o) (effects_of (catering_submit e doc)) ->
     items o = Some l -> In advice_week l ->
     isValid (validate_catering e (read_catering doc)) = false).
Proof.
  split; [apply advice_listed|].
  intros o l Ho Hl Hin. unfold catering_submit in Ho.
  destruct (isValid (validate_catering e (read_catering doc)));
    [|reflexivity].
  cbn in Ho. destruct Ho as [H|[H|[H|[]]]]; try discriminate.
  injection H as <-. cbn in Hl. discriminate.
Qed.

Lemma X14_booking_advice_witness :
  In advice_week (errors (validate_catering env_nov3 (read_catering page_soon))).
Proof.
  apply (proj1 (X14_booking_advice env_nov3 page_soon)).
  split; [vm_compute; discriminate|].
  exists 1762300800000%Z. split; [reflexivity|]. vm_compute. discriminate.
Defined.

(** X15: for a date value the platform reads as midnight UTC of day number
    [day], as it does for the date-only form, the outcome of the date rule
    depends on the time zone. A day after the local today passes and a
    day before it fails; today's own date passes exactly when local time
    is at or ahead of UTC at the local midnight that began today, so that
    west of UTC today's date is turned down. *)
Theorem X15_date_rule_by_zone e f day :
  g_date f <> [] ->
  Date_parse e (g_date f) = Some (day * msPerDay)%Z ->
  (- msPerDay < offset_of_local e (local_day e * msPerDay) < msPerDay)%Z ->
  (date_rule_passes (validate_catering e f) <->
   (local_day e < day)%Z \/
   (local_day e = day /\
    (0 <= offset_of_local e (local_day e * msPerDay))%Z)).
Proof.
  intros Hne Hp Hoff. unfold date_rule_passes.
  rewrite date_required_listed, date_past_listed, Hp. cbn [date_lt].
  rewrite Z.ltb_lt. destruct (today_midnight_spec e) as [_ ->].
  fold (local_day e). revert Hoff.
  set (L := local_day e). set (off := offset_of_local e (L * msPerDay)).
  unfold msPerDay. intro Hoff. split.
  - intros [_ H].
    assert (~ (day * 86400000 < L * 86400000 - off)%Z) by tauto. lia.
  - intro H. split; [exact Hne|]. intros [_ Hlt]. lia.
Qed.

Lemma X15_date_rule_by_zone_witness :
  date_rule_passes (validate_catering env_nov3 (read_catering page_today)) /\
  ~ date_rule_passes (validate_catering env_west (read_catering page_today)).
Proof.
  assert (Hne : g_date (read_catering page_today) <> [])
    by (vm_compute; discriminate).
  split.
  - apply (X15_date_rule_by_zone env_nov3 (read_catering page_today)
             20395 Hne eq_refl).
    + vm_compute. split; reflexivity.
    + right. vm_compute. split; [reflexivity|discriminate].
  - intro H.
    apply (X15_date_rule_by_zone env_west (read_catering page_today)
             20395 Hne eq_refl) in H.
    + destruct H as [H|[_ H]]; vm_compute in H; [discriminate|].
      apply H. reflexivity.
    + vm_compute. split; reflexivity.
Defined.

(** X16: a guests field that holds the decimal numeral of a number [n]
    up to 2^53, the range in which the platform's numbers are exact, is
    read as [n], and the guest-count message is raised exactly when [n] is
    below 10 or above 500. *)
Theorem X16_guests_numeral e doc n :
  value_of doc (lit "guests") = Some (decimal n) ->
  (n <= 2 ^ 53)%N ->
  g_guests (read_catering doc) = Z.of_N n /\
  (In err_guests (errors (validate_catering e (read_catering doc))) <->
   (n < 10 \/ 500 < n)%N).
Proof.
  intros Hv _.
  assert (E : g_guests (read_catering doc) = Z.of_N n).
  { unfold read_catering, guests_text. cbn [g_guests]. rewrite Hv.
    cbn [or_str].
    destruct (decimal n) as [|c r] eqn:Ed; [destruct (decimal_nonempty n Ed)|].
    cbn [truthy]. rewrite <- Ed, parseInt_decimal. reflexivity. }
  split; [exact E|].
  rewrite guests_listed, E, !orb_true_iff, Z.eqb_eq, !Z.ltb_lt. lia.
Qed.

Lemma X16_guests_numeral_witness :
  value_of page_anna (lit "guests") = Some (decimal 100) /\
  g_guests (read_catering page_anna) = 100%Z.
Proof.
  assert (H : value_of page_anna (lit "guests") = Some (decimal 100))
    by reflexivity.
  split; [exact H|].
  assert (Hb : (100 <= 2 ^ 53)%N) by (vm_compute; discriminate).
  exact (proj1 (X16_guests_numeral env_nov3 page_anna 100 H Hb)).
Defined.

(** X17: a field read with trimming is a piece of what was typed, neither
    starts nor ends with white space, and is empty when only white space
    was typed; a contact name of white space only is thus turned down. *)
Theorem X17_trimmed_fields doc id v :
  value_of doc (lit id) = Some v ->
  occurs_in (field_trim doc id) v /\
  trim (field_trim doc id) = field_trim doc id /\
  match field_trim doc id with c :: _ => is_space c = false | [] => True end /\
  match rev (field_trim doc id) with c :: _ => is_space c = false | [] => True end /\
  (forallb is_space v = true ->
   field_trim doc id = [] /\
   (id = "contact-name"%string ->
    In err_name (errors (validate_contact (read_contact doc))) /\
    isValid (validate_contact (read_contact doc)) = false)).
Proof.
  intro Hv. rewrite (field_trim_value doc id v Hv).
  split; [apply trim_occurs|]. split; [apply trim_idempotent|].
  split; [apply trim_ends|]. split; [apply trim_ends|].
  intro Hs. split; [apply all_space_trim; exact Hs|].
  intros ->.
  assert (En : c_name (read_contact doc) = []).
  { unfold read_contact. cbn [c_name].
    rewrite (field_trim_value doc _ v Hv). apply all_space_trim. exact Hs. }
  split.
  - rewrite contact_errors, En. cbn [length]. apply in_or_app. left.
    left. reflexivity.
  - rewrite contact_isValid, En. reflexivity.
Qed.

Lemma X17_trimmed_fields_witness :
  field_trim (page_with [("contact-name", "   ")]%string) "contact-name" = [].
Proof.
  exact (proj1 (proj2 (proj2 (proj2 (proj2
           (X17_trimmed_fields (page_with [("contact-name", "   ")]%string)
              "contact-name" (lit "   ") eq_refl)))) eq_refl)).
Defined.

(** *** The notification widget *)

(** X18: [showNotification] puts the new notification, a node that did not
    exist before, last in the container of the document, after the
    notifications that are there, and makes a container of its own only
    when the document has none; the new notification is displayed and
    those displayed before still are. *)
Theorem X18_notification_placed o s n s' :
  sound_page s = true ->
  showNotification o s = (n, s') ->
  (next_node s <= n)%nat /\
  in_document n s' = true /\
  (forall m, in_document m s = true -> in_document m s' = true) /\
  match attached s with
  | Some c => attached s' = Some c /\ children s' c = children s c ++ [n]
  | None =>
      exists c, (next_node s <= c)%nat /\ c <> n /\
                attached s' = Some c /\ children s' c = [n]
  end.
Proof.
  intros Hs E. apply sound_page_parts in Hs as (_ & _ & _ & H4 & _).
  unfold showNotification in E.
  destruct (attached s) as [a|] eqn:Ea;
    destruct (negb (str_eqb (type_of o) (lit "error")));
    cbn in E; injection E as <- <-.
  1, 2: assert (Hlt := H4 a eq_refl);
    assert (En : Nat.eqb a (next_node s) = false) by (apply Nat.eqb_neq; lia);
    unfold in_document; cbn; rewrite ?Ea, ?Nat.eqb_refl, ?En;
    (split; [lia|]);
    (split; [apply memb_In; apply in_app_iff; right; left; reflexivity|]);
    (split; [|split; reflexivity]);
    intros m Hm; apply memb_In; apply in_app_iff; left; apply memb_In;
    exact Hm.
  all: assert (En : Nat.eqb (next_node s) (S (next_node s)) = false)
      by (apply Nat.eqb_neq; lia);
    unfold in_document; cbn; rewrite ?Ea, ?Nat.eqb_refl, ?En; cbn;
    rewrite ?Nat.eqb_refl;
    (split; [lia|]); (split; [reflexivity|]);
    (split; [discriminate|]);
    exists (next_node s); rewrite ?Nat.eqb_refl, ?En;
    (split; [lia|]); (split; [lia|]); split; reflexivity.
Qed.

Lemma X18_notification_placed_witness :
  in_document 2 two_notes = true /\ in_document 1 two_notes = true /\
  children two_notes 0 = [1; 2]%nat.
Proof.
  assert (Hs : sound_page page_success = true) by (vm_compute; reflexivity).
  assert (E : showNotification note_error page_success = (2%nat, two_notes))
    by (vm_compute; reflexivity).
  destruct (X18_notification_placed note_error page_success 2 two_notes Hs E)
    as (_ & H1 & H2 & H3).
  split; [exact H1|]. split; [apply H2; vm_compute; reflexivity|].
  exact (proj2 H3).
Defined.

(** X19: a press of the close button of a displayed notification leaves
    it in the document for the time of the fade and schedules its removal;
    300 milliseconds later it is out of the document, whatever else has
    happened in between: further presses, its own auto-dismiss coming due,
    other notifications shown or closed. *)
Theorem X19_manual_close o s0 n s1 evs1 s2 c s3 :
  sound_page s0 = true ->
  showNotification o s0 = (n, s1) ->
  run evs1 s1 = Some s2 ->
  in_document n s2 = true ->
  do_event (Click c n) s2 = Some s3 ->
  in_document n s3 = true /\ closing n s3 = true /\
  forall evs2 s4,
    run evs2 s3 = Some s4 ->
    (clock s2 + 300 < clock s4)%Z \/
    ((clock s2 + 300 <= clock s4)%Z /\ settled s4 = true) ->
    in_document n s4 = false.
Proof.
  intros Hs Hshow Hrun1 Hdoc Hclick.
  destruct (show_homed o s0 n s1 Hs Hshow) as (c0 & H1 & _).
  pose proof (homed_run c0 n evs1 s1 s2 H1 Hrun1) as H2.
  cbn in Hclick. destruct (existsb _ _) eqn:Ex; [|discriminate].
  injection Hclick as <-. apply in_created in Ex.
  rewrite (proj2 (proj2 H2) c Ex).
  assert (Hin : In n (children s2 c0) /\ attached s2 = Some c0).
  { unfold in_document in Hdoc.
    destruct (attached s2) as [a|] eqn:Ea; [|discriminate].
    apply memb_In in Hdoc.
    destruct H2 as ((_ & _ & _ & T4 & _ & T6) & _).
    destruct (Nat.eq_dec a c0) as [->|Hne]; [auto|].
    destruct (T4 a (T6 a Ea) Hne Hdoc). }
  destruct Hin as [Hin Ha].
  assert (Htm : In {| due := (clock s2 + 300)%Z; cb := Removal c0 n |}
                   (timers (close_click c0 n s2))).
  { rewrite close_click_timers. apply in_app_iff. right. left. reflexivity. }
  split; [exact (present_in_document c0 n _ Hin Ha)|].
  split; [apply closing_spec; eauto|].
  intros evs2 s4 Hrun2 Hlate.
  pose proof (homed_click c0 n s2 H2) as H3.
  pose proof (homed_run c0 n evs2 _ s4 H3 Hrun2) as H4.
  assert (W : on_its_way_out c0 n (clock s2 + 300) (close_click c0 n s2)).
  { left. split; [exact Hin|]. split; [exact Ha|exact Htm]. }
  apply (way_out_run c0 n _ evs2 _ s4 H3 Hrun2) in W.
  destruct W as [(_ & _ & W)|W].
  - exfalso. destruct H4 as (T & _).
    pose proof (proj1 (timely_spec s4) (proj1 T) _ W) as Hle. cbn in Hle.
    destruct Hlate as [Hlt|[Hle' Hst]]; [lia|].
    pose proof (proj1 (settled_spec s4) Hst _ W) as Hlt. cbn in Hlt. lia.
  - exact (absent_not_in_document c0 n _ s4 (proj1 H4) W).
Qed.

Lemma X19_manual_close_witness :
  in_document 1 first_pressed = true /\ in_document 1 first_closed = false.
Proof.
  assert (Hs : sound_page (empty_page 0) = true) by reflexivity.
  assert (E : showNotification note_success (empty_page 0)
              = (1%nat, page_success)) by (vm_compute; reflexivity).
  assert (R1 : run [Show note_error; Frame; Tick 1000] page_success
               = Some first_waiting) by (vm_compute; reflexivity).
  assert (D : in_document 1 first_waiting = true) by (vm_compute; reflexivity).
  assert (K : do_event (Click 0 1) first_waiting = Some first_pressed)
    by (vm_compute; reflexivity).
  assert (R2 : run close_first first_pressed = Some first_closed)
    by (vm_compute; reflexivity).
  destruct (X19_manual_close note_success (empty_page 0) 1 page_success
              [Show note_error; Frame; Tick 1000] first_waiting 0
              first_pressed Hs E R1 D K) as (H1 & _ & H2).
  split; [exact H1|].
  apply (H2 close_first first_closed R2). left. vm_compute. reflexivity.
Defined.

(** X20: the removal that a press schedules takes the notification out
    of its container and leaves every other notification as it was; the
    container leaves the document exactly when the notification was the
    only one it held. A second removal of the same notification changes
    nothing. *)
Theorem X20_removal c n s :
  attached s = Some c -> In n (children s c) ->
  in_document n (removal c n s) = false /\
  (forall m, m <> n -> in_document m (removal c n s) = in_document m s) /\
  children (removal c n s) c = without n (children s c) /\
  (attached (removal c n s) = None <->
   forall m, In m (children s c) -> m = n) /\
  (attached (removal c n s) <> None -> attached (removal c n s) = Some c) /\
  removal c n (removal c n s) = removal c n s.
Proof.
  intros Ha Hin.
  assert (Hk : children (removal c n s) c = without n (children s c)).
  { rewrite removal_children, Nat.eqb_refl. reflexivity. }
  assert (Hout : memb n (children (removal c n s) c) = false).
  { destruct (memb n _) eqn:Em; [|reflexivity]. apply memb_In in Em.
    rewrite Hk in Em. apply In_without in Em as [_ Em]. congruence. }
  assert (Hmemb : forall m, m <> n ->
            memb m (without n (children s c)) = memb m (children s c)).
  { intros m Hne. apply eq_true_iff_eq. rewrite !memb_In, In_without.
    tauto. }
  assert (Hnil : without n (children s c) = [] <->
                 forall m, In m (children s c) -> m = n).
  { split.
    - intros E m Hm. destruct (Nat.eq_dec m n) as [|Hne]; [assumption|].
      assert (H : In m (without n (children s c)))
        by (apply In_without; auto).
      rewrite E in H. destruct H.
    - intro H. destruct (without n (children s c)) as [|x l] eqn:E;
        [reflexivity|].
      assert (Hx : In x (without n (children s c)))
        by (rewrite E; left; reflexivity).
      apply In_without in Hx as [Hx Hne]. destruct (Hne (H x Hx)). }
  assert (Hatt : attached (removal c n s) =
                 match without n (children s c) with
                 | [] => None
                 | _ :: _ => Some c
                 end).
  { unfold removal. rewrite (proj2 (memb_In n _) Hin). cbv zeta.
    set (s1 := set_children c (without n (children s c)) s).
    assert (E1 : children s1 c = without n (children s c)).
    { cbn. rewrite Nat.eqb_refl. reflexivity. }
    assert (E2 : attached s1 = Some c) by exact Ha.
    rewrite E1. destruct (without n (children s c)); [|exact E2].
    rewrite E2, Nat.eqb_refl. reflexivity. }
  split; [|split; [|split; [exact Hk|split; [|split]]]].
  - unfold in_document. rewrite Hatt.
    destruct (without n (children s c)); [reflexivity|exact Hout].
  - intros m Hne. unfold in_document. rewrite Ha, Hatt.
    destruct (without n (children s c)) as [|x l] eqn:E.
    + rewrite <- (Hmemb m Hne). reflexivity.
    + rewrite Hk. exact (Hmemb m Hne).
  - rewrite Hatt, <- Hnil.
    destruct (without n (children s c)); split; congruence.
  - rewrite Hatt. destruct (without n (children s c)); congruence.
  - set (s' := removal c n s) in *. unfold removal at 1. rewrite Hout.
    reflexivity.
Qed.

Lemma X20_removal_witness :
  in_document 1 (removal 0 1 first_pressed) = false /\
  in_document 2 (removal 0 1 first_pressed) = true.
Proof.
  assert (Ha : attached first_pressed = Some 0%nat) by reflexivity.
  assert (Hin : In 1%nat (children first_pressed 0)) by (left; reflexivity).
  destruct (X20_removal 0 1 first_pressed Ha Hin) as (H1 & H2 & _).
  split; [exact H1|]. rewrite H2; [reflexivity|discriminate].
Defined.

(** X21: on every page the event loop can reach from an empty one, the
    container is in the document exactly while it holds a notification,
    so that an element with a parent is a displayed one, which is what
    the auto-dismiss callback relies on; and the page is sound: no timer
    is overdue, and timers, children and close buttons refer to nodes
    that were created. *)
Theorem X21_reachable_pages t evs s :
  run evs (empty_page t) = Some s ->
  container_rule s /\
  (forall c n, In n (children s c) -> in_document n s = true) /\
  sound_page s = true.
Proof.
  intro Hrun.
  pose proof (rule_run evs _ s (rule_empty t) Hrun) as R.
  split; [exact R|]. split.
  - intros c n Hin. apply (present_in_document c n s Hin).
    apply R. intro E. rewrite E in Hin. exact Hin.
  - apply (sound_run evs (empty_page t) s); [reflexivity|exact Hrun].
Qed.

Lemma X21_reachable_pages_witness :
  sound_page first_closed = true /\ attached first_closed = Some 0%nat.
Proof.
  assert (R : run ([Show note_success; Show note_error; Frame; Tick 1000;
                    Click 0 1] ++ close_first) (empty_page 0)
              = Some first_closed) by (vm_compute; reflexivity).
  destruct (X21_reachable_pages 0 _ first_closed R) as (H1 & _ & H3).
  split; [exact H3|]. apply H1. vm_compute. discriminate.
Defined.

(** X22: a displayed notification leaves the document through its own
    close button or its own timer only: events that are about other
    notifications, shown, dismissed or removed, the container with them,
    leave it displayed and schedule no removal of it. *)
Theorem X22_only_own_events o s0 n s1 evs1 s2 evs2 s3 :
  sound_page s0 = true ->
  showNotification o s0 = (n, s1) ->
  run evs1 s1 = Some s2 ->
  in_document n s2 = true ->
  run evs2 s2 = Some s3 ->
  none_about n evs2 s2 = true ->
  in_document n s3 = true /\ closing n s3 = closing n s2.
Proof.
  intros Hs Hshow Hrun1 Hdoc Hrun2 Hna.
  destruct (show_homed o s0 n s1 Hs Hshow) as (c0 & H1 & _).
  pose proof (homed_run c0 n evs1 s1 s2 H1 Hrun1) as H2.
  assert (Hin : In n (children s2 c0) /\ attached s2 = Some c0).
  { unfold in_document in Hdoc.
    destruct (attached s2) as [a|] eqn:Ea; [|discriminate].
    apply memb_In in Hdoc.
    destruct H2 as ((_ & _ & _ & T4 & _ & T6) & _).
    destruct (Nat.eq_dec a c0) as [->|Hne]; [auto|].
    destruct (T4 a (T6 a Ea) Hne Hdoc). }
  destruct Hin as [Hin Ha].
  destruct (untouched_run c0 n evs2 s2 s3 H2 Hrun2 Hna Hin Ha)
    as (R1 & R2 & R3).
  split; [exact (present_in_document c0 n s3 R1 R2)|].
  apply eq_true_iff_eq. rewrite !closing_spec.
  split; intros (c' & t' & Hm); exists c', t';
    apply (R3 {| due := t'; cb := Removal c' n |} eq_refl); exact Hm.
Qed.

Lemma X22_only_own_events_witness :
  in_document 2 first_closed = true.
Proof.
  assert (Hs : sound_page page_success = true) by (vm_compute; reflexivity).
  assert (E : showNotification note_error page_success = (2%nat, two_notes))
    by (vm_compute; reflexivity).
  assert (R : run ([Frame; Tick 1000; Click 0 1] ++ close_first) two_notes
              = Some first_closed) by (vm_compute; reflexivity).
  exact (proj1 (X22_only_own_events note_error page_success 2 two_notes
                  [] two_notes _ first_closed Hs E eq_refl eq_refl R
                  eq_refl)).
Defined.

(** X23: what a submission leaves on the screen. The notification of a
    submission that was turned down stays until its close button is
    pressed, whatever time passes: the duration 0 it is given is not used.
    That of an accepted submission is displayed for five seconds after a
    contact message and for ten after a catering enquiry, and is out of
    the document 300 milliseconds later. *)
Theorem X23_submission_notified e fm doc o s0 n s1 evs s2 :
  In (Notify o) (effects_of (submit e fm doc)) ->
  well_formed_page s0 = true ->
  showNotification o s0 = (n, s1) ->
  run evs s1 = Some s2 -> no_click n evs = true ->
  if isValid (validate e fm doc) then
    ((clock s2 < clock s0 + stay fm)%Z ->
     in_document n s2 = true /\ closing n s2 = false) /\
    ((clock s0 + stay fm + 300 < clock s2)%Z \/
     ((clock s0 + stay fm + 300 <= clock s2)%Z /\ settled s2 = true) ->
     in_document n s2 = false)
  else in_document n s2 = true /\ closing n s2 = false.
Proof.
  intros Hn Hwf Hshow Hrun Hnc.
  assert (Hkind :
    if isValid (validate e fm doc)
    then type_of o = lit "success" /\ duration_of o = stay fm
    else type_of o = lit "error").
  { destruct fm; cbn [submit validate stay] in *.
    - unfold contact_submit in Hn.
      destruct (isValid (validate_contact (read_contact doc)));
        cbn [negb] in Hn; [destruct (_ && _)|]; cbn [effects_of] in Hn;
        in_cases Hn; injection Hn as <-; [split|]; reflexivity.
    - unfold catering_submit in Hn.
      destruct (isValid (validate_catering e (read_catering doc)));
        cbn [negb] in Hn; cbn [effects_of] in Hn;
        in_cases Hn; injection Hn as <-; [split|]; reflexivity. }
  destruct (isValid (validate e fm doc)).
  - destruct Hkind as [Hty Hd].
    assert (Hr : (0 <= duration_of o < 2 ^ 31)%Z).
    { rewrite Hd. destruct fm; cbn; split; lia. }
    assert (Hne : type_of o <> lit "error") by (rewrite Hty; discriminate).
    destruct (shown_other_leaves o s0 n s1 evs s2 Hwf Hshow Hne Hr Hrun Hnc)
      as (c & L).
    rewrite Hd in L.
    destruct (lifecycle_observed c n _ s2 L) as (O1 & _ & O3). auto.
  - exact (shown_error_stays o s0 n s1 evs s2 Hwf Hshow Hkind Hrun Hnc).
Qed.

Lemma X23_submission_notified_witness :
  in_document 1 enquiry_after = false.
Proof.
  assert (Hn : In (Notify (catering_success env_nov3 (read_catering page_anna)))
                 (effects_of (submit env_nov3 CateringForm page_anna)))
    by (right; left; reflexivity).
  assert (E : showNotification
                (catering_success env_nov3 (read_catering page_anna))
                (empty_page 0) = (1%nat, page_enquiry))
    by (vm_compute; reflexivity).
  assert (R : run ten_seconds page_enquiry = Some enquiry_after)
    by (vm_compute; reflexivity).
  pose proof (X23_submission_notified env_nov3 CateringForm page_anna _
                (empty_page 0) 1 page_enquiry ten_seconds enquiry_after
                Hn eq_refl E R eq_refl) as H.
  assert (V : isValid (validate env_nov3 CateringForm page_anna) = true)
    by (vm_compute; reflexivity).
  rewrite V in H. apply (proj2 H). right.
  split; [vm_compute; discriminate|reflexivity].
Defined.

End Extras.
